(** * Content blocking and restoration of react-cookie-manager

    A shallow embedding of the tracking blocker (the module that exports
    [setBlockingEnabled], [createContentPlaceholder], [blockTrackingScripts],
    [ensurePlaceholdersVisible] and [unblockPreviouslyBlockedContent]) over an
    explicit model of the live DOM, followed by the properties of the
    specification that were checked against it.

    The DOM is a store of nodes addressed by their index: JavaScript object
    identity is the index, a detached node stays in the store, and a static
    [NodeList] is a list of indices that is iterated even after the nodes it
    names have been moved or detached. *)

From Stdlib Require Import String List Bool Arith Lia.
From stdpp Require Import base option list gmap strings.

Local Open Scope string_scope.
Local Open Scope list_scope.

(** ** Strings *)

(** [String.prototype.includes]: substring containment; the empty needle is
    contained in every string. *)
Fixpoint includes (hay needle : string) : bool :=
  if String.prefix needle hay then true
  else match hay with
       | EmptyString => false
       | String _ rest => includes rest needle
       end.

(** [keywords.some(k => url.includes(k))]. *)
Definition some_includes (keywords : list string) (url : string) : bool :=
  existsb (includes url) keywords.

(** JavaScript truthiness of a string. *)
Definition truthy (s : string) : bool := negb (String.eqb s "").

(** ** Nodes *)

Inductive node_kind :=
| KDocument
| KFragment
| KText
| KElement (tag : string).

(** The three closures installed by [addSettingsButtonListeners]. *)
Inductive handler := HoverIn | HoverOut | ShowConsent.

(** An element's own character data is kept in [text]; [attrs] are the content
    attributes other than [style], and [style] is the inline style
    declaration (a property set to the empty string is removed).  The [id]
    and [className] properties reflect the attributes [id] and [class];
    assigning to [src] sets the attribute, and reading [src] gives the
    attribute's URL resolved and serialised ([src_property] below). *)
Record node := mkNode {
  kind : node_kind;
  attrs : gmap string string;
  style : gmap string string;
  text : string;
  parent : option nat;
  children : list nat;
  listeners : list (string * handler) }.

Definition set_attrs (a : gmap string string) (x : node) : node :=
  mkNode (kind x) a (style x) (text x) (parent x) (children x) (listeners x).
Definition set_style (st : gmap string string) (x : node) : node :=
  mkNode (kind x) (attrs x) st (text x) (parent x) (children x) (listeners x).
Definition set_parent (p : option nat) (x : node) : node :=
  mkNode (kind x) (attrs x) (style x) (text x) p (children x) (listeners x).
Definition set_children (c : list nat) (x : node) : node :=
  mkNode (kind x) (attrs x) (style x) (text x) (parent x) c (listeners x).
Definition set_listeners (l : list (string * handler)) (x : node) : node :=
  mkNode (kind x) (attrs x) (style x) (text x) (parent x) (children x) l.

(** The store; node [0] is the document. *)
Abbreviation store := (list node).

Definition document : nat := 0.

Definition is_element (d : store) (n : nat) : bool :=
  match d !! n with
  | Some x => match kind x with KElement _ => true | _ => false end
  | None => false
  end.

Definition has_tag (d : store) (tag : string) (n : nat) : bool :=
  match d !! n with
  | Some x => match kind x with KElement t => String.eqb t tag | _ => false end
  | None => false
  end.

Definition parent_of (d : store) (n : nat) : option nat :=
  match d !! n with Some x => parent x | None => None end.

Definition children_of (d : store) (n : nat) : list nat :=
  match d !! n with Some x => children x | None => [] end.

(** [node.parentElement]: the parent, when it is an element. *)
Definition parentElement (d : store) (n : nat) : option nat :=
  match parent_of d n with
  | Some p => if is_element d p then Some p else None
  | None => None
  end.

(** [el.getAttribute(name)], [null] as [None]. *)
Definition getAttribute (d : store) (n : nat) (name : string) : option string :=
  match d !! n with Some x => attrs x !! name | None => None end.

Definition hasAttribute (d : store) (n : nat) (name : string) : bool :=
  match getAttribute d n name with Some _ => true | None => false end.

Definition setAttribute (n : nat) (name value : string) (d : store) : store :=
  alter (fun x => set_attrs (<[name := value]> (attrs x)) x) n d.

Definition removeAttribute (n : nat) (name : string) (d : store) : store :=
  alter (fun x => set_attrs (delete name (attrs x)) x) n d.

(** The [src] attribute as the callback reads it with [getAttribute], the
    empty string standing for a missing attribute. *)
Definition src_of (d : store) (n : nat) : string :=
  default "" (getAttribute d n "src").

(** [el.style.prop], the empty string when unset. *)
Definition style_of (d : store) (n : nat) (prop : string) : string :=
  match d !! n with Some x => default "" (style x !! prop) | None => "" end.

(** [el.style.prop = value]. *)
Definition set_style_prop (n : nat) (prop value : string) (d : store) : store :=
  alter (fun x =>
           set_style (if String.eqb value "" then delete prop (style x)
                      else <[prop := value]> (style x)) x) n d.

Definition set_styles (n : nat) (props : list (string * string)) (d : store)
  : store :=
  fold_left (fun acc pv => set_style_prop n (fst pv) (snd pv) acc) props d.

(** ** Tree surgery *)

(** Remove [n] from its parent's child list ([ChildNode.remove()]). *)
Definition detach (n : nat) (d : store) : store :=
  match parent_of d n with
  | Some p =>
      alter (set_parent None) n
        (alter (fun x => set_children
                           (filter (fun c => c ≠ n) (children x)) x) p d)
  | None => d
  end.

Fixpoint insert_before_in (ref new : nat) (l : list nat) : list nat :=
  match l with
  | [] => [new]
  | x :: rest =>
      if Nat.eqb x ref then new :: x :: rest
      else x :: insert_before_in ref new rest
  end.

(** [parent.insertBefore(new, ref)]. *)
Definition insertBefore (p new ref : nat) (d : store) : store :=
  let d1 := detach new d in
  alter (set_parent (Some p)) new
    (alter (fun x => set_children
                       (insert_before_in ref new (children x)) x) p d1).

(** [parent.appendChild(new)]. *)
Definition appendChild (p new : nat) (d : store) : store :=
  let d1 := detach new d in
  alter (set_parent (Some p)) new
    (alter (fun x => set_children (children x ++ [new]) x) p d1).

Fixpoint ancestor_within (fuel : nat) (d : store) (a n : nat) : bool :=
  Nat.eqb a n ||
  match fuel with
  | 0 => false
  | S fuel' =>
      match parent_of d n with
      | Some p => ancestor_within fuel' d a p
      | None => false
      end
  end.

(** [a] is [n] or one of its ancestors. *)
Definition inclusive_ancestor (d : store) (a n : nat) : bool :=
  ancestor_within (length d) d a n.

Definition replace_in (old new : nat) (l : list nat) : list nat :=
  map (fun c => if Nat.eqb c old then new else c) l.

(** [parent.replaceChild(new, old)]; [None] is a thrown [DOMException]
    ([HierarchyRequestError] when [new] contains [parent], [NotFoundError]
    when [old] is not a child of [parent]). *)
Definition replaceChild (p new old : nat) (d : store) : option store :=
  if inclusive_ancestor d new p then None
  else if negb (bool_decide (parent_of d old = Some p)) then None
  else
    let d1 := detach new d in
    Some (alter (set_parent (Some p)) new
            (alter (set_parent None) old
               (alter (fun x => set_children
                                  (replace_in old new (children x)) x) p d1))).

(** ** Queries *)

Fixpoint subtree_within (fuel : nat) (d : store) (ns : list nat) : list nat :=
  match fuel with
  | 0 => []
  | S fuel' =>
      flat_map (fun n => n :: subtree_within fuel' d (children_of d n)) ns
  end.

(** The descendants of [n] in tree order. *)
Definition descendants (d : store) (n : nat) : list nat :=
  subtree_within (length d) d (children_of d n).

(** [root.querySelectorAll(sel)] for a selector given as a predicate. *)
Definition querySelectorAll (d : store) (root : nat)
    (sel : store -> nat -> bool) : list nat :=
  filter (fun n => sel d n = true) (descendants d root).

Definition querySelector (d : store) (root : nat)
    (sel : store -> nat -> bool) : option nat :=
  head (querySelectorAll d root sel).

(** ** Selectors *)

Definition is_space (c : Ascii.ascii) : bool :=
  let n := Ascii.nat_of_ascii c in
  Nat.eqb n 32 || Nat.eqb n 9 || Nat.eqb n 10 || Nat.eqb n 12 || Nat.eqb n 13.

(** The tokens of a [class] attribute. *)
Fixpoint class_tokens (cur : string) (s : string) : list string :=
  match s with
  | EmptyString => if truthy cur then [cur] else []
  | String c rest =>
      if is_space c
      then (if truthy cur then [cur] else []) ++ class_tokens "" rest
      else class_tokens (cur ++ String c EmptyString)%string rest
  end.

Definition has_class (cls : string) (d : store) (n : nat) : bool :=
  is_element d n &&
  existsb (String.eqb cls)
    (class_tokens "" (default "" (getAttribute d n "class"))).

Definition attr_is (name value : string) (d : store) (n : nat) : bool :=
  is_element d n &&
  match getAttribute d n name with
  | Some v => String.eqb v value
  | None => false
  end.

(** ["script"] and ["iframe"]. *)
Definition sel_script : store -> nat -> bool := fun d => has_tag d "SCRIPT".
Definition sel_iframe : store -> nat -> bool := fun d => has_tag d "IFRAME".

(** ['iframe[data-cookie-blocked="true"][data-original-src]']. *)
Definition sel_blocked_iframe (d : store) (n : nat) : bool :=
  has_tag d "IFRAME" n && attr_is "data-cookie-blocked" "true" d n
  && hasAttribute d n "data-original-src".

(** ['[data-cookie-consent-placeholder="true"]']. *)
Definition sel_placeholder : store -> nat -> bool :=
  attr_is "data-cookie-consent-placeholder" "true".

(** [".cookie-consent-wrapper-content"]. *)
Definition sel_wrapper_content : store -> nat -> bool :=
  has_class "cookie-consent-wrapper-content".

(** [document.getElementById(id)]. *)
Definition getElementById (d : store) (id : string) : option nat :=
  querySelector d document (attr_is "id" id).

(** Whether the markup of a node mentions [needle]: in its character data, in
    an attribute value or in an inline style value. *)
Definition node_mentions (needle : string) (x : node) : bool :=
  includes (text x) needle
  || existsb (fun kv => includes (snd kv) needle) (map_to_list (attrs x))
  || existsb (fun kv => includes (snd kv) needle) (map_to_list (style x)).

(** [el.innerHTML.includes(needle)] for a needle of letters and spaces, which
    can only occur inside the character data or a quoted value of some
    descendant. *)
Definition innerHTML_includes (d : store) (n : nat) (needle : string) : bool :=
  existsb (fun m => match d !! m with
                    | Some x => node_mentions needle x
                    | None => false
                    end) (descendants d n).

(** ** The page *)

(** A [MutationObserver], by what its callback does. *)
Inductive observer :=
| ObsNoop
| ObsBlock (trackingKeywords : list string).

(** The state the module runs against: the DOM, the module's
    [blockingEnabled] flag, the observers registered on the document (with
    [childList] and [subtree]), [Math.random] as a stream of the strings
    that [.toString(36).substring(2, 11)] yields, with the number of draws
    made so far, and the document's URL resolution: what the URL parser and
    serialiser make of a [src] attribute value against the document's base
    URL (the value itself where it does not parse). *)
Record world := mkWorld {
  dom : store;
  blockingEnabled : bool;
  registry : list observer;
  rand : nat -> string;
  draws : nat;
  resolve : string -> string }.

Definition with_dom (d : store) (w : world) : world :=
  mkWorld d (blockingEnabled w) (registry w) (rand w) (draws w) (resolve w).

Definition over_dom (f : store -> store) (w : world) : world :=
  with_dom (f (dom w)) w.

(** [setBlockingEnabled]. *)
Definition setBlockingEnabled (enabled : bool) (w : world) : world :=
  mkWorld (dom w) enabled (registry w) (rand w) (draws w) (resolve w).

(** [Math.random().toString(36).substring(2, 11)]. *)
Definition draw (w : world) : string * world :=
  (rand w (draws w),
   mkWorld (dom w) (blockingEnabled w) (registry w) (rand w) (S (draws w))
     (resolve w)).

(** Computations that may throw; the world at the throw is kept, since
    a JavaScript exception rolls nothing back. *)
Inductive outcome (A : Type) :=
| Returned (w : world) (a : A)
| Thrown (w : world) (msg : string).
Arguments Returned {A} w a.
Arguments Thrown {A} w msg.

Definition M (A : Type) : Type := world -> outcome A.

Definition ret {A} (a : A) : M A := fun w => Returned w a.

Definition bind {A B} (m : M A) (k : A -> M B) : M B :=
  fun w => match m w with
           | Returned w' a => k a w'
           | Thrown w' msg => Thrown w' msg
           end.

Definition throw {A} (msg : string) : M A := fun w => Thrown w msg.

Definition lift (f : world -> world) : M unit := fun w => Returned (f w) tt.

Notation "'do' x <- m ; k" := (bind m (fun x => k))
  (at level 10, x name, m at level 100, k at level 200).
Notation "m >> k" := (bind m (fun _ => k))
  (at level 65, right associativity).

(** [list.forEach(f)]: an exception leaves the loop. *)
Fixpoint forEach {A} (f : A -> M unit) (l : list A) : M unit :=
  match l with
  | [] => ret tt
  | x :: rest => f x >> forEach f rest
  end.

Definition world_of {A} (o : outcome A) : world :=
  match o with Returned w _ => w | Thrown w _ => w end.

(** ** Styles and markup *)

Definition wrapper_styles (width height : string) : list (string * string) :=
  [ ("position", "relative"); ("width", width); ("height", height);
    ("display", "flex"); ("flex-direction", "column");
    ("align-items", "center"); ("justify-content", "center");
    ("background-color", "rgba(31, 41, 55, 0.95)");
    ("border-radius", "6px"); ("border", "1px solid #4b5563");
    ("box-shadow", "0 4px 12px rgba(0, 0, 0, 0.15)");
    ("overflow", "hidden"); ("backdrop-filter", "blur(4px)");
    ("text-align", "center"); ("color", "#f3f4f6"); ("font-size", "14px");
    ("line-height", "1.4");
    ("font-family",
     "-apple-system, BlinkMacSystemFont, 'Segoe UI', Roboto, Helvetica, Arial, sans-serif") ].

Definition applyWrapperStyles (wrapper : nat) (width height : string)
    (d : store) : store :=
  set_styles wrapper (wrapper_styles width height) d.

Definition hidden_iframe_styles : list (string * string) :=
  [ ("position", "absolute"); ("top", "0"); ("left", "0"); ("width", "1px");
    ("height", "1px"); ("opacity", "0"); ("pointer-events", "none");
    ("visibility", "hidden"); ("z-index", "-1") ].

Definition positionIframeAbsolutely (iframe : nat) (d : store) : store :=
  set_styles iframe hidden_iframe_styles d.

Definition new_element (tag : string) : node :=
  mkNode (KElement tag) ∅ ∅ "" None [] [].

(** [document.createElement(tag)]: the new node and the extended store. *)
Definition createElement (tag : string) (d : store) : nat * store :=
  (length d, d ++ [new_element tag]).

Definition markup_node (tag : string) (at_ st : list (string * string))
    (txt : string) (p : nat) (kids : list nat) : node :=
  mkNode (KElement tag) (list_to_map at_) (list_to_map st) txt (Some p) kids [].

(** The elements that parsing [createPlaceholderContent(placeholderId)]
    yields, allocated from index [base] under [p]: a panel holding the lock
    glyph, the title, two paragraphs and the settings button.  The
    whitespace between the tags is not materialised. *)
Definition createPlaceholderContent (placeholderId : string) (p base : nat)
  : list node :=
  [ markup_node "DIV" []
      [ ("display", "flex"); ("flex-direction", "column");
        ("align-items", "center"); ("justify-content", "center");
        ("text-align", "center"); ("padding", "16px"); ("width", "100%");
        ("max-width", "95%"); ("box-sizing", "border-box") ]
      "" p [base + 1; base + 2; base + 3; base + 4; base + 5];
    markup_node "DIV" [] [ ("margin-bottom", "8px"); ("font-size", "28px") ]
      "🔒" base [];
    markup_node "H3" []
      [ ("font-size", "16px"); ("margin", "0 0 8px 0");
        ("font-weight", "bold"); ("color", "white") ]
      "Content Blocked" base [];
    markup_node "P" [] [ ("margin", "0 0 8px 0"); ("font-size", "14px") ]
      "This content requires cookies that are currently blocked by your privacy settings. This embedded content may track your activity."
      base [];
    markup_node "P" []
      [ ("margin", "0 0 8px 0"); ("font-size", "13px"); ("color", "#d1d5db") ]
      "After accepting cookies, please refresh the page to view this content."
      base [];
    markup_node "DIV" [ ("id", ("cookie-settings-" ++ placeholderId)%string) ]
      [ ("margin-top", "10px"); ("background-color", "#3b82f6");
        ("color", "white"); ("border", "none"); ("padding", "6px 12px");
        ("border-radius", "4px"); ("font-weight", "500");
        ("cursor", "pointer"); ("font-size", "13px");
        ("transition", "all 0.2s ease"); ("display", "inline-block") ]
      "Manage Cookie Settings" base [] ].

(** [el.innerHTML = createPlaceholderContent(placeholderId)]: the former
    children are detached and the parsed markup takes their place. *)
Definition set_innerHTML (el : nat) (placeholderId : string) (d : store)
  : store :=
  let d1 := fold_left (fun acc c => alter (set_parent None) c acc)
              (children_of d el) d in
  let base := length d1 in
  alter (set_children [base]) el d1
    ++ createPlaceholderContent placeholderId el base.

Definition settings_listeners : list (string * handler) :=
  [ ("mouseover", HoverIn); ("mouseout", HoverOut); ("click", ShowConsent) ].

Definition addSettingsButtonListeners (placeholderId : string) (d : store)
  : store :=
  match getElementById d ("cookie-settings-" ++ placeholderId)%string with
  | Some button =>
      alter (fun x => set_listeners (listeners x ++ settings_listeners) x)
        button d
  | None => d
  end.

(** [a || b] on strings. *)
Definition or_else (a b : string) : string := if truthy a then a else b.

(** ** createContentPlaceholder *)

(** Lines 125-162: what [createContentPlaceholder] does to the DOM once the
    parent element is known; yields the wrapper. *)
Definition build_placeholder (iframe parentEl : nat)
    (originalSrc placeholderId : string) (d : store) : nat * store :=
  let d := setAttribute iframe "data-cookie-blocked" "true" d in
  let d := setAttribute iframe "data-original-src" originalSrc d in
  let d := setAttribute iframe "src" "about:blank" d in
  let (wrapper, d) := createElement "DIV" d in
  let d := applyWrapperStyles wrapper
             (or_else (style_of d iframe "width") "100%")
             (or_else (style_of d iframe "height") "315px") d in
  let d := set_innerHTML wrapper placeholderId d in
  let (placeholderElement, d) := createElement "DIV" d in
  let d := setAttribute placeholderElement "id" placeholderId d in
  let d := setAttribute placeholderElement "class"
             "cookie-consent-blocked-iframe" d in
  let d := setAttribute placeholderElement
             "data-cookie-consent-placeholder" "true" d in
  let d := setAttribute placeholderElement "data-blocked-src" originalSrc d in
  let d := set_style_prop placeholderElement "display" "none" d in
  let d := insertBefore parentEl wrapper iframe d in
  let d := positionIframeAbsolutely iframe d in
  let d := appendChild wrapper iframe d in
  let d := appendChild wrapper placeholderElement d in
  let d := addSettingsButtonListeners placeholderId d in
  (wrapper, d).

Definition createContentPlaceholder (iframe : nat) (originalSrc : string)
  : M nat := fun w0 =>
  let (r, w) := draw w0 in
  let placeholderId := ("cookie-blocked-content-" ++ r)%string in
  match parentElement (dom w) iframe with
  | None => Thrown w "Iframe has no parent element"
  | Some parentEl =>
      let (wrapper, d) :=
        build_placeholder iframe parentEl originalSrc placeholderId (dom w) in
      Returned (with_dom d w) wrapper
  end.

(** ** blockTrackingScripts *)

Definition about_blank : string := "about:blank".

(** [el.src] of a script or iframe, the reflected URL property: the empty
    string without a [src] attribute, else the attribute's value resolved
    and serialised by [r].  The neutral URL has nothing to resolve and
    serialises to itself. *)
Definition src_property (r : string -> string) (d : store) (n : nat)
  : string :=
  match getAttribute d n "src" with
  | None => ""
  | Some v => if String.eqb v about_blank then about_blank else r v
  end.

Definition live_src (w : world) (n : nat) : string :=
  src_property (resolve w) (dom w) n.

(** The body of the sweep over [document.querySelectorAll("script")]. *)
Definition sweep_script (trackingKeywords : list string) (script : nat)
  : M unit := fun w =>
  let src := live_src w script in
  if truthy src && some_includes trackingKeywords src
  then Returned (over_dom (detach script) w) tt
  else Returned w tt.

(** The body of the sweep over [document.querySelectorAll("iframe")]. *)
Definition sweep_iframe (trackingKeywords : list string) (el : nat)
  : M unit := fun w =>
  let src := live_src w el in
  if blockingEnabled w && truthy src && negb (String.eqb src about_blank)
     && some_includes trackingKeywords src
  then (createContentPlaceholder el src >> ret tt) w
  else Returned w tt.

(** [document.documentElement]: the document's element child, if any. *)
Definition documentElement (d : store) : option nat :=
  head (filter (fun c => is_element d c = true) (children_of d document)).

(** The observer joins those registered on the document. *)
Definition register (o : observer) (w : world) : world :=
  mkWorld (dom w) (blockingEnabled w) (registry w ++ [o]) (rand w) (draws w)
    (resolve w).

(** [observer.observe(document.documentElement, {childList, subtree})]: a
    [TypeError] when the document has no root element, as [observe] takes a
    node. *)
Definition observe (o : observer) : M unit := fun w =>
  match documentElement (dom w) with
  | Some _ => Returned (register o w) tt
  | None => Thrown w "parameter 1 is not of type 'Node'"
  end.

Definition blockTrackingScripts (trackingKeywords : list string)
  : M observer := fun w =>
  if negb (blockingEnabled w) then Returned w ObsNoop
  else
    (forEach (sweep_script trackingKeywords)
       (querySelectorAll (dom w) document sel_script) >>
     (fun w1 =>
        forEach (sweep_iframe trackingKeywords)
          (querySelectorAll (dom w1) document sel_iframe) w1) >>
     observe (ObsBlock trackingKeywords) >>
     ret (ObsBlock trackingKeywords)) w.

(** A [MutationRecord], by its [addedNodes]. *)
Record mutation := mkMutation { addedNodes : list nat }.

(** Lines 206-216: an added script. *)
Definition on_added_script (trackingKeywords : list string) (node : nat)
  : M unit := fun w =>
  if has_tag (dom w) "SCRIPT" node then
    match getAttribute (dom w) node "src" with
    | Some src =>
        if blockingEnabled w && truthy src
           && some_includes trackingKeywords src
        then Returned (over_dom (detach node) w) tt
        else Returned w tt
    | None => Returned w tt
    end
  else Returned w tt.

(** Lines 218-229: an added iframe. *)
Definition on_added_iframe (trackingKeywords : list string) (node : nat)
  : M unit := fun w =>
  if has_tag (dom w) "IFRAME" node then
    match getAttribute (dom w) node "src" with
    | Some src =>
        if blockingEnabled w && truthy src
           && negb (String.eqb src about_blank)
           && some_includes trackingKeywords src
        then (createContentPlaceholder node src >> ret tt) w
        else Returned w tt
    | None => Returned w tt
    end
  else Returned w tt.

(** The body of [mutation.addedNodes.forEach] in the observer's callback. *)
Definition on_added_node (trackingKeywords : list string) (node : nat)
  : M unit :=
  on_added_script trackingKeywords node >> on_added_iframe trackingKeywords node.

(** The callback given to [new MutationObserver]. *)
Definition observer_callback (o : observer) (mutations : list mutation)
  : M unit :=
  match o with
  | ObsNoop => ret tt
  | ObsBlock trackingKeywords =>
      forEach (fun m => forEach (on_added_node trackingKeywords)
                          (addedNodes m)) mutations
  end.

(** The platform delivering one batch of records: every registered observer's
    callback runs; an exception that leaves a callback is reported by the
    platform and ends that callback only. *)
Definition deliver (mutations : list mutation) (w : world) : world :=
  fold_left (fun acc o => world_of (observer_callback o mutations acc))
    (registry w) w.

(** ** ensurePlaceholdersVisible *)

Definition visible_styles : list (string * string) :=
  [ ("display", "flex"); ("visibility", "visible"); ("opacity", "1");
    ("z-index", "100") ].

(** Lines 291-301 and 315-326: hide the iframe and keep it on the neutral
    URL. *)
Definition neutralise_iframe (r : string -> string) (iframe : nat)
    (d : store) : store :=
  let d := positionIframeAbsolutely iframe d in
  if negb (String.eqb (src_property r d iframe) about_blank)
     && hasAttribute d iframe "data-original-src"
  then setAttribute iframe "src" about_blank d
  else d.

Definition ensure_placeholder (placeholder : nat) (w : world) : world :=
  if is_element (dom w) placeholder then
    let w := over_dom (set_styles placeholder visible_styles) w in
    match parentElement (dom w) placeholder with
    | None => w
    | Some wrapper =>
        let w := over_dom (applyWrapperStyles wrapper "100%" "315px") w in
        let hasContent :=
          bool_decide (querySelector (dom w) wrapper sel_wrapper_content ≠ None)
          || innerHTML_includes (dom w) wrapper "Content Blocked" in
        let w :=
          if negb hasContent then
            let id := default "" (getAttribute (dom w) placeholder "id") in
            let (placeholderId, w) :=
              if truthy id then (id, w)
              else let (r, w) := draw w in
                   (("cookie-blocked-content-" ++ r)%string, w) in
            let d := dom w in
            let d := set_innerHTML wrapper placeholderId d in
            let d := appendChild wrapper placeholder d in
            let d :=
              match querySelector d wrapper sel_iframe with
              | Some iframe =>
                  appendChild wrapper iframe
                    (neutralise_iframe (resolve w) iframe d)
              | None => d
              end in
            let d := addSettingsButtonListeners placeholderId d in
            with_dom d w
          else w in
        match querySelector (dom w) wrapper sel_iframe with
        | Some iframe => over_dom (neutralise_iframe (resolve w) iframe) w
        | None => w
        end
    end
  else w.

Definition ensurePlaceholdersVisible (w : world) : world :=
  let placeholders := querySelectorAll (dom w) document sel_placeholder in
  if Nat.ltb 0 (length placeholders)
  then fold_left (fun acc p => ensure_placeholder p acc) placeholders w
  else w.

(** ** unblockPreviouslyBlockedContent *)

Definition cleared_iframe_styles : list (string * string) :=
  [ ("position", ""); ("top", ""); ("left", ""); ("width", "");
    ("height", ""); ("opacity", ""); ("pointer-events", "");
    ("visibility", ""); ("z-index", "") ].

(** Restore the source and drop the blocking attributes and styles. *)
Definition restore_iframe (iframe : nat) (originalSrc : string) (d : store)
  : store :=
  let d := setAttribute iframe "src" originalSrc d in
  let d := removeAttribute iframe "data-cookie-blocked" d in
  let d := removeAttribute iframe "data-original-src" d in
  set_styles iframe cleared_iframe_styles d.

(** [try { parent.replaceChild(iframe, wrapper) } catch {}]. *)
Definition try_replaceChild (p iframe wrapper : nat) (d : store) : store :=
  default d (replaceChild p iframe wrapper d).

(** The body of the primary pass. *)
Definition unblock_iframe (currentBlockedKeywords : list string)
    (iframe : nat) (d : store) : store :=
  match getAttribute d iframe "data-original-src" with
  | None => d
  | Some originalSrc =>
      if negb (truthy originalSrc) then d
      else if some_includes currentBlockedKeywords originalSrc then d
      else
        let d := restore_iframe iframe originalSrc d in
        match parentElement d iframe with
        | Some wrapper =>
            match parentElement d wrapper with
            | Some grand => try_replaceChild grand iframe wrapper d
            | None => d
            end
        | None => d
        end
  end.

(** A string as an optional truthy value ([s || undefined]). *)
Definition truthy_opt (s : option string) : option string :=
  match s with
  | Some v => if truthy v then Some v else None
  | None => None
  end.

(** The body of the safety pass. *)
Definition unblock_placeholder (currentBlockedKeywords : list string)
    (placeholder : nat) (d : store) : store :=
  match parentElement d placeholder with
  | None => d
  | Some wrapper =>
      let iframe := querySelector d wrapper sel_iframe in
      let blockedSrc :=
        truthy_opt (getAttribute d placeholder "data-blocked-src") in
      let originalSrc :=
        match iframe with
        | Some i =>
            match truthy_opt (getAttribute d i "data-original-src") with
            | Some v => Some v
            | None => blockedSrc
            end
        | None => blockedSrc
        end in
      match originalSrc with
      | None => d
      | Some originalSrc =>
          if some_includes currentBlockedKeywords originalSrc then d
          else
            match iframe with
            | Some i =>
                let d := restore_iframe i originalSrc d in
                match parentElement d wrapper with
                | Some grand => try_replaceChild grand i wrapper d
                | None => d
                end
            | None => detach wrapper d
            end
      end
  end.

Definition unblock_store (currentBlockedKeywords : list string) (d : store)
  : store :=
  let blockedIframes := querySelectorAll d document sel_blocked_iframe in
  let d := fold_left (fun acc i => unblock_iframe currentBlockedKeywords i acc)
             blockedIframes d in
  let placeholders := querySelectorAll d document sel_placeholder in
  fold_left (fun acc p => unblock_placeholder currentBlockedKeywords p acc)
    placeholders d.

Definition unblockPreviouslyBlockedContent
    (currentBlockedKeywords : list string) (w : world) : world :=
  over_dom (unblock_store currentBlockedKeywords) w.

(** ** Predicates used by the statements *)

Definition is_thrown {A} (o : outcome A) : Prop :=
  match o with Thrown _ _ => True | Returned _ _ => False end.

(** ** Sample pages *)

Definition el (tag : string) (a : list (string * string)) (p : nat)
    (kids : list nat) : node :=
  mkNode (KElement tag) (list_to_map a) ∅ "" (Some p) kids [].

(** A page on its own: blocking on, nothing registered, and [src]
    attributes that hold serialised absolute URLs, which resolve to
    themselves. *)
Definition fresh_world (d : store) : world :=
  mkWorld d true [] (fun _ => "k3x9q2m1z") 0 (fun url => url).

(** [<html><body><iframe src=...></iframe><script src=...></script>]. *)
Definition sample_page : store :=
  [ mkNode KDocument ∅ ∅ "" None [1] [];
    el "HTML" [] 0 [2];
    el "BODY" [] 1 [3; 4];
    el "IFRAME" [("src", "https://youtube.com/embed/abc")] 2 [];
    el "SCRIPT" [("src", "https://track.example/x.js")] 2 [] ].

(** An iframe held by a [DocumentFragment], next to an empty document. *)
Definition fragment_page : store :=
  [ mkNode KDocument ∅ ∅ "" None [] [];
    mkNode KFragment ∅ ∅ "" None [2] [];
    el "IFRAME" [("src", "https://youtube.com/embed/abc")] 1 [] ].

(** I2: an iframe that carries the blocked marker has a non-empty recorded
    original URL. *)
Definition well_recorded (x : node) : Prop :=
  kind x = KElement "IFRAME" ->
  attrs x !! "data-cookie-blocked" = Some "true" ->
  exists u, attrs x !! "data-original-src" = Some u /\ u <> "".

Definition recorded_invariant (d : store) : Prop := Forall well_recorded d.

Definition recorded_world (w : world) : Prop := recorded_invariant (dom w).

(** ** Blocking, as seen on one node *)

Definition kind_at (d : store) (k : nat) : option node_kind :=
  (kind <$> d) !! k.
Definition attrs_at (d : store) (k : nat) : option (gmap string string) :=
  (attrs <$> d) !! k.
Definition parent_at (d : store) (k : nat) : option (option nat) :=
  (parent <$> d) !! k.

(** The test the callback applies to an iframe's [src] attribute:
    non-empty, not the neutral URL, and containing a keyword. *)
Definition matches (keywords : list string) (d : store) (n : nat) : bool :=
  let src := src_of d n in
  truthy src && negb (String.eqb src about_blank)
  && some_includes keywords src.

(** The same test as the sweep applies it, to [el.src]. *)
Definition live_matches (keywords : list string) (w : world) (n : nat)
  : bool :=
  let src := live_src w n in
  truthy src && negb (String.eqb src about_blank)
  && some_includes keywords src.

(** P1's postcondition: the live source is neutral, the marker is set, and
    the original URL is recorded. *)
Definition blocked_as (d : store) (n : nat) (u : string) : Prop :=
  getAttribute d n "src" = Some about_blank
  /\ getAttribute d n "data-cookie-blocked" = Some "true"
  /\ getAttribute d n "data-original-src" = Some u.

(** What a run of blocking steps may do: flags, registered observers and URL
    resolution stay, nodes are only added and none of the new ones is an
    iframe, kinds stay, and a node that was there either keeps its attributes
    and parent, or is a script that has been removed, or is an iframe whose
    [src] was not the neutral URL and which is now blocked, with some URL
    recorded. *)
Definition blocking_run (w w' : world) : Prop :=
  blockingEnabled w' = blockingEnabled w
  /\ (registry w' = registry w /\ resolve w' = resolve w)
  /\ length (dom w) <= length (dom w')
  /\ (forall k, k < length (dom w) -> kind_at (dom w') k = kind_at (dom w) k)
  /\ (forall k, k < length (dom w) ->
        (attrs_at (dom w') k = attrs_at (dom w) k
         /\ parent_at (dom w') k = parent_at (dom w) k)
        \/ (has_tag (dom w) "SCRIPT" k = true
            /\ attrs_at (dom w') k = attrs_at (dom w) k
            /\ parent_at (dom w') k = Some None)
        \/ (has_tag (dom w) "IFRAME" k = true
            /\ getAttribute (dom w) k "src" <> Some about_blank
            /\ exists u, blocked_as (dom w') k u))
  /\ (forall k, length (dom w) <= k -> has_tag (dom w') "IFRAME" k = false).

(** The iframes the immediate sweep visits: those in the document once the
    script sweep is over. *)
Definition swept_iframes (keywords : list string) (w : world) : list nat :=
  querySelectorAll
    (dom (world_of (forEach (sweep_script keywords)
                      (querySelectorAll (dom w) document sel_script) w)))
    document sel_iframe.

(** The nodes a batch of records reports as added, in order. *)
Definition added_nodes (ms : list mutation) : list nat :=
  concat (map addedNodes ms).

(** A document whose root element is an iframe. *)
Definition root_iframe_page : store :=
  [ mkNode KDocument ∅ ∅ "" None [1] [];
    el "IFRAME" [("src", "https://youtube.com/embed/abc")] 0 [] ].

(** A script element that holds an iframe (built through the DOM API). *)
Definition script_with_iframe_page : store :=
  [ mkNode KDocument ∅ ∅ "" None [1] [];
    el "HTML" [] 0 [2];
    el "BODY" [] 1 [3];
    el "SCRIPT" [("src", "https://cdn.example/lib.js")] 2 [4];
    el "IFRAME" [("src", "https://youtube.com/embed/abc")] 3 [] ].

(** A page with one iframe in the body and one iframe that was inserted and
    taken out again before the observer's callback ran (node 3). *)
Definition orphan_batch_page : store :=
  [ mkNode KDocument ∅ ∅ "" None [1] [];
    el "HTML" [] 0 [2];
    el "BODY" [] 1 [4];
    mkNode (KElement "IFRAME")
      (list_to_map [("src", "https://youtube.com/embed/abc")]) ∅ "" None [] [];
    el "IFRAME" [("src", "https://youtube.com/embed/xyz")] 2 [] ].

Definition watching (kws : list string) (d : store) : world :=
  mkWorld d true [ObsBlock kws] (fun _ => "k3x9q2m1z") 0 (fun url => url).

(** ** Restoration, as seen on the whole store *)

(** Every URL recorded on the page, on an iframe ([data-original-src]) or on
    a placeholder marker ([data-blocked-src]), is empty or still contains one
    of the keywords. *)
Definition still_matched (keywords : list string) (d : store) : Prop :=
  forall n u,
    (getAttribute d n "data-original-src" = Some u
     \/ getAttribute d n "data-blocked-src" = Some u) ->
    u = "" \/ some_includes keywords u = true.

(** [sample_page] after [blockTrackingScripts(["youtube.com"])]: the iframe
    (node 3) sits in its wrapper (node 5) with the panel (node 6) and the
    marker (node 12). *)
Definition blocked_sample_page : store :=
  Eval vm_compute in
    dom (world_of (blockTrackingScripts ["youtube.com"]
                     (fresh_world sample_page))).

(** Two iframes in the body, from two providers. *)
Definition two_iframe_page : store :=
  [ mkNode KDocument ∅ ∅ "" None [1] [];
    el "HTML" [] 0 [2];
    el "BODY" [] 1 [3; 4];
    el "IFRAME" [("src", "https://youtube.com/embed/abc")] 2 [];
    el "IFRAME" [("src", "https://player.vimeo.com/video/7")] 2 [] ].

(** [two_iframe_page] after [blockTrackingScripts(["youtube.com"])]: node 3
    is blocked and wrapped, node 4 is as it was. *)
Definition half_blocked_page : store :=
  Eval vm_compute in
    dom (world_of (blockTrackingScripts ["youtube.com"]
                     (fresh_world two_iframe_page))).

(** ** Inline styles as assignments *)

(** One [el.style.prop = value] on the declaration itself. *)
Definition apply_style (m : gmap string string) (pv : string * string)
  : gmap string string :=
  if String.eqb (snd pv) "" then delete (fst pv) m
  else <[fst pv := snd pv]> m.

Definition apply_styles (props : list (string * string))
    (m : gmap string string) : gmap string string :=
  fold_left apply_style props m.

(** What a list of assignments leaves in property [k]: [None] when it does
    not assign [k], else the last value assigned ([Some None] for a
    removal). *)
Fixpoint assigned (props : list (string * string)) (k : string)
  : option (option string) :=
  match props with
  | [] => None
  | pv :: rest =>
      match assigned rest k with
      | Some r => Some r
      | None =>
          if String.eqb (fst pv) k
          then Some (if String.eqb (snd pv) "" then None else Some (snd pv))
          else None
      end
  end.

(** ** The visibility pass as a list of writes *)

(** Everything of a node but its inline style and its [src] attribute. *)
Definition shape (x : node)
  : node_kind * gmap string string * string * option nat * list nat
    * list (string * handler) :=
  (kind x, delete "src" (attrs x), text x, parent x, children x, listeners x).

Definition same_shape (d d' : store) : Prop := shape <$> d = shape <$> d'.

(** A write to one node: style assignments, and possibly the neutral URL,
    which is assigned when the node's [src] property is another URL. *)
Record node_write := mkWrite {
  nw_styles : list (string * string);
  nw_neutral : bool }.

(** The [src] property, read off the node. *)
Definition node_src (r : string -> string) (x : node) : string :=
  match attrs x !! "src" with
  | None => ""
  | Some v => if String.eqb v about_blank then about_blank else r v
  end.

Definition run_write (r : string -> string) (nw : node_write) (x : node)
  : node :=
  set_style (apply_styles (nw_styles nw) (style x))
    (if nw_neutral nw && negb (String.eqb (node_src r x) about_blank)
     then set_attrs (<["src" := about_blank]> (attrs x)) x
     else x).

Definition apply_writes (r : string -> string) (ws : list (nat * node_write))
    (d : store) : store :=
  fold_left (fun acc w => alter (run_write r (snd w)) (fst w) acc) ws d.

Definition merge_writes (a b : node_write) : node_write :=
  mkWrite (nw_styles a ++ nw_styles b) (nw_neutral a || nw_neutral b).

(** All the writes of a list that go to node [k], as one write. *)
Fixpoint collect_writes (ws : list (nat * node_write)) (k : nat)
  : node_write :=
  match ws with
  | [] => mkWrite [] false
  | w :: rest =>
      if Nat.eqb (fst w) k
      then merge_writes (snd w) (collect_writes rest k)
      else collect_writes rest k
  end.

(** The wrapper shows the placeholder markup in a way that restyling cannot
    undo: an element of the content class, or the title in the character
    data of a descendant. *)
Definition stable_content (d : store) (wrapper : nat) : bool :=
  bool_decide (querySelector d wrapper sel_wrapper_content <> None)
  || existsb (fun m => match d !! m with
                       | Some x => includes (text x) "Content Blocked"
                       | None => false
                       end) (descendants d wrapper).

(** What [ensurePlaceholdersVisible] writes for one marker when the markup
    is in place (lines 254-263 and 311-326). *)
Definition writes_for (d : store) (placeholder : nat)
  : list (nat * node_write) :=
  if is_element d placeholder then
    (placeholder, mkWrite visible_styles false)
    :: match parentElement d placeholder with
       | None => []
       | Some wrapper =>
           (wrapper, mkWrite (wrapper_styles "100%" "315px") false)
           :: match querySelector d wrapper sel_iframe with
              | None => []
              | Some iframe =>
                  [(iframe,
                    mkWrite hidden_iframe_styles
                      (hasAttribute d iframe "data-original-src"))]
              end
       end
  else [].

(** Every marker of the document sits in a wrapper with stable content. *)
Definition markup_in_place (d : store) : Prop :=
  forall p wrapper,
    In p (querySelectorAll d document sel_placeholder) ->
    parentElement d p = Some wrapper ->
    stable_content d wrapper = true.

Definition elx (tag : string) (a : list (string * string)) (txt : string)
    (p : nat) (kids : list nat) : node :=
  mkNode (KElement tag) (list_to_map a) ∅ txt (Some p) kids [].

(** A wrapper (node 3) with its title and marker, holding a second wrapper
    (node 6) whose markup is missing, and a further iframe (node 9). *)
Definition nested_page : store :=
  [ mkNode KDocument ∅ ∅ "" None [1] [];
    el "HTML" [] 0 [2];
    el "BODY" [] 1 [3];
    el "DIV" [] 2 [4; 5; 6; 9];
    elx "H3" [] "Content Blocked" 3 [];
    el "DIV" [("data-cookie-consent-placeholder", "true"); ("id", "a")] 3 [];
    el "DIV" [] 3 [7; 8];
    el "IFRAME" [("src", "about:blank")] 6 [];
    el "DIV" [("data-cookie-consent-placeholder", "true"); ("id", "b")] 6 [];
    el "IFRAME" [("src", "https://example.org/")] 3 [] ].

(** ** Restoration of wrapped iframes *)

(** A recorded URL that restoration acts on: non-empty and matched by none of
    the current keywords. *)
Definition harmful (keywords : list string) (s : option string) : bool :=
  match s with
  | Some u => truthy u && negb (some_includes keywords u)
  | None => false
  end.

(** A blocked iframe that the primary pass restores. *)
Definition restorable (keywords : list string) (d : store) (n : nat) : bool :=
  sel_blocked_iframe d n
  && harmful keywords (getAttribute d n "data-original-src").

(** The layout that blocking leaves behind, as far as restoration depends on
    it.  The store is a tree (parents are above their children, a node listed
    as a child has that parent) under a document node; every restorable
    iframe is in the document, in a wrapper element of its own that has a
    parent element; wrappers are neither restorable iframes nor children of
    other such wrappers; and an unmatched URL is recorded only on those
    iframes and on markers that share a wrapper with one of them. *)
Record restorable_layout (keywords : list string) (d : store) : Prop := {
  lay_document : is_element d document = false;
  lay_height : exists h : nat -> nat,
      forall n p, parent_of d n = Some p -> h n < h p;
  lay_children : forall p c,
      In c (children_of d p) -> parent_of d c = Some p;
  lay_in_document : forall n,
      harmful keywords (getAttribute d n "data-original-src") = true ->
      In n (querySelectorAll d document sel_blocked_iframe);
  lay_wrapped : forall i,
      restorable keywords d i = true ->
      exists wrapper grand,
        parentElement d i = Some wrapper
        /\ parentElement d wrapper = Some grand;
  lay_own_wrapper : forall i j,
      restorable keywords d i = true -> restorable keywords d j = true ->
      parent_of d i = parent_of d j -> i = j;
  lay_wrapper_plain : forall i j,
      restorable keywords d i = true -> restorable keywords d j = true ->
      parent_of d i <> Some j;
  lay_not_nested : forall i j wi,
      restorable keywords d i = true -> restorable keywords d j = true ->
      parent_of d i = Some wi -> parent_of d wi <> parent_of d j;
  lay_markers : forall p,
      sel_placeholder d p = true ->
      harmful keywords (getAttribute d p "data-blocked-src") = true ->
      has_tag d "IFRAME" p = false
      /\ exists i, restorable keywords d i = true
                   /\ parent_of d p = parent_of d i }.

(** The state of the primary pass once the restorable iframes of [done] have
    been handled, relative to the store [d0] it started from. *)
Record restored_so_far (keywords : list string) (d0 : store)
    (done : list nat) (d : store) : Prop := {
  rs_done : forall i, In i done -> restorable keywords d0 i = true;
  rs_kinds : kind <$> d = kind <$> d0;
  rs_attrs_other : forall n, ~ In n done -> attrs_at d n = attrs_at d0 n;
  rs_attrs_done : forall i u, In i done ->
      getAttribute d0 i "data-original-src" = Some u ->
      getAttribute d i "src" = Some u
      /\ getAttribute d i "data-cookie-blocked" = None
      /\ getAttribute d i "data-original-src" = None;
  rs_attrs_kept : forall n a, a <> "src" -> a <> "data-cookie-blocked" ->
      a <> "data-original-src" -> getAttribute d n a = getAttribute d0 n a;
  rs_styles_done : forall i p, In i done ->
      In p (map fst hidden_iframe_styles) -> style_of d i p = "";
  rs_parent_done : forall i w, In i done ->
      parent_of d0 i = Some w -> parent_of d i = parent_of d0 w;
  rs_parent_wrapper : forall i w, In i done ->
      parent_of d0 i = Some w -> parent_of d w = None;
  rs_parent_other : forall n,
      ~ In n done -> (forall i, In i done -> parent_of d0 i <> Some n) ->
      parent_of d n = parent_of d0 n;
  rs_children_from : forall n c, In c (children_of d n) ->
      In c (children_of d0 n)
      \/ (In c done /\ exists w, parent_of d0 c = Some w
                                 /\ parent_of d0 w = Some n);
  rs_wrapper_gone : forall i w n, In i done ->
      parent_of d0 i = Some w -> ~ In w (children_of d n);
  rs_position_done : forall i w g idx, In i done ->
      parent_of d0 i = Some w -> parent_of d0 w = Some g ->
      children_of d0 g !! idx = Some w ->
      children_of d g !! idx = Some i;
  rs_position_other : forall i w g idx,
      restorable keywords d0 i = true -> ~ In i done ->
      parent_of d0 i = Some w -> parent_of d0 w = Some g ->
      children_of d0 g !! idx = Some w ->
      children_of d g !! idx = Some w }.
(** What the primary pass does to the store when it restores iframe [x]
    with recorded URL [u], wrapper [w] and wrapper's parent [g]. *)
Record unwrapped (x : nat) (u : string) (w g : nat) (d d2 : store)
  : Prop := {
  uw_kinds : kind <$> d2 = kind <$> d;
  uw_text : text <$> d2 = text <$> d;
  uw_listeners : listeners <$> d2 = listeners <$> d;
  uw_attrs_other : forall n, n <> x -> attrs_at d2 n = attrs_at d n;
  uw_src : getAttribute d2 x "src" = Some u;
  uw_marker : getAttribute d2 x "data-cookie-blocked" = None;
  uw_record : getAttribute d2 x "data-original-src" = None;
  uw_attrs_kept : forall a, a <> "src" -> a <> "data-cookie-blocked" ->
      a <> "data-original-src" -> getAttribute d2 x a = getAttribute d x a;
  uw_styles_other : forall n p, n <> x -> style_of d2 n p = style_of d n p;
  uw_styles_cleared : forall p,
      In p (map fst hidden_iframe_styles) -> style_of d2 x p = "";
  uw_styles_kept : forall p,
      ~ In p (map fst hidden_iframe_styles) ->
      style_of d2 x p = style_of d x p;
  uw_parent : parent_of d2 x = Some g;
  uw_wrapper : parent_of d2 w = None;
  uw_parent_other : forall n, n <> x -> n <> w ->
      parent_of d2 n = parent_of d n;
  uw_children_grand : children_of d2 g = replace_in w x (children_of d g);
  uw_children_wrapper :
      children_of d2 w = filter (fun c => c <> x) (children_of d w);
  uw_children_other : forall n, n <> g -> n <> w ->
      children_of d2 n = children_of d n }.


(** The primary pass of [unblockPreviouslyBlockedContent] on its own. *)
Definition primary_pass (keywords : list string) (d : store) : store :=
  fold_left (fun acc i => unblock_iframe keywords i acc)
    (querySelectorAll d document sel_blocked_iframe) d.

(** The safety pass on its own. *)
Definition safety_pass (keywords : list string) (d : store) : store :=
  fold_left (fun acc p => unblock_placeholder keywords p acc)
    (querySelectorAll d document sel_placeholder) d.






(** ** Pages that nothing has been blocked in *)

(** [x] is below [r] by a path of at most [k] child steps. *)
Fixpoint reaches (d : store) (k : nat) (r x : nat) : Prop :=
  match k with
  | 0 => False
  | S k' =>
      In x (children_of d r)
      \/ exists n, In n (children_of d r) /\ reaches d k' n x
  end.

(** A well-formed document without traces of blocking: a tree under the
    document node, with parent and child links that agree, and no recorded
    URL or placeholder marker anywhere. *)
Record tidy_page (d : store) : Prop := {
  tp_document : is_element d document = false;
  tp_height : exists h : nat -> nat,
      forall n q, parent_of d n = Some q -> h n < h q;
  tp_parent_range : forall n q, parent_of d n = Some q -> q < length d;
  tp_children : forall q c,
      In c (children_of d q) -> parent_of d c = Some q;
  tp_nodup : forall q, NoDup (children_of d q);
  tp_no_record : forall n, getAttribute d n "data-original-src" = None;
  tp_no_marker : forall n, sel_placeholder d n = false }.

(** Heights for the tree that [createContentPlaceholder] builds around
    iframe [i] in a store of [len] nodes with heights [h]. *)
Definition block_height (h : nat -> nat) (len i : nat) (n : nat) : nat :=
  if Nat.ltb n len then 2 * h n + 4
  else if Nat.eqb n len then 2 * h i + 5
  else if Nat.eqb n (len + 1) then 1
  else 0.

(** * Properties *)

(** ** Loops whose body does nothing *)

Lemma forEach_skip {A} (f : A -> M unit) (l : list A) (w : world) :
  (forall x, In x l -> f x w = Returned w tt) ->
  forEach f l w = Returned w tt.
Proof.
  induction l as [|x rest IH]; intros Hskip; [reflexivity|].
  simpl. unfold bind. rewrite (Hskip x (or_introl eq_refl)).
  apply IH. intros y Hy. apply Hskip. now right.
Qed.

Lemma some_includes_nil (url : string) : some_includes [] url = false.
Proof. reflexivity. Qed.

(** ** createContentPlaceholder: the guard *)

Lemma createContentPlaceholder_orphan (w : world) (iframe : nat) (u : string) :
  parentElement (dom w) iframe = None ->
  createContentPlaceholder iframe u w
  = Thrown (snd (draw w)) "Iframe has no parent element".
Proof.
  intros Hp. unfold createContentPlaceholder, draw.
  cbv beta iota; cbn [dom snd]. rewrite Hp. reflexivity.
Qed.

Lemma createContentPlaceholder_returns (w : world) (iframe : nat) (u : string)
    (p : nat) :
  parentElement (dom w) iframe = Some p ->
  exists w' wrapper, createContentPlaceholder iframe u w = Returned w' wrapper.
Proof.
  intros Hp. unfold createContentPlaceholder, draw.
  cbv beta iota; cbn [dom]. rewrite Hp.
  destruct (build_placeholder _ _ _ _ _) as [wrapper d].
  eexists _, _. reflexivity.
Qed.

(** C6 (as amended): [createContentPlaceholder] throws exactly when the
    iframe's [parentElement] is null, and when it throws the DOM, the enable
    flag and the registered observers are as before the call. *)
Theorem createContentPlaceholder_guard (w : world) (iframe : nat) (u : string) :
  (is_thrown (createContentPlaceholder iframe u w)
   <-> parentElement (dom w) iframe = None)
  /\ (is_thrown (createContentPlaceholder iframe u w) ->
      dom (world_of (createContentPlaceholder iframe u w)) = dom w
      /\ blockingEnabled (world_of (createContentPlaceholder iframe u w))
         = blockingEnabled w
      /\ registry (world_of (createContentPlaceholder iframe u w))
         = registry w).
Proof.
  destruct (parentElement (dom w) iframe) as [p|] eqn:Hp.
  - destruct (createContentPlaceholder_returns w iframe u p Hp)
      as (w' & wr & ->).
    simpl. split; [split; [tauto | discriminate] | tauto].
  - rewrite (createContentPlaceholder_orphan w iframe u Hp).
    simpl. split; [split; auto | auto].
Qed.

Lemma createContentPlaceholder_guard_witness :
  is_thrown (createContentPlaceholder 2 "u" (fresh_world fragment_page))
  /\ dom (world_of (createContentPlaceholder 2 "u" (fresh_world fragment_page)))
     = fragment_page.
Proof.
  split; [vm_compute; exact I|].
  apply (proj2 (createContentPlaceholder_guard
                  (fresh_world fragment_page) 2 "u")).
  vm_compute. exact I.
Defined.

(** C6, as stated, fails: an iframe whose parent node is a document fragment
    has a parent node, and the call throws all the same. *)
Lemma createContentPlaceholder_fragment_child :
  ~ (is_thrown (createContentPlaceholder 2 "u" (fresh_world fragment_page))
     <-> parent_of (dom (fresh_world fragment_page)) 2 = None).
Proof.
  intros [Hthrow _].
  assert (Ht : is_thrown
                 (createContentPlaceholder 2 "u" (fresh_world fragment_page)))
    by (vm_compute; exact I).
  specialize (Hthrow Ht). vm_compute in Hthrow. discriminate.
Qed.

(** ** blockTrackingScripts: the disabled flag and the empty keyword list *)

(** C7: with the enable flag off, [blockTrackingScripts] returns the world it
    was given (DOM and registered observers included) together with an
    observer whose callback does nothing; as the observer is not registered,
    the platform delivers every batch as it would have without the call. *)
Theorem blockTrackingScripts_disabled (kws : list string) (w : world) :
  blockingEnabled w = false ->
  blockTrackingScripts kws w = Returned w ObsNoop
  /\ (forall ms,
        deliver ms (world_of (blockTrackingScripts kws w)) = deliver ms w)
  /\ (forall ms w2, observer_callback ObsNoop ms w2 = Returned w2 tt).
Proof.
  intros Hoff.
  assert (Hrun : blockTrackingScripts kws w = Returned w ObsNoop)
    by (unfold blockTrackingScripts; rewrite Hoff; reflexivity).
  rewrite Hrun. repeat split.
Qed.

Lemma blockTrackingScripts_disabled_witness :
  blockTrackingScripts ["youtube.com"]
    (setBlockingEnabled false (fresh_world sample_page))
  = Returned (setBlockingEnabled false (fresh_world sample_page)) ObsNoop.
Proof.
  apply (blockTrackingScripts_disabled ["youtube.com"]
           (setBlockingEnabled false (fresh_world sample_page))).
  reflexivity.
Defined.

Lemma on_added_node_no_keywords (node : nat) (w : world) :
  on_added_node [] node w = Returned w tt.
Proof.
  assert (Hscript : on_added_script [] node w = Returned w tt).
  { unfold on_added_script.
    destruct (has_tag _ _ _); [|reflexivity].
    destruct (getAttribute _ _ _); [|reflexivity].
    now rewrite some_includes_nil, andb_false_r. }
  unfold on_added_node, bind. rewrite Hscript. unfold on_added_iframe.
  destruct (has_tag _ _ _); [|reflexivity].
  destruct (getAttribute _ _ _); [|reflexivity].
  now rewrite some_includes_nil, andb_false_r.
Qed.

Lemma observer_callback_no_keywords (ms : list mutation) (w : world) :
  observer_callback (ObsBlock []) ms w = Returned w tt.
Proof.
  simpl. apply forEach_skip. intros m _.
  apply forEach_skip. intros n _. apply on_added_node_no_keywords.
Qed.

(** C9: with the enable flag on and no keyword, [blockTrackingScripts]
    leaves the DOM as it was, whether it returns or not: the sweeps do
    nothing and the call goes on to register its observer, which succeeds
    when the document has a root element and otherwise ends the call with
    the [TypeError] of [observe], nothing being registered.  The callback of
    the observer changes nothing, whatever is inserted. *)
Theorem blockTrackingScripts_no_keywords (w : world) :
  blockingEnabled w = true ->
  blockTrackingScripts [] w = (observe (ObsBlock []) >> ret (ObsBlock [])) w
  /\ dom (world_of (blockTrackingScripts [] w)) = dom w
  /\ (documentElement (dom w) <> None ->
      blockTrackingScripts [] w
      = Returned (register (ObsBlock []) w) (ObsBlock []))
  /\ (documentElement (dom w) = None ->
      is_thrown (blockTrackingScripts [] w)
      /\ world_of (blockTrackingScripts [] w) = w)
  /\ (forall ms w2, observer_callback (ObsBlock []) ms w2 = Returned w2 tt).
Proof.
  intros Hon.
  assert (Hrun : blockTrackingScripts [] w
                 = (observe (ObsBlock []) >> ret (ObsBlock [])) w).
  { unfold blockTrackingScripts. rewrite Hon. cbn [negb]. unfold bind.
    rewrite forEach_skip.
    - rewrite forEach_skip; [reflexivity|].
      intros i _. unfold sweep_iframe.
      now rewrite some_includes_nil, andb_false_r.
    - intros s _. unfold sweep_script.
      now rewrite some_includes_nil, andb_false_r. }
  rewrite Hrun. unfold bind, observe, ret.
  split; [reflexivity|].
  destruct (documentElement (dom w)) as [root|].
  - split; [reflexivity|]. split; [reflexivity|]. split; [discriminate|].
    apply observer_callback_no_keywords.
  - split; [reflexivity|]. split; [intros H; now destruct H|].
    split; [intros _; split; [exact I|reflexivity]|].
    apply observer_callback_no_keywords.
Qed.

Lemma blockTrackingScripts_no_keywords_witness :
  dom (world_of (blockTrackingScripts [] (fresh_world sample_page)))
  = sample_page
  /\ blockTrackingScripts [] (fresh_world sample_page)
     = Returned (register (ObsBlock []) (fresh_world sample_page))
         (ObsBlock []).
Proof.
  destruct (blockTrackingScripts_no_keywords (fresh_world sample_page))
    as (_ & Hdom & Hret & _).
  - reflexivity.
  - split; [exact Hdom|]. apply Hret. vm_compute. discriminate.
Defined.

(** ** Field-wise views of the store

    Each primitive touches one field of one node (or appends nodes).  The
    lemmas below say what a primitive does to the list of the nodes' kinds,
    attributes, parents and children. *)

Section Views.
Context {B : Type} (v : node -> B).

Lemma view_alter_same (f : node -> node) (n : nat) (d : store) :
    (forall x, v (f x) = v x) -> v <$> alter f n d = v <$> d.
Proof.
    intros Hf. rewrite (list_fmap_alter v f id).
    - now apply list_alter_id.
    - apply Forall_forall. intros x _. apply Hf.
Qed.

Lemma view_alter (f : node -> node) (g : B -> B) (n : nat) (d : store) :
    (forall x, v (f x) = g (v x)) -> v <$> alter f n d = alter g n (v <$> d).
Proof.
    intros Hf. apply list_fmap_alter, Forall_forall. intros x _. apply Hf.
Qed.

Lemma view_set_style_prop (n : nat) (p s : string) (d : store) :
    (forall st x, v (set_style st x) = v x) ->
    v <$> set_style_prop n p s d = v <$> d.
Proof. intros Hv. apply view_alter_same. intros x. apply Hv. Qed.

Lemma view_set_styles (n : nat) (props : list (string * string)) (d : store) :
    (forall st x, v (set_style st x) = v x) ->
    v <$> set_styles n props d = v <$> d.
Proof.
    intros Hv. unfold set_styles. revert d.
    induction props as [|pv rest IH]; intros d; [reflexivity|].
    simpl. rewrite IH. now apply view_set_style_prop.
Qed.

Lemma view_setAttribute (n : nat) (a s : string) (d : store) :
    (forall at_ x, v (set_attrs at_ x) = v x) ->
    v <$> setAttribute n a s d = v <$> d.
Proof. intros Hv. apply view_alter_same. intros x. apply Hv. Qed.

Lemma view_removeAttribute (n : nat) (a : string) (d : store) :
    (forall at_ x, v (set_attrs at_ x) = v x) ->
    v <$> removeAttribute n a d = v <$> d.
Proof. intros Hv. apply view_alter_same. intros x. apply Hv. Qed.

Lemma view_addSettingsButtonListeners (id : string) (d : store) :
    (forall l x, v (set_listeners l x) = v x) ->
    v <$> addSettingsButtonListeners id d = v <$> d.
Proof.
    intros Hv. unfold addSettingsButtonListeners.
    destruct (getElementById d _); [|reflexivity].
    apply view_alter_same. intros x. apply Hv.
Qed.

  (** Moving nodes changes parents and children only. *)
Hypothesis v_parent : forall p x, v (set_parent p x) = v x.
Hypothesis v_children : forall c x, v (set_children c x) = v x.

Lemma view_detach (n : nat) (d : store) : v <$> detach n d = v <$> d.
Proof.
    unfold detach. destruct (parent_of d n); [|reflexivity].
    rewrite !view_alter_same; auto.
Qed.

Lemma view_insertBefore (p new ref : nat) (d : store) :
    v <$> insertBefore p new ref d = v <$> d.
Proof.
    unfold insertBefore. rewrite !view_alter_same; auto. apply view_detach.
Qed.

Lemma view_appendChild (p new : nat) (d : store) :
    v <$> appendChild p new d = v <$> d.
Proof.
    unfold appendChild. rewrite !view_alter_same; auto. apply view_detach.
Qed.

Lemma view_replaceChild (p new old : nat) (d d' : store) :
    replaceChild p new old d = Some d' -> v <$> d' = v <$> d.
Proof.
    unfold replaceChild. destruct (inclusive_ancestor _ _ _); [discriminate|].
    destruct (negb _); [discriminate|]. intros [= <-].
    rewrite !view_alter_same; auto. apply view_detach.
Qed.

Lemma view_try_replaceChild (p new old : nat) (d : store) :
    v <$> try_replaceChild p new old d = v <$> d.
Proof.
    unfold try_replaceChild.
    destruct (replaceChild p new old d) as [d'|] eqn:Hr; [|reflexivity].
    simpl. eapply view_replaceChild, Hr.
Qed.

Lemma view_orphan_all (cs : list nat) (d : store) :
    v <$> fold_left (fun acc c => alter (set_parent None) c acc) cs d = v <$> d.
Proof.
    revert d. induction cs as [|c rest IH]; intros d; [reflexivity|].
    simpl. rewrite IH. now apply view_alter_same.
Qed.

Lemma view_set_innerHTML (el : nat) (id : string) (d : store) :
    v <$> set_innerHTML el id d
    = (v <$> d) ++ (v <$> createPlaceholderContent id el (length d)).
Proof.
    unfold set_innerHTML. rewrite fmap_app. f_equal.
    - rewrite view_alter_same by auto. apply view_orphan_all.
    - do 2 f_equal. clear. generalize (children_of d el). intros cs.
      revert d. induction cs as [|c rest IH]; intros d; [reflexivity|].
      simpl. rewrite IH. apply length_alter.
Qed.
End Views.

(** ** I2 is an invariant *)

Ltac view_side := intros; reflexivity.

Lemma recorded_by_views (d d' : store) :
  kind <$> d' = kind <$> d -> attrs <$> d' = attrs <$> d ->
  recorded_invariant d -> recorded_invariant d'.
Proof.
  unfold recorded_invariant. rewrite !Forall_lookup.
  intros Hk Ha Hd n x' Hx'.
  assert (Hkn : (kind <$> d) !! n = Some (kind x'))
    by (rewrite <- Hk, list_lookup_fmap, Hx'; reflexivity).
  assert (Han : (attrs <$> d) !! n = Some (attrs x'))
    by (rewrite <- Ha, list_lookup_fmap, Hx'; reflexivity).
  rewrite list_lookup_fmap in Hkn. rewrite list_lookup_fmap in Han.
  destruct (d !! n) as [x|] eqn:Hx; [|discriminate].
  simpl in Hkn, Han. injection Hkn as Hkn. injection Han as Han.
  specialize (Hd n x Hx). unfold well_recorded in *.
  rewrite <- Hkn, <- Han. exact Hd.
Qed.

Lemma recorded_set_styles (n : nat) (props : list (string * string))
    (d : store) :
  recorded_invariant d -> recorded_invariant (set_styles n props d).
Proof.
  apply recorded_by_views; apply view_set_styles; view_side.
Qed.

Lemma recorded_set_style_prop (n : nat) (p s : string) (d : store) :
  recorded_invariant d -> recorded_invariant (set_style_prop n p s d).
Proof.
  apply recorded_by_views; apply view_set_style_prop; view_side.
Qed.

Lemma recorded_detach (n : nat) (d : store) :
  recorded_invariant d -> recorded_invariant (detach n d).
Proof. apply recorded_by_views; apply view_detach; view_side. Qed.

Lemma recorded_insertBefore (p new ref : nat) (d : store) :
  recorded_invariant d -> recorded_invariant (insertBefore p new ref d).
Proof. apply recorded_by_views; apply view_insertBefore; view_side. Qed.

Lemma recorded_appendChild (p new : nat) (d : store) :
  recorded_invariant d -> recorded_invariant (appendChild p new d).
Proof. apply recorded_by_views; apply view_appendChild; view_side. Qed.

Lemma recorded_try_replaceChild (p new old : nat) (d : store) :
  recorded_invariant d -> recorded_invariant (try_replaceChild p new old d).
Proof. apply recorded_by_views; apply view_try_replaceChild; view_side. Qed.

Lemma recorded_addSettingsButtonListeners (id : string) (d : store) :
  recorded_invariant d -> recorded_invariant (addSettingsButtonListeners id d).
Proof.
  apply recorded_by_views; apply view_addSettingsButtonListeners; view_side.
Qed.

Lemma recorded_alter (f : node -> node) (n : nat) (d : store) :
  (forall x, well_recorded x -> well_recorded (f x)) ->
  recorded_invariant d -> recorded_invariant (alter f n d).
Proof.
  unfold recorded_invariant. intros Hf Hd.
  apply Forall_alter; [exact Hd|].
  intros x _. apply Hf.
Qed.

(** Attributes other than the marker and the record are irrelevant. *)
Lemma recorded_setAttribute (n : nat) (a s : string) (d : store) :
  a <> "data-cookie-blocked" -> a <> "data-original-src" ->
  recorded_invariant d -> recorded_invariant (setAttribute n a s d).
Proof.
  intros Ha1 Ha2. apply recorded_alter. intros x Hx.
  unfold well_recorded in *. simpl.
  rewrite !lookup_insert_ne by congruence. exact Hx.
Qed.

Lemma recorded_mark (n : nat) (u : string) (d : store) :
  u <> "" ->
  recorded_invariant d ->
  recorded_invariant
    (setAttribute n "src" "about:blank"
       (setAttribute n "data-original-src" u
          (setAttribute n "data-cookie-blocked" "true" d))).
Proof.
  intros Hu Hd. unfold setAttribute.
  rewrite !list_alter_alter_eq.
  apply recorded_alter; [|exact Hd].
  intros x _ _ _. exists u. split; [|exact Hu]. simpl.
  rewrite lookup_insert_ne by discriminate. apply lookup_insert_eq.
Qed.

Lemma recorded_restore_iframe (n : nat) (u : string) (d : store) :
  recorded_invariant d -> recorded_invariant (restore_iframe n u d).
Proof.
  intros Hd. unfold restore_iframe. apply recorded_set_styles.
  unfold removeAttribute, setAttribute.
  rewrite !list_alter_alter_eq.
  apply recorded_alter; [|exact Hd].
  intros x _ _ Hmarked. simpl in Hmarked.
  rewrite lookup_delete_ne in Hmarked by discriminate.
  rewrite lookup_delete_eq in Hmarked. discriminate.
Qed.

Lemma recorded_app (d extra : store) :
  recorded_invariant d ->
  Forall (fun x => kind x <> KElement "IFRAME") extra ->
  recorded_invariant (d ++ extra).
Proof.
  intros Hd He. apply Forall_app_2; [exact Hd|].
  eapply Forall_impl; [exact He|]. intros x Hx Hk. contradiction.
Qed.

Lemma recorded_createElement_div (d : store) :
  recorded_invariant d -> recorded_invariant (snd (createElement "DIV" d)).
Proof.
  intros Hd. simpl. apply recorded_app; [exact Hd|].
  repeat constructor. discriminate.
Qed.

Lemma recorded_set_innerHTML (el : nat) (id : string) (d : store) :
  recorded_invariant d -> recorded_invariant (set_innerHTML el id d).
Proof.
  intros Hd. unfold set_innerHTML. apply recorded_app.
  - eapply recorded_by_views; [| |exact Hd].
    + rewrite view_alter_same by view_side. apply view_orphan_all; view_side.
    + rewrite view_alter_same by view_side. apply view_orphan_all; view_side.
  - repeat constructor; discriminate.
Qed.

Lemma recorded_build_placeholder (iframe parentEl : nat) (u id : string)
    (d : store) :
  u <> "" ->
  recorded_invariant d ->
  recorded_invariant (snd (build_placeholder iframe parentEl u id d)).
Proof.
  intros Hu Hd. unfold build_placeholder.
  cbv beta iota zeta delta [createElement]. cbn [snd].
  apply recorded_addSettingsButtonListeners.
  do 2 apply recorded_appendChild.
  apply recorded_set_styles, recorded_insertBefore, recorded_set_style_prop.
  do 4 (apply recorded_setAttribute; [discriminate|discriminate|]).
  apply recorded_app; [|repeat constructor; discriminate].
  apply recorded_set_innerHTML, recorded_set_styles.
  apply recorded_app; [|repeat constructor; discriminate].
  now apply recorded_mark.
Qed.

Lemma truthy_nonempty (s : string) : truthy s = true -> s <> "".
Proof.
  unfold truthy. intros H ->. discriminate.
Qed.

Lemma recorded_createContentPlaceholder (iframe : nat) (u : string)
    (w : world) :
  u <> "" ->
  recorded_invariant (dom w) ->
  recorded_invariant (dom (world_of (createContentPlaceholder iframe u w))).
Proof.
  intros Hu Hw. unfold createContentPlaceholder, draw.
  cbv beta iota; cbn [dom].
  destruct (parentElement (dom w) iframe) as [p|]; [|exact Hw].
  pose proof (recorded_build_placeholder iframe p u
                ("cookie-blocked-content-" ++ rand w (draws w))%string
                (dom w) Hu Hw) as Hb.
  destruct (build_placeholder _ _ _ _ _) as [wrapper d]. exact Hb.
Qed.

Section WorldInvariant.
Variable P : world -> Prop.

Lemma bind_keeps {A B} (m : M A) (k : A -> M B) (w : world) :
    P (world_of (m w)) ->
    (forall a w', P w' -> P (world_of (k a w'))) ->
    P (world_of (bind m k w)).
Proof.
    intros Hm Hk. unfold bind. destruct (m w) as [w' a|w' msg]; simpl in *.
    - now apply Hk.
    - exact Hm.
Qed.

Lemma forEach_keeps {A} (f : A -> M unit) (l : list A) (w : world) :
    (forall x w', P w' -> P (world_of (f x w'))) ->
    P w -> P (world_of (forEach f l w)).
Proof.
    intros Hf. revert w. induction l as [|x rest IH]; intros w Hw; [exact Hw|].
    simpl. apply bind_keeps; [now apply Hf|]. intros _ w' Hw'. now apply IH.
Qed.
End WorldInvariant.

Lemma recorded_sweep_script (kws : list string) (s : nat) (w : world) :
  recorded_world w -> recorded_world (world_of (sweep_script kws s w)).
Proof.
  intros Hw. unfold sweep_script.
  destruct (_ && _); [|exact Hw]. now apply recorded_detach.
Qed.

Lemma recorded_sweep_iframe (kws : list string) (i : nat) (w : world) :
  recorded_world w -> recorded_world (world_of (sweep_iframe kws i w)).
Proof.
  intros Hw. unfold sweep_iframe.
  destruct (blockingEnabled w); [|exact Hw]. cbn [andb].
  destruct (truthy (live_src w i)) eqn:Ht; [|exact Hw]. cbn [andb].
  destruct (_ && _); [|exact Hw].
  apply bind_keeps; [|intros _ w' Hw'; exact Hw'].
  apply recorded_createContentPlaceholder; [|exact Hw].
  now apply truthy_nonempty.
Qed.

Lemma dom_observe (o : observer) (w : world) :
  dom (world_of (observe o w)) = dom w.
Proof. unfold observe. now destruct (documentElement (dom w)). Qed.

Lemma recorded_on_added_node (kws : list string) (n : nat) (w : world) :
  recorded_world w -> recorded_world (world_of (on_added_node kws n w)).
Proof.
  intros Hw. unfold on_added_node. apply bind_keeps.
  - unfold on_added_script. destruct (has_tag _ _ _); [|exact Hw].
    destruct (getAttribute _ _ _); [|exact Hw].
    destruct (_ && _); [|exact Hw]. now apply recorded_detach.
  - clear w Hw. intros _ w Hw. unfold on_added_iframe.
    destruct (has_tag _ _ _); [|exact Hw].
    destruct (getAttribute _ _ _) as [src|]; [|exact Hw].
    destruct (blockingEnabled w); [|exact Hw]. cbn [andb].
    destruct (truthy src) eqn:Ht; [|exact Hw]. cbn [andb].
    destruct (_ && _); [|exact Hw].
    apply bind_keeps; [|intros _ w' Hw'; exact Hw'].
    apply recorded_createContentPlaceholder; [|exact Hw].
    now apply truthy_nonempty.
Qed.

Lemma recorded_blockTrackingScripts (kws : list string) (w : world) :
  recorded_world w -> recorded_world (world_of (blockTrackingScripts kws w)).
Proof.
  intros Hw. unfold blockTrackingScripts.
  destruct (negb (blockingEnabled w)); [exact Hw|].
  apply bind_keeps.
  - apply forEach_keeps; [|exact Hw]. intros. now apply recorded_sweep_script.
  - intros _ w1 Hw1. apply bind_keeps.
    + apply forEach_keeps; [|exact Hw1].
      intros. now apply recorded_sweep_iframe.
    + intros _ w2 Hw2. apply bind_keeps.
      * unfold recorded_world. now rewrite dom_observe.
      * intros _ w3 Hw3. exact Hw3.
Qed.

Lemma recorded_observer_callback (o : observer) (ms : list mutation)
    (w : world) :
  recorded_world w -> recorded_world (world_of (observer_callback o ms w)).
Proof.
  intros Hw. destruct o as [|kws]; [exact Hw|]. simpl.
  apply forEach_keeps; [|exact Hw]. intros m w' Hw'.
  apply forEach_keeps; [|exact Hw']. intros. now apply recorded_on_added_node.
Qed.

Lemma fold_left_keeps {A S} (P : S -> Prop) (f : S -> A -> S) (l : list A)
    (s : S) :
  (forall x s', P s' -> P (f s' x)) -> P s -> P (fold_left f l s).
Proof.
  intros Hf. revert s. induction l as [|x rest IH]; intros s Hs; [exact Hs|].
  simpl. apply IH, Hf, Hs.
Qed.

Lemma recorded_neutralise_iframe (r : string -> string) (i : nat)
    (d : store) :
  recorded_invariant d -> recorded_invariant (neutralise_iframe r i d).
Proof.
  intros Hd. unfold neutralise_iframe, positionIframeAbsolutely.
  destruct (_ && _).
  - apply recorded_setAttribute; [discriminate|discriminate|].
    now apply recorded_set_styles.
  - now apply recorded_set_styles.
Qed.

Lemma recorded_ensure_placeholder (p : nat) (w : world) :
  recorded_world w -> recorded_world (ensure_placeholder p w).
Proof.
  intros Hw. unfold ensure_placeholder.
  destruct (is_element (dom w) p); [|exact Hw].
  assert (H1 : recorded_world (over_dom (set_styles p visible_styles) w))
    by now apply recorded_set_styles.
  revert H1. generalize (over_dom (set_styles p visible_styles) w).
  clear w Hw. intros w Hw.
  destruct (parentElement (dom w) p) as [wrapper|]; [|exact Hw].
  assert (H1 : recorded_world
                 (over_dom (applyWrapperStyles wrapper "100%" "315px") w))
    by now apply recorded_set_styles.
  revert H1. generalize (over_dom (applyWrapperStyles wrapper "100%" "315px") w).
  clear w Hw. intros w Hw.
  match goal with
  | |- recorded_world (match querySelector (dom ?w') _ _ with _ => _ end) =>
      assert (H1 : recorded_world w'); [|revert H1; generalize w']
  end.
  - destruct (negb _); [|exact Hw].
    match goal with
    | |- recorded_world (let (_, _) := ?pr in _) =>
        assert (H2 : recorded_world (snd pr)); [|destruct pr as [id w2]]
    end.
    { destruct (truthy _); [exact Hw|]. exact Hw. }
    simpl in H2. unfold recorded_world. cbn [dom with_dom].
    apply recorded_addSettingsButtonListeners.
    assert (H3 : recorded_invariant
                   (appendChild wrapper p (set_innerHTML wrapper id (dom w2))))
      by now apply recorded_appendChild, recorded_set_innerHTML.
    revert H3. generalize (appendChild wrapper p
                             (set_innerHTML wrapper id (dom w2))).
    intros d Hd. destruct (querySelector d wrapper sel_iframe); [|exact Hd].
    now apply recorded_appendChild, recorded_neutralise_iframe.
  - clear w Hw. intros w Hw.
    destruct (querySelector _ _ _); [|exact Hw].
    now apply recorded_neutralise_iframe.
Qed.

Lemma recorded_ensurePlaceholdersVisible (w : world) :
  recorded_world w -> recorded_world (ensurePlaceholdersVisible w).
Proof.
  intros Hw. unfold ensurePlaceholdersVisible.
  destruct (Nat.ltb _ _); [|exact Hw].
  apply fold_left_keeps; [|exact Hw].
  intros. now apply recorded_ensure_placeholder.
Qed.

Lemma recorded_unblock_iframe (kws : list string) (i : nat) (d : store) :
  recorded_invariant d -> recorded_invariant (unblock_iframe kws i d).
Proof.
  intros Hd. unfold unblock_iframe.
  destruct (getAttribute d i _) as [u|]; [|exact Hd].
  destruct (negb _); [exact Hd|].
  destruct (some_includes _ _); [exact Hd|].
  pose proof (recorded_restore_iframe i u d Hd) as Hr.
  destruct (parentElement _ i) as [wr|]; [|exact Hr].
  destruct (parentElement _ wr) as [g|]; [|exact Hr].
  now apply recorded_try_replaceChild.
Qed.

Lemma recorded_unblock_placeholder (kws : list string) (p : nat) (d : store) :
  recorded_invariant d -> recorded_invariant (unblock_placeholder kws p d).
Proof.
  intros Hd. unfold unblock_placeholder.
  destruct (parentElement d p) as [wr|]; [|exact Hd].
  match goal with
  | |- recorded_invariant (match ?o with _ => _ end) => destruct o as [u|]
  end; [|exact Hd].
  destruct (some_includes _ _); [exact Hd|].
  destruct (querySelector d wr sel_iframe) as [i|].
  - pose proof (recorded_restore_iframe i u d Hd) as Hr.
    destruct (parentElement _ wr) as [g|]; [|exact Hr].
    now apply recorded_try_replaceChild.
  - now apply recorded_detach.
Qed.

Lemma recorded_unblock (kws : list string) (w : world) :
  recorded_world w -> recorded_world (unblockPreviouslyBlockedContent kws w).
Proof.
  intros Hw. unfold recorded_world, unblockPreviouslyBlockedContent.
  cbn [dom over_dom with_dom]. unfold unblock_store.
  apply fold_left_keeps.
  - intros. now apply recorded_unblock_placeholder.
  - apply fold_left_keeps; [|exact Hw].
    intros. now apply recorded_unblock_iframe.
Qed.

(** C8: [blockTrackingScripts], the observer's callback,
    [ensurePlaceholdersVisible] and [unblockPreviouslyBlockedContent] each
    keep I2, also when the first two end by an exception. *)
Theorem recorded_invariant_preserved (kws : list string) (o : observer)
    (ms : list mutation) (w : world) :
  recorded_invariant (dom w) ->
  recorded_invariant (dom (world_of (blockTrackingScripts kws w)))
  /\ recorded_invariant (dom (world_of (observer_callback o ms w)))
  /\ recorded_invariant (dom (ensurePlaceholdersVisible w))
  /\ recorded_invariant (dom (unblockPreviouslyBlockedContent kws w)).
Proof.
  intros Hw. repeat split.
  - now apply recorded_blockTrackingScripts.
  - now apply recorded_observer_callback.
  - now apply recorded_ensurePlaceholdersVisible.
  - now apply recorded_unblock.
Qed.

(** ** What the primitives do to attributes and parents *)

Lemma attrs_setAttribute (n : nat) (a s : string) (d : store) :
  attrs <$> setAttribute n a s d = alter (insert a s) n (attrs <$> d).
Proof. apply view_alter. reflexivity. Qed.

Lemma attrs_removeAttribute (n : nat) (a : string) (d : store) :
  attrs <$> removeAttribute n a d = alter (delete a) n (attrs <$> d).
Proof. apply view_alter. reflexivity. Qed.

Lemma parents_set_parent (n : nat) (p : option nat) (d : store) :
  parent <$> alter (set_parent p) n d = <[n := p]> (parent <$> d).
Proof. rewrite list_insert_alter. apply view_alter. reflexivity. Qed.

Lemma parent_of_lookup (d : store) (n : nat) :
  parent_of d n = default None ((parent <$> d) !! n).
Proof.
  unfold parent_of. rewrite list_lookup_fmap. now destruct (d !! n).
Qed.

Lemma parents_detach (n : nat) (d : store) :
  parent <$> detach n d = <[n := None]> (parent <$> d).
Proof.
  unfold detach. destruct (parent_of d n) as [p|] eqn:Hp.
  - rewrite parents_set_parent. f_equal. apply view_alter_same. reflexivity.
  - symmetry. apply list_insert_id'. intros Hn.
    rewrite parent_of_lookup in Hp.
    destruct ((parent <$> d) !! n) as [q|] eqn:Hq.
    + simpl in Hp. now subst q.
    + apply lookup_ge_None in Hq. lia.
Qed.

Lemma parents_insertBefore (p new ref : nat) (d : store) :
  parent <$> insertBefore p new ref d = <[new := Some p]> (parent <$> d).
Proof.
  unfold insertBefore. rewrite parents_set_parent.
  rewrite view_alter_same by reflexivity.
  rewrite parents_detach. apply list_insert_insert_eq.
Qed.

Lemma parents_appendChild (p new : nat) (d : store) :
  parent <$> appendChild p new d = <[new := Some p]> (parent <$> d).
Proof.
  unfold appendChild. rewrite parents_set_parent.
  rewrite view_alter_same by reflexivity.
  rewrite parents_detach. apply list_insert_insert_eq.
Qed.

Lemma parents_replaceChild (p new old : nat) (d d' : store) :
  replaceChild p new old d = Some d' ->
  parent <$> d'
  = <[new := Some p]> (<[old := None]> (<[new := None]> (parent <$> d))).
Proof.
  unfold replaceChild. destruct (inclusive_ancestor _ _ _); [discriminate|].
  destruct (negb _); [discriminate|]. intros [= <-].
  rewrite !parents_set_parent. do 2 f_equal.
  rewrite view_alter_same by reflexivity. apply parents_detach.
Qed.

Lemma parents_orphan_all (cs : list nat) (d : store) :
  parent <$> fold_left (fun acc c => alter (set_parent None) c acc) cs d
  = fold_left (fun acc c => <[c := None]> acc) cs (parent <$> d).
Proof.
  revert d. induction cs as [|c rest IH]; intros d; [reflexivity|].
  simpl. rewrite IH. f_equal. apply parents_set_parent.
Qed.

Lemma children_of_lookup (d : store) (n : nat) :
  children_of d n = default [] ((children <$> d) !! n).
Proof.
  unfold children_of. rewrite list_lookup_fmap. now destruct (d !! n).
Qed.

Lemma is_element_lookup (d : store) (n : nat) :
  is_element d n
  = match (kind <$> d) !! n with Some (KElement _) => true | _ => false end.
Proof.
  unfold is_element. rewrite list_lookup_fmap. now destruct (d !! n).
Qed.

Lemma has_tag_lookup (d : store) (t : string) (n : nat) :
  has_tag d t n
  = match (kind <$> d) !! n with
    | Some (KElement t') => String.eqb t' t
    | _ => false
    end.
Proof.
  unfold has_tag. rewrite list_lookup_fmap. now destruct (d !! n).
Qed.

Lemma getAttribute_lookup (d : store) (n : nat) (a : string) :
  getAttribute d n a = ((attrs <$> d) !! n) ≫= (fun m => m !! a).
Proof.
  unfold getAttribute. rewrite list_lookup_fmap. now destruct (d !! n).
Qed.

Lemma has_tag_bound (d : store) (t : string) (n : nat) :
  has_tag d t n = true -> n < length d.
Proof.
  unfold has_tag. destruct (d !! n) eqn:Hn; [|discriminate].
  intros _. eapply lookup_lt_Some, Hn.
Qed.

Lemma is_element_bound (d : store) (n : nat) :
  is_element d n = true -> n < length d.
Proof.
  unfold is_element. destruct (d !! n) eqn:Hn; [|discriminate].
  intros _. eapply lookup_lt_Some, Hn.
Qed.

(** ** Sizes: only [createElement] and [innerHTML] allocate *)

Lemma length_by_kinds (d d' : store) :
  kind <$> d' = kind <$> d -> length d' = length d.
Proof.
  intros H. rewrite <- (length_fmap kind d'), H. apply length_fmap.
Qed.

Lemma length_setAttribute (n : nat) (a s : string) (d : store) :
  length (setAttribute n a s d) = length d.
Proof. apply length_alter. Qed.

Lemma length_removeAttribute (n : nat) (a : string) (d : store) :
  length (removeAttribute n a d) = length d.
Proof. apply length_alter. Qed.

Lemma length_set_style_prop (n : nat) (p s : string) (d : store) :
  length (set_style_prop n p s d) = length d.
Proof. apply length_alter. Qed.

Lemma length_set_styles (n : nat) (props : list (string * string))
    (d : store) :
  length (set_styles n props d) = length d.
Proof. apply length_by_kinds, view_set_styles. view_side. Qed.

Lemma length_detach (n : nat) (d : store) : length (detach n d) = length d.
Proof. apply length_by_kinds, view_detach; view_side. Qed.

Lemma length_insertBefore (p new ref : nat) (d : store) :
  length (insertBefore p new ref d) = length d.
Proof. apply length_by_kinds, view_insertBefore; view_side. Qed.

Lemma length_appendChild (p new : nat) (d : store) :
  length (appendChild p new d) = length d.
Proof. apply length_by_kinds, view_appendChild; view_side. Qed.

Lemma length_try_replaceChild (p new old : nat) (d : store) :
  length (try_replaceChild p new old d) = length d.
Proof. apply length_by_kinds, view_try_replaceChild; view_side. Qed.

Lemma length_addSettingsButtonListeners (id : string) (d : store) :
  length (addSettingsButtonListeners id d) = length d.
Proof.
  apply length_by_kinds, view_addSettingsButtonListeners. view_side.
Qed.

Lemma length_set_innerHTML (el : nat) (id : string) (d : store) :
  length (set_innerHTML el id d) = length d + 6.
Proof.
  rewrite <- (length_fmap kind), view_set_innerHTML by view_side.
  rewrite length_app, !length_fmap. reflexivity.
Qed.

Lemma length_restore_iframe (i : nat) (u : string) (d : store) :
  length (restore_iframe i u d) = length d.
Proof.
  unfold restore_iframe.
  now rewrite length_set_styles, !length_removeAttribute, length_setAttribute.
Qed.

Create Rewrite HintDb store_len.
Hint Rewrite length_setAttribute length_removeAttribute length_set_style_prop
  length_set_styles length_detach length_insertBefore length_appendChild
  length_try_replaceChild length_addSettingsButtonListeners
  length_set_innerHTML length_restore_iframe @length_app : store_len.
Lemma parents_set_innerHTML (el : nat) (id : string) (d : store) :
  parent <$> set_innerHTML el id d
  = fold_left (fun acc c => <[c := None]> acc) (children_of d el)
      (parent <$> d)
    ++ (parent <$> createPlaceholderContent id el (length d)).
Proof.
  unfold set_innerHTML. rewrite fmap_app. f_equal.
  - rewrite view_alter_same by reflexivity. apply parents_orphan_all.
  - do 2 f_equal. apply length_by_kinds. apply view_orphan_all; view_side.
Qed.

Ltac push_views :=
  repeat first
    [ rewrite view_addSettingsButtonListeners by view_side
    | rewrite view_appendChild by view_side
    | rewrite view_insertBefore by view_side
    | rewrite view_set_styles by view_side
    | rewrite view_set_style_prop by view_side
    | rewrite view_setAttribute by view_side
    | rewrite view_set_innerHTML by view_side
    | rewrite attrs_setAttribute
    | rewrite parents_appendChild
    | rewrite parents_insertBefore
    | rewrite fmap_app ].

Ltac open_build_placeholder :=
  unfold build_placeholder;
  cbv beta iota zeta delta [createElement]; cbn [snd fst];
  unfold positionIframeAbsolutely, applyWrapperStyles.

Lemma build_placeholder_kinds (iframe parentEl : nat) (u id : string)
    (d : store) :
  kind <$> snd (build_placeholder iframe parentEl u id d)
  = (kind <$> d)
    ++ [ KElement "DIV"; KElement "DIV"; KElement "DIV"; KElement "H3";
         KElement "P"; KElement "P"; KElement "DIV"; KElement "DIV" ].
Proof.
  open_build_placeholder. push_views. rewrite <- !app_assoc. reflexivity.
Qed.

Lemma build_placeholder_attrs (iframe parentEl : nat) (u id : string)
    (d : store) (k : nat) :
  k < length d ->
  (attrs <$> snd (build_placeholder iframe parentEl u id d)) !! k
  = alter (insert "src" "about:blank") iframe
      (alter (insert "data-original-src" u) iframe
         (alter (insert "data-cookie-blocked" "true") iframe (attrs <$> d)))
    !! k.
Proof.
  intros Hk. open_build_placeholder.
  push_views. autorewrite with store_len. cbn [length].
  rewrite !list_lookup_alter_ne by lia.
  rewrite !lookup_app_l; [reflexivity|..];
    rewrite ?length_app, !length_alter, length_fmap; lia.
Qed.

Lemma build_placeholder_parents (iframe parentEl : nat) (u id : string)
    (d : store) (k : nat) :
  k < length d -> k <> iframe ->
  (parent <$> snd (build_placeholder iframe parentEl u id d)) !! k
  = (parent <$> d) !! k.
Proof.
  intros Hk Hne. open_build_placeholder.
  assert (Hfresh : forall props (d0 : store),
             children_of (set_styles (length d0) props
                            (d0 ++ [new_element "DIV"])) (length d0) = []).
  { intros props d0. rewrite children_of_lookup.
    rewrite view_set_styles by view_side. rewrite fmap_app.
    rewrite lookup_app_r by (rewrite length_fmap; lia).
    rewrite length_fmap, Nat.sub_diag. reflexivity. }
  remember (setAttribute iframe "src" "about:blank"
              (setAttribute iframe "data-original-src" u
                 (setAttribute iframe "data-cookie-blocked" "true" d)))
    as d3 eqn:Hd3.
  assert (Hlen : length d3 = length d)
    by (subst d3; now rewrite !length_setAttribute).
  assert (Hpar : parent <$> d3 = parent <$> d)
    by (subst d3; now rewrite !view_setAttribute by view_side).
  clear Hd3. push_views. autorewrite with store_len. cbn [length].
  rewrite !list_lookup_insert_ne by lia.
  rewrite lookup_app_l
    by (rewrite length_fmap; autorewrite with store_len; cbn [length]; lia).
  rewrite parents_set_innerHTML, Hfresh. cbn [fold_left].
  rewrite lookup_app_l
    by (rewrite length_fmap; autorewrite with store_len; cbn [length]; lia).
  push_views.
  rewrite lookup_app_l by (rewrite length_fmap; lia).
  now rewrite Hpar.
Qed.

(** ** Runs of blocking steps *)

Lemma has_tag_at (d : store) (t : string) (k : nat) :
  has_tag d t k
  = match kind_at d k with
    | Some (KElement t') => String.eqb t' t
    | _ => false
    end.
Proof. apply has_tag_lookup. Qed.

Lemma getAttribute_at (d : store) (k : nat) (a : string) :
  getAttribute d k a = attrs_at d k ≫= (fun m => m !! a).
Proof. apply getAttribute_lookup. Qed.

Lemma has_tag_same (d d' : store) (t : string) (k : nat) :
  kind_at d' k = kind_at d k -> has_tag d' t k = has_tag d t k.
Proof. intros H. now rewrite !has_tag_at, H. Qed.

Lemma getAttribute_same (d d' : store) (k : nat) (a : string) :
  attrs_at d' k = attrs_at d k -> getAttribute d' k a = getAttribute d k a.
Proof. intros H. now rewrite !getAttribute_at, H. Qed.

Lemma src_of_same (d d' : store) (k : nat) :
  attrs_at d' k = attrs_at d k -> src_of d' k = src_of d k.
Proof. intros H. unfold src_of. now rewrite (getAttribute_same d d'). Qed.

Lemma matches_same (kws : list string) (d d' : store) (k : nat) :
  attrs_at d' k = attrs_at d k -> matches kws d' k = matches kws d k.
Proof. intros H. unfold matches. now rewrite (src_of_same d d'). Qed.

Lemma blocked_as_same (d d' : store) (k : nat) (u : string) :
  attrs_at d' k = attrs_at d k -> blocked_as d k u -> blocked_as d' k u.
Proof.
  intros H. unfold blocked_as. now rewrite !(getAttribute_same d d') by easy.
Qed.

Lemma blocked_not_matching (kws : list string) (d : store) (k : nat)
    (u : string) :
  blocked_as d k u -> matches kws d k = false.
Proof.
  intros (Hsrc & _ & _). unfold matches, src_of. rewrite Hsrc. simpl.
  reflexivity.
Qed.

Lemma src_property_same (r : string -> string) (d d' : store) (k : nat) :
  attrs_at d' k = attrs_at d k -> src_property r d' k = src_property r d k.
Proof.
  intros H. unfold src_property. now rewrite (getAttribute_same d d').
Qed.

Lemma live_src_same (w w' : world) (k : nat) :
  resolve w' = resolve w -> attrs_at (dom w') k = attrs_at (dom w) k ->
  live_src w' k = live_src w k.
Proof.
  intros Hr Ha. unfold live_src. rewrite Hr. now apply src_property_same.
Qed.

Lemma live_matches_same (kws : list string) (w w' : world) (k : nat) :
  resolve w' = resolve w -> attrs_at (dom w') k = attrs_at (dom w) k ->
  live_matches kws w' k = live_matches kws w k.
Proof.
  intros Hr Ha. unfold live_matches. now rewrite (live_src_same w w').
Qed.

Lemma blocked_live_src (w : world) (k : nat) (u : string) :
  blocked_as (dom w) k u -> live_src w k = about_blank.
Proof.
  intros (Hsrc & _ & _). unfold live_src, src_property. rewrite Hsrc.
  now rewrite String.eqb_refl.
Qed.

Lemma matches_not_blank (kws : list string) (d : store) (k : nat) :
  matches kws d k = true -> getAttribute d k "src" <> Some about_blank.
Proof.
  intros Hm Hsrc. unfold matches, src_of in Hm. rewrite Hsrc in Hm.
  discriminate.
Qed.

Lemma live_matches_not_blank (kws : list string) (w : world) (k : nat) :
  live_matches kws w k = true ->
  getAttribute (dom w) k "src" <> Some about_blank.
Proof.
  intros Hm Hsrc. unfold live_matches, live_src, src_property in Hm.
  rewrite Hsrc in Hm. discriminate.
Qed.

Lemma parentElement_at (d : store) (k : nat) :
  parentElement d k
  = match parent_at d k with
    | Some (Some p) =>
        match kind_at d p with Some (KElement _) => Some p | _ => None end
    | _ => None
    end.
Proof.
  unfold parentElement. rewrite parent_of_lookup. fold (parent_at d k).
  destruct (parent_at d k) as [[p|]|]; simpl; try reflexivity.
  rewrite is_element_lookup. fold (kind_at d p).
  destruct (kind_at d p) as [[]|]; reflexivity.
Qed.

Lemma kind_at_bound (d : store) (k : nat) (x : node_kind) :
  kind_at d k = Some x -> k < length d.
Proof.
  unfold kind_at. intros H. apply lookup_lt_Some in H.
  now rewrite length_fmap in H.
Qed.

Lemma blocking_run_refl (w : world) : blocking_run w w.
Proof.
  unfold blocking_run. repeat split; auto.
  intros k Hk. unfold has_tag. rewrite lookup_ge_None_2 by exact Hk.
  reflexivity.
Qed.

Lemma tag_clash (d : store) (k : nat) :
  has_tag d "SCRIPT" k = true -> has_tag d "IFRAME" k = true -> False.
Proof.
  rewrite !has_tag_at. destruct (kind_at d k) as [[| | |t]|]; try discriminate.
  intros H1%String.eqb_eq H2%String.eqb_eq. congruence.
Qed.

Lemma blocking_run_trans (w1 w2 w3 : world) :
  blocking_run w1 w2 -> blocking_run w2 w3 -> blocking_run w1 w3.
Proof.
  intros (He1 & [Hr1 Hv1] & Hl1 & Hk1 & Hn1 & Hf1)
         (He2 & [Hr2 Hv2] & Hl2 & Hk2 & Hn2 & Hf2).
  unfold blocking_run.
  split; [congruence|]. split; [split; congruence|]. split; [lia|].
  split; [|split].
  - intros k Hk. rewrite Hk2 by lia. now apply Hk1.
  - intros k Hk.
    assert (Htag : forall t, has_tag (dom w2) t k = has_tag (dom w1) t k)
      by (intros t; apply has_tag_same; now apply Hk1).
    destruct (Hn1 k Hk) as [[Ha Hp]|[(Ht & Ha & Hp)|(Ht & Hm & u & Hb)]];
      destruct (Hn2 k ltac:(lia))
        as [[Ha' Hp']|[(Ht' & Ha' & Hp')|(Ht' & Hm' & u' & Hb')]].
    + left. split; congruence.
    + right. left. rewrite <- Htag. repeat split; congruence.
    + right. right. rewrite <- Htag. split; [exact Ht'|].
      rewrite <- (getAttribute_same (dom w1) (dom w2)) by exact Ha.
      split; [exact Hm'|]. now exists u'.
    + right. left. repeat split; congruence.
    + right. left. repeat split; congruence.
    + rewrite Htag in Ht'. destruct (tag_clash _ _ Ht Ht').
    + right. right. split; [exact Ht|]. split; [exact Hm|]. exists u.
      now apply (blocked_as_same (dom w2) (dom w3)).
    + rewrite Htag in Ht'. destruct (tag_clash _ _ Ht' Ht).
    + destruct Hm'. apply Hb.
  - intros k Hk. destruct (decide (k < length (dom w2))) as [Hlt|Hge].
    + rewrite (has_tag_same (dom w2) (dom w3)) by (now apply Hk2).
      now apply Hf1.
    + apply Hf2. lia.
Qed.

Lemma blocking_run_keeps_blocked (w w' : world) (k : nat) (u : string) :
  blocking_run w w' -> k < length (dom w) ->
  blocked_as (dom w) k u -> blocked_as (dom w') k u.
Proof.
  intros (_ & _ & _ & _ & Hn & _) Hk Hb.
  destruct (Hn k Hk) as [[Ha _]|[(_ & Ha & _)|(_ & Hm & _)]].
  - now apply (blocked_as_same (dom w) (dom w')).
  - now apply (blocked_as_same (dom w) (dom w')).
  - destruct Hm. apply Hb.
Qed.

Lemma blocking_run_keeps_removed (w w' : world) (k : nat) :
  blocking_run w w' -> k < length (dom w) ->
  has_tag (dom w) "SCRIPT" k = true ->
  parent_at (dom w) k = Some None -> parent_at (dom w') k = Some None.
Proof.
  intros (_ & _ & _ & _ & Hn & _) Hk Ht Hp.
  destruct (Hn k Hk) as [[_ Hp']|[(_ & _ & Hp')|(Ht' & _ & _)]].
  - congruence.
  - exact Hp'.
  - destruct (tag_clash _ _ Ht Ht').
Qed.

Lemma build_placeholder_blocked (i p : nat) (u id : string) (d : store) :
  i < length d ->
  blocked_as (snd (build_placeholder i p u id d)) i u.
Proof.
  intros Hi.
  assert (Hat : exists a0, attrs_at d i = Some a0).
  { unfold attrs_at. apply lookup_lt_is_Some. now rewrite length_fmap. }
  destruct Hat as [a0 Ha0].
  pose proof (build_placeholder_attrs i p u id d i Hi) as Hb.
  rewrite !list_lookup_alter_eq in Hb. fold (attrs_at d i) in Hb.
  rewrite Ha0 in Hb.
  unfold blocked_as. rewrite !getAttribute_at. unfold attrs_at. rewrite Hb.
  cbn [fmap option_fmap option_map mbind option_bind]. split; [|split].
  - apply lookup_insert_eq.
  - rewrite !lookup_insert_ne by discriminate. apply lookup_insert_eq.
  - rewrite lookup_insert_ne by discriminate. apply lookup_insert_eq.
Qed.

(** Blocking an iframe whose [src] is not the neutral URL is a blocking
    step that touches the attributes of no other node. *)
Lemma createContentPlaceholder_blocks (w : world) (i p : nat) (u : string) :
  has_tag (dom w) "IFRAME" i = true ->
  getAttribute (dom w) i "src" <> Some about_blank ->
  parentElement (dom w) i = Some p ->
  exists w' wrapper,
    createContentPlaceholder i u w = Returned w' wrapper
    /\ blocking_run w w'
    /\ (forall k, k < length (dom w) -> k <> i ->
                  attrs_at (dom w') k = attrs_at (dom w) k)
    /\ blocked_as (dom w') i u.
Proof.
  intros Ht Hm Hp. pose proof (has_tag_bound _ _ _ Ht) as Hi.
  unfold createContentPlaceholder, draw. cbv beta iota; cbn [dom].
  rewrite Hp.
  set (id := ("cookie-blocked-content-" ++ rand w (draws w))%string).
  pose proof (build_placeholder_kinds i p u id (dom w)) as Hkinds.
  pose proof (build_placeholder_attrs i p u id (dom w)) as Hattrs.
  pose proof (build_placeholder_parents i p u id (dom w)) as Hparents.
  pose proof (build_placeholder_blocked i p u id (dom w) Hi) as Hblocked.
  destruct (build_placeholder i p u id (dom w)) as [wrapper d'].
  cbn [snd] in *. eexists _, wrapper. split; [reflexivity|].
  assert (Hother : forall k, k < length (dom w) -> k <> i ->
                     attrs_at d' k = attrs_at (dom w) k).
  { intros k Hk Hne. unfold attrs_at. rewrite Hattrs by exact Hk.
    now rewrite !list_lookup_alter_ne by congruence. }
  split; [|split; [exact Hother|exact Hblocked]].
  unfold blocking_run. cbn [dom blockingEnabled registry resolve with_dom].
  split; [reflexivity|]. split; [split; reflexivity|].
  assert (Hlen : length d' = length (dom w) + 8).
  { rewrite <- (length_fmap kind d'), Hkinds, length_app, length_fmap.
    reflexivity. }
  split; [lia|]. split; [|split].
  - intros k Hk. unfold kind_at. rewrite Hkinds.
    apply lookup_app_l. now rewrite length_fmap.
  - intros k Hk. destruct (decide (k = i)) as [->|Hne].
    + right. right. split; [exact Ht|]. split; [exact Hm|]. now exists u.
    + left. split; [now apply Hother|now apply Hparents].
  - intros k Hk. rewrite has_tag_at. unfold kind_at. rewrite Hkinds.
    rewrite lookup_app_r by (rewrite length_fmap; exact Hk).
    rewrite length_fmap.
    destruct (k - length (dom w)) as [|[|[|[|[|[|[|[|n]]]]]]]]; reflexivity.
Qed.

Lemma blocking_run_keeps_parentElement (w w' : world) (k p : nat) :
  blocking_run w w' ->
  attrs_at (dom w') k = attrs_at (dom w) k ->
  has_tag (dom w) "IFRAME" k = true ->
  parentElement (dom w) k = Some p -> parentElement (dom w') k = Some p.
Proof.
  intros (_ & _ & _ & Hkind & Hn & _) Ha Ht Hp.
  pose proof (has_tag_bound _ _ _ Ht) as Hk.
  destruct (Hn k Hk) as [[_ Hpar]|[(Hs & _)|(_ & Hm & u & Hb)]].
  - rewrite parentElement_at in *. rewrite Hpar.
    destruct (parent_at (dom w) k) as [[q|]|]; try discriminate.
    destruct (kind_at (dom w) q) as [kq|] eqn:Hq; [|discriminate].
    rewrite (Hkind q), Hq; [exact Hp|]. eapply kind_at_bound, Hq.
  - destruct (tag_clash _ _ Hs Ht).
  - destruct Hm. rewrite <- (getAttribute_same (dom w) (dom w')) by exact Ha.
    apply Hb.
Qed.

Lemma blocking_run_keeps_tag (w w' : world) (t : string) (n : nat) :
  blocking_run w w' ->
  has_tag (dom w) t n = true -> has_tag (dom w') t n = true.
Proof.
  intros (_ & _ & _ & Hk & _) Ht.
  rewrite (has_tag_same (dom w) (dom w')); [exact Ht|].
  apply Hk. eapply has_tag_bound, Ht.
Qed.

(** A loop of blocking steps over a list of nodes: [test] is the loop's
    test on an iframe and [url] the URL it records. *)
Section BlockingLoop.
Variable f : nat -> M unit.
Variable guard : store -> nat -> Prop.
Variable test : world -> nat -> bool.
Variable url : world -> nat -> string.

Hypothesis guard_kept : forall w w' n,
    blocking_run w w' -> guard (dom w) n -> guard (dom w') n.

Hypothesis test_same : forall w w' k,
    resolve w' = resolve w -> attrs_at (dom w') k = attrs_at (dom w) k ->
    test w' k = test w k.

Hypothesis url_same : forall w w' k,
    resolve w' = resolve w -> attrs_at (dom w') k = attrs_at (dom w) k ->
    url w' k = url w k.

Hypothesis test_not_blank : forall w k,
    test w k = true -> getAttribute (dom w) k "src" <> Some about_blank.

Hypothesis f_block : forall n w p,
    blockingEnabled w = true -> guard (dom w) n ->
    has_tag (dom w) "IFRAME" n = true -> test w n = true ->
    parentElement (dom w) n = Some p ->
    exists w', f n w = Returned w' tt /\ blocking_run w w'
               /\ (forall k, k < length (dom w) -> k <> n ->
                             attrs_at (dom w') k = attrs_at (dom w) k)
               /\ blocked_as (dom w') n (url w n).

Hypothesis f_skip : forall n w,
    blockingEnabled w = true -> guard (dom w) n ->
    has_tag (dom w) "IFRAME" n && test w n = false ->
    exists w', f n w = Returned w' tt /\ blocking_run w w'
               /\ (forall k, k < length (dom w) ->
                             attrs_at (dom w') k = attrs_at (dom w) k).

Lemma forEach_blocking (l : list nat) (w : world) :
    blockingEnabled w = true ->
    (forall j, In j l -> guard (dom w) j) ->
    (forall j, In j l -> has_tag (dom w) "IFRAME" j = true ->
               test w j = true ->
               parentElement (dom w) j <> None) ->
    exists w', forEach f l w = Returned w' tt /\ blocking_run w w'
      /\ (forall i, In i l -> has_tag (dom w) "IFRAME" i = true ->
                    test w i = true ->
                    blocked_as (dom w') i (url w i)).
Proof.
    revert w. induction l as [|j rest IH]; intros w Hon Hguard Hpar.
    - exists w. split; [reflexivity|]. split; [apply blocking_run_refl|].
      intros i [].
    - assert (Hstep : exists w2, f j w = Returned w2 tt
                /\ blocking_run w w2
                /\ (forall k, k < length (dom w) -> k <> j ->
                              attrs_at (dom w2) k = attrs_at (dom w) k)
                /\ (has_tag (dom w) "IFRAME" j = true ->
                    test w j = true ->
                    blocked_as (dom w2) j (url w j))).
      { destruct (has_tag (dom w) "IFRAME" j && test w j) eqn:Hcase.
        - apply andb_true_iff in Hcase as [Ht Hm].
          destruct (parentElement (dom w) j) as [p|] eqn:Hp.
          + destruct (f_block j w p Hon (Hguard j (or_introl eq_refl)) Ht Hm Hp)
              as (w2 & Hf & Hrun & Hother & Hb).
            exists w2. auto.
          + destruct (Hpar j (or_introl eq_refl) Ht Hm Hp).
        - destruct (f_skip j w Hon (Hguard j (or_introl eq_refl)) Hcase)
            as (w2 & Hf & Hrun & Hother).
          exists w2. split; [exact Hf|]. split; [exact Hrun|].
          split; [intros k Hk _; now apply Hother|].
          intros Ht Hm. rewrite Ht, Hm in Hcase. discriminate. }
      destruct Hstep as (w2 & Hf & Hrun & Hother & Hj).
      pose proof Hrun as (He & [_ Hres] & Hlen & Hkind & Hn & Hnew).
      (* an iframe of the later state was there before, with the same tag *)
      assert (Hold : forall k, has_tag (dom w2) "IFRAME" k = true ->
                 k < length (dom w) /\ has_tag (dom w) "IFRAME" k = true).
      { intros k Hk. destruct (decide (k < length (dom w))) as [Hlt|Hge].
        - split; [exact Hlt|].
          now rewrite <- (has_tag_same (dom w) (dom w2)) by (now apply Hkind).
        - rewrite Hnew in Hk by lia. discriminate. }
      destruct (IH w2) as (w' & Hrest & Hrun' & Hall).
      + congruence.
      + intros k Hk. eapply guard_kept; [exact Hrun|]. apply Hguard. now right.
      + intros k Hk Ht Hm. destruct (Hold k Ht) as [Hlt Ht0].
        destruct (Hn k Hlt) as [[Ha _]|[(Hs & _)|(_ & _ & u & Hb)]].
        * rewrite (test_same w w2) in Hm by assumption.
          destruct (parentElement (dom w) k) as [p|] eqn:Hp.
          -- now rewrite (blocking_run_keeps_parentElement w w2 k p).
          -- destruct (Hpar k (or_intror Hk) Ht0 Hm Hp).
        * destruct (tag_clash _ _ Hs Ht0).
        * destruct (test_not_blank w2 k Hm). apply Hb.
      + exists w'. split; [simpl; unfold bind; now rewrite Hf|].
        split; [eapply blocking_run_trans; eauto|].
        intros i Hi Ht Hm. pose proof (has_tag_bound _ _ _ Ht) as Hlt.
        destruct (decide (i = j)) as [->|Hne].
        * eapply blocking_run_keeps_blocked; [exact Hrun'|lia|].
          now apply Hj.
        * destruct Hi as [Hi|Hi]; [congruence|].
          assert (Ha : attrs_at (dom w2) i = attrs_at (dom w) i)
            by now apply Hother.
          rewrite <- (url_same w w2) by assumption.
          apply Hall; [exact Hi| |].
          -- now rewrite (has_tag_same (dom w) (dom w2)) by (now apply Hkind).
          -- now rewrite (test_same w w2) by assumption.
Qed.
End BlockingLoop.

(** ** The script sweep *)

Lemma sweep_scripts_run (kws : list string) (l : list nat) (w : world) :
  (forall s, In s l -> has_tag (dom w) "SCRIPT" s = true) ->
  exists w1,
    forEach (sweep_script kws) l w = Returned w1 tt
    /\ blockingEnabled w1 = blockingEnabled w
    /\ (registry w1 = registry w /\ resolve w1 = resolve w)
    /\ kind <$> dom w1 = kind <$> dom w
    /\ attrs <$> dom w1 = attrs <$> dom w
    /\ (forall k, parent_at (dom w1) k = parent_at (dom w) k
                  \/ (has_tag (dom w) "SCRIPT" k = true
                      /\ parent_at (dom w1) k = Some None))
    /\ (forall s, In s l ->
          truthy (live_src w s) && some_includes kws (live_src w s) = true ->
          parent_at (dom w1) s = Some None).
Proof.
  revert w. induction l as [|s rest IH]; intros w Htag.
  - exists w. repeat split; auto. intros s [].
  - set (w2 := world_of (sweep_script kws s w)).
    assert (Hstep : sweep_script kws s w = Returned w2 tt
              /\ blockingEnabled w2 = blockingEnabled w
              /\ (registry w2 = registry w /\ resolve w2 = resolve w)
              /\ kind <$> dom w2 = kind <$> dom w
              /\ attrs <$> dom w2 = attrs <$> dom w
              /\ (forall k, k <> s -> parent_at (dom w2) k = parent_at (dom w) k)
              /\ (parent_at (dom w2) s = parent_at (dom w) s
                  \/ parent_at (dom w2) s = Some None)
              /\ (truthy (live_src w s)
                  && some_includes kws (live_src w s) = true ->
                  parent_at (dom w2) s = Some None)).
    { subst w2. unfold sweep_script. cbv zeta.
      destruct (truthy (live_src w s) && some_includes kws (live_src w s))
        eqn:Hc; cbn [world_of].
      - cbn [over_dom with_dom dom blockingEnabled registry resolve].
        split; [reflexivity|]. split; [reflexivity|].
        split; [split; reflexivity|].
        split; [apply view_detach; view_side|].
        split; [apply view_detach; view_side|].
        split; [|split].
        + intros k Hk. unfold parent_at. rewrite parents_detach.
          now apply list_lookup_insert_ne.
        + right. unfold parent_at. rewrite parents_detach.
          apply list_lookup_insert_eq. rewrite length_fmap.
          apply (has_tag_bound _ "SCRIPT"), Htag. now left.
        + intros _. unfold parent_at. rewrite parents_detach.
          apply list_lookup_insert_eq. rewrite length_fmap.
          apply (has_tag_bound _ "SCRIPT"), Htag. now left.
      - repeat split; auto. discriminate. }
    destruct Hstep as (Hf & He & [Hr Hv] & Hk & Ha & Hp & Hps & Hrem).
    assert (Htags : forall t k, has_tag (dom w2) t k = has_tag (dom w) t k).
    { intros t k. rewrite !has_tag_lookup. now rewrite Hk. }
    assert (Hsrc : forall k, live_src w2 k = live_src w k).
    { intros k. apply live_src_same; [exact Hv|].
      unfold attrs_at. now rewrite Ha. }
    destruct (IH w2)
      as (w1 & Hrest & He1 & [Hr1 Hv1] & Hk1 & Ha1 & Hp1 & Hrem1).
    { intros k Hin. rewrite Htags. apply Htag. now right. }
    exists w1. split; [simpl; unfold bind; now rewrite Hf|].
    split; [congruence|]. split; [split; congruence|].
    split; [congruence|]. split; [congruence|]. split.
    + intros k. destruct (Hp1 k) as [Hsame|[Ht Hnone]].
      * destruct (decide (k = s)) as [->|Hne].
        -- destruct Hps as [Hps|Hps]; [left; congruence|].
           right. split; [apply Htag; now left|congruence].
        -- left. rewrite Hsame. now apply Hp.
      * right. rewrite Htags in Ht. auto.
    + intros k [<-|Hin] Hc.
      * destruct (Hp1 s) as [Hsame|[_ Hnone]]; [|exact Hnone].
        rewrite Hsame. now apply Hrem.
      * apply Hrem1; [exact Hin|]. now rewrite !Hsrc.
Qed.

Lemma sweep_iframe_block (kws : list string) (n : nat) (w : world) (p : nat) :
  blockingEnabled w = true ->
  has_tag (dom w) "IFRAME" n = true -> live_matches kws w n = true ->
  parentElement (dom w) n = Some p ->
  exists w', sweep_iframe kws n w = Returned w' tt /\ blocking_run w w'
             /\ (forall k, k < length (dom w) -> k <> n ->
                           attrs_at (dom w') k = attrs_at (dom w) k)
             /\ blocked_as (dom w') n (live_src w n).
Proof.
  intros Hon Ht Hm Hp. unfold sweep_iframe. rewrite Hon. cbn [andb].
  pose proof (live_matches_not_blank kws w n Hm) as Hne.
  unfold live_matches in Hm. cbv zeta in *. rewrite Hm.
  destruct (createContentPlaceholder_blocks w n p (live_src w n) Ht Hne Hp)
    as (w' & wr & Hc & Hrun & Hother & Hb).
  exists w'. unfold bind. rewrite Hc. auto.
Qed.

Lemma sweep_iframe_skip (kws : list string) (n : nat) (w : world) :
  blockingEnabled w = true ->
  has_tag (dom w) "IFRAME" n = true ->
  has_tag (dom w) "IFRAME" n && live_matches kws w n = false ->
  exists w', sweep_iframe kws n w = Returned w' tt /\ blocking_run w w'
             /\ (forall k, k < length (dom w) ->
                           attrs_at (dom w') k = attrs_at (dom w) k).
Proof.
  intros Hon Ht Hc. rewrite Ht in Hc. cbn [andb] in Hc.
  exists w. split; [|split; [apply blocking_run_refl|reflexivity]].
  unfold sweep_iframe. rewrite Hon. cbn [andb].
  unfold live_matches in Hc. cbv zeta in *. now rewrite Hc.
Qed.

(** ** The observer's callback, node by node *)

Lemma detach_script_run (w : world) (n : nat) :
  has_tag (dom w) "SCRIPT" n = true ->
  blocking_run w (over_dom (detach n) w).
Proof.
  intros Ht. unfold blocking_run.
  cbn [over_dom with_dom dom blockingEnabled registry resolve].
  rewrite length_detach.
  assert (Hk : kind <$> detach n (dom w) = kind <$> dom w)
    by (apply view_detach; view_side).
  assert (Ha : attrs <$> detach n (dom w) = attrs <$> dom w)
    by (apply view_detach; view_side).
  split; [reflexivity|]. split; [split; reflexivity|]. split; [lia|].
  split; [|split].
  - intros k _. unfold kind_at. now rewrite Hk.
  - intros k Hlt. unfold attrs_at, parent_at. rewrite Ha, parents_detach.
    destruct (decide (k = n)) as [->|Hne].
    + right. left. split; [exact Ht|]. split; [reflexivity|].
      apply list_lookup_insert_eq. now rewrite length_fmap.
    + left. split; [reflexivity|]. now apply list_lookup_insert_ne.
  - intros k Hge. unfold has_tag.
    rewrite lookup_ge_None_2 by (rewrite length_detach; exact Hge).
    reflexivity.
Qed.

Lemma attrs_at_detach (n : nat) (d : store) (k : nat) :
  attrs_at (detach n d) k = attrs_at d k.
Proof.
  unfold attrs_at.
  assert (Ha : attrs <$> detach n d = attrs <$> d)
    by (apply view_detach; view_side).
  now rewrite Ha.
Qed.

Lemma matches_src (kws : list string) (d : store) (n : nat) :
  matches kws d n = true -> getAttribute d n "src" = Some (src_of d n).
Proof.
  unfold matches, src_of. destruct (getAttribute d n "src"); [reflexivity|].
  discriminate.
Qed.

Lemma on_added_script_not_script (kws : list string) (n : nat) (w : world) :
  has_tag (dom w) "SCRIPT" n = false ->
  on_added_script kws n w = Returned w tt.
Proof. intros H. unfold on_added_script. now rewrite H. Qed.

Lemma on_added_node_block (kws : list string) (n : nat) (w : world) (p : nat) :
  blockingEnabled w = true ->
  has_tag (dom w) "IFRAME" n = true -> matches kws (dom w) n = true ->
  parentElement (dom w) n = Some p ->
  exists w', on_added_node kws n w = Returned w' tt /\ blocking_run w w'
             /\ (forall k, k < length (dom w) -> k <> n ->
                           attrs_at (dom w') k = attrs_at (dom w) k)
             /\ blocked_as (dom w') n (src_of (dom w) n).
Proof.
  intros Hon Ht Hm Hp. unfold on_added_node, bind.
  rewrite on_added_script_not_script.
  2:{ destruct (has_tag (dom w) "SCRIPT" n) eqn:Hs; [|reflexivity].
      destruct (tag_clash _ _ Hs Ht). }
  unfold on_added_iframe. rewrite Ht, (matches_src kws _ _ Hm), Hon.
  cbn [andb]. pose proof (matches_not_blank kws _ _ Hm) as Hne.
  unfold matches in Hm. cbv zeta in Hm. rewrite Hm.
  destruct (createContentPlaceholder_blocks w n p (src_of (dom w) n) Ht Hne Hp)
    as (w' & wr & Hc & Hrun & Hother & Hb).
  exists w'. unfold bind. rewrite Hc. auto.
Qed.

Lemma on_added_iframe_skip (kws : list string) (n : nat) (w : world) :
  has_tag (dom w) "IFRAME" n && matches kws (dom w) n = false ->
  on_added_iframe kws n w = Returned w tt.
Proof.
  intros Hc. unfold on_added_iframe.
  destruct (has_tag (dom w) "IFRAME" n); [|reflexivity].
  cbn [andb] in Hc. unfold matches, src_of in Hc. cbv zeta in Hc.
  destruct (getAttribute (dom w) n "src") as [src|]; [|reflexivity].
  change (default "" (Some src)) with src in Hc.
  destruct (blockingEnabled w); [|reflexivity]. cbn [andb]. now rewrite Hc.
Qed.

Lemma on_added_node_skip (kws : list string) (n : nat) (w : world) :
  has_tag (dom w) "IFRAME" n && matches kws (dom w) n = false ->
  exists w', on_added_node kws n w = Returned w' tt /\ blocking_run w w'
             /\ (forall k, k < length (dom w) ->
                           attrs_at (dom w') k = attrs_at (dom w) k).
Proof.
  intros Hc. unfold on_added_node, bind.
  destruct (has_tag (dom w) "SCRIPT" n) eqn:Hs.
  - assert (Hstep : exists w2, on_added_script kws n w = Returned w2 tt
              /\ blocking_run w w2
              /\ (forall k, attrs_at (dom w2) k = attrs_at (dom w) k)).
    { unfold on_added_script. rewrite Hs.
      destruct (getAttribute _ _ _) as [src|];
        [|exists w; split; [reflexivity|split;
                              [apply blocking_run_refl|reflexivity]]].
      destruct (blockingEnabled w && truthy src && some_includes kws src).
      - eexists. split; [reflexivity|].
        split; [now apply detach_script_run|].
        intros k. apply attrs_at_detach.
      - exists w; split; [reflexivity|split;
                            [apply blocking_run_refl|reflexivity]]. }
    destruct Hstep as (w2 & Hf & Hrun & Hsame). rewrite Hf.
    exists w2. split; [|split; [exact Hrun|intros k _; apply Hsame]].
    unfold on_added_iframe.
    destruct (has_tag (dom w2) "IFRAME" n) eqn:Ht; [|reflexivity].
    destruct (tag_clash (dom w2) n);
      [eapply blocking_run_keeps_tag; eauto|exact Ht].
  - rewrite on_added_script_not_script by exact Hs.
    exists w. split; [|split; [apply blocking_run_refl|reflexivity]].
    now apply on_added_iframe_skip.
Qed.

Lemma forEach_concat {A} (f : A -> M unit) (ls : list (list A)) (w : world) :
  forEach (fun l => forEach f l) ls w = forEach f (concat ls) w.
Proof.
  revert w. induction ls as [|l rest IH]; intros w; [reflexivity|].
  simpl. unfold bind at 1. revert w.
  induction l as [|x l' IHl]; intros w.
  - simpl. apply IH.
  - simpl. unfold bind. destruct (f x w) as [w1 []|w1 msg]; [|reflexivity].
    apply IHl.
Qed.

(** ** P1: what blocking leaves on an iframe *)

Lemma In_querySelectorAll (d : store) (root : nat)
    (sel : store -> nat -> bool) (n : nat) :
  In n (querySelectorAll d root sel) -> sel d n = true.
Proof.
  unfold querySelectorAll. rewrite <- list_elem_of_In, list_elem_of_filter.
  tauto.
Qed.

Lemma observer_callback_flat (kws : list string) (ms : list mutation)
    (w : world) :
  observer_callback (ObsBlock kws) ms w
  = forEach (on_added_node kws) (added_nodes ms) w.
Proof.
  unfold added_nodes. rewrite <- forEach_concat. simpl.
  revert w. induction ms as [|m rest IH]; intros w; [reflexivity|].
  simpl. unfold bind. destruct (forEach _ (addedNodes m) w); [|reflexivity].
  apply IH.
Qed.

(** The two sweeps of [blockTrackingScripts] return; what is left is the
    call to [observe] on the state they leave. *)
Lemma sweep_effect (kws : list string) (w : world) :
  blockingEnabled w = true ->
  (forall j, In j (swept_iframes kws w) -> live_matches kws w j = true ->
             parentElement (dom w) j <> None) ->
  exists w2,
    blockTrackingScripts kws w
    = (observe (ObsBlock kws) >> ret (ObsBlock kws)) w2
    /\ (forall s, In s (querySelectorAll (dom w) document sel_script) ->
          truthy (live_src w s) && some_includes kws (live_src w s) = true ->
          parent_of (dom w2) s = None)
    /\ (forall i, In i (swept_iframes kws w) ->
                  live_matches kws w i = true ->
                  blocked_as (dom w2) i (live_src w i)).
Proof.
  intros Hon Hpar. unfold swept_iframes in *.
  destruct (sweep_scripts_run kws
              (querySelectorAll (dom w) document sel_script) w)
    as (w1 & Hs & He1 & [Hr1 Hv1] & Hk1 & Ha1 & Hp1 & Hrem).
  { intros s Hin. now apply In_querySelectorAll in Hin. }
  rewrite Hs in *. cbn [world_of] in *.
  assert (Hat : forall k, attrs_at (dom w1) k = attrs_at (dom w) k)
    by (intros k; unfold attrs_at; now rewrite Ha1).
  assert (Htag : forall t k, has_tag (dom w1) t k = has_tag (dom w) t k)
    by (intros t k; rewrite !has_tag_lookup; now rewrite Hk1).
  destruct (forEach_blocking (sweep_iframe kws)
              (fun d n => has_tag d "IFRAME" n = true)
              (live_matches kws) live_src) with
    (l := querySelectorAll (dom w1) document sel_iframe) (w := w1)
    as (w2 & Hi & Hrun & Hall).
  - intros; eapply blocking_run_keeps_tag; eauto.
  - intros; now apply live_matches_same.
  - intros; now apply live_src_same.
  - intros; eapply live_matches_not_blank; eauto.
  - intros; eapply sweep_iframe_block; eauto.
  - intros; eapply sweep_iframe_skip; eauto.
  - congruence.
  - intros j Hin. now apply In_querySelectorAll in Hin.
  - intros j Hin Ht Hm.
    rewrite (live_matches_same kws w w1) in Hm by (auto using Hat).
    specialize (Hpar j Hin Hm). rewrite Htag in Ht.
    rewrite parentElement_at in *.
    destruct (Hp1 j) as [->|[Hsc _]]; [|destruct (tag_clash _ _ Hsc Ht)].
    destruct (parent_at (dom w) j) as [[q|]|]; try exact Hpar.
    unfold kind_at in *. now rewrite Hk1.
  - exists w2. split.
    + unfold blockTrackingScripts. rewrite Hon. cbn [negb]. unfold bind.
      rewrite Hs, Hi. reflexivity.
    + split.
      { intros s Hin Hc. rewrite parent_of_lookup.
        fold (parent_at (dom w2) s).
        rewrite (blocking_run_keeps_removed w1 w2 s Hrun); auto.
        - eapply has_tag_bound. rewrite Htag.
          apply In_querySelectorAll in Hin. exact Hin.
        - rewrite Htag. apply In_querySelectorAll in Hin. exact Hin. }
      intros i Hin Hm.
      rewrite <- (live_src_same w w1) by (auto using Hat).
      apply Hall; [exact Hin| |].
      * now apply In_querySelectorAll in Hin.
      * now rewrite (live_matches_same kws w w1) by (auto using Hat).
Qed.

(** Whether [blockTrackingScripts] returns once its sweeps are over is
    decided by [observe]: the state the sweeps leave is the final one, up to
    the registration. *)
Lemma observe_outcome (o : observer) (w2 : world) :
  dom (world_of ((observe o >> ret o) w2)) = dom w2
  /\ (documentElement (dom w2) <> None ->
      (observe o >> ret o) w2 = Returned (register o w2) o)
  /\ (documentElement (dom w2) = None ->
      (observe o >> ret o) w2 = Thrown w2 "parameter 1 is not of type 'Node'").
Proof.
  unfold bind, observe, ret.
  destruct (documentElement (dom w2)); cbn [world_of register dom];
    repeat split; congruence.
Qed.

Lemma callback_blocks (kws : list string) (ms : list mutation) (w : world) :
  blockingEnabled w = true ->
  (forall j, In j (added_nodes ms) -> has_tag (dom w) "IFRAME" j = true ->
             matches kws (dom w) j = true ->
             parentElement (dom w) j <> None) ->
  exists w',
    observer_callback (ObsBlock kws) ms w = Returned w' tt
    /\ (forall i, In i (added_nodes ms) ->
                  has_tag (dom w) "IFRAME" i = true ->
                  matches kws (dom w) i = true ->
                  blocked_as (dom w') i (src_of (dom w) i)).
Proof.
  intros Hon Hpar. rewrite observer_callback_flat.
  destruct (forEach_blocking (on_added_node kws) (fun _ _ => True)
              (fun w => matches kws (dom w)) (fun w => src_of (dom w))) with
    (l := added_nodes ms) (w := w) as (w' & Hf & _ & Hall); auto.
  - intros; now apply matches_same.
  - intros; now apply src_of_same.
  - intros; eapply matches_not_blank; eauto.
  - intros; eapply on_added_node_block; eauto.
  - intros; eapply on_added_node_skip; eauto.
  - exists w'. auto.
Qed.

(** C1 (as amended): with blocking on, provided every matching iframe that
    is visited has a parent element, both sweeps of [blockTrackingScripts]
    complete and so does the observer's callback on a batch.  Every iframe
    the sweep visits whose [src] property (the resolved URL) is non-empty,
    not the neutral URL and contains a keyword then has the neutral [src],
    the marker ["true"] and that URL recorded; the call itself returns when
    the document still has a root element for [observe] and throws
    otherwise, the iframes being blocked either way.  The callback does the
    same by the [src] attribute of the added iframes. *)
Theorem blocking_blocks_matching_iframes (kws : list string) (w : world) :
  blockingEnabled w = true ->
  ((forall j, In j (swept_iframes kws w) -> live_matches kws w j = true ->
              parentElement (dom w) j <> None) ->
   let w' := world_of (blockTrackingScripts kws w) in
   (forall i, In i (swept_iframes kws w) ->
              live_matches kws w i = true ->
              blocked_as (dom w') i (live_src w i))
   /\ (documentElement (dom w') <> None ->
       blockTrackingScripts kws w = Returned w' (ObsBlock kws))
   /\ (documentElement (dom w') = None ->
       is_thrown (blockTrackingScripts kws w)))
  /\ (forall ms,
        (forall j, In j (added_nodes ms) ->
                   has_tag (dom w) "IFRAME" j = true ->
                   matches kws (dom w) j = true ->
                   parentElement (dom w) j <> None) ->
        exists w',
          observer_callback (ObsBlock kws) ms w = Returned w' tt
          /\ (forall i, In i (added_nodes ms) ->
                        has_tag (dom w) "IFRAME" i = true ->
                        matches kws (dom w) i = true ->
                        blocked_as (dom w') i (src_of (dom w) i))).
Proof.
  intros Hon. split.
  - intros Hpar.
    destruct (sweep_effect kws w Hon Hpar) as (w2 & Hrun & _ & Hall).
    destruct (observe_outcome (ObsBlock kws) w2) as (Hdom & Hret & Hthrow).
    cbv zeta. rewrite Hrun, Hdom. split; [exact Hall|]. split.
    + intros Hroot. rewrite (Hret Hroot). reflexivity.
    + intros Hroot. now rewrite (Hthrow Hroot).
  - intros ms. now apply callback_blocks.
Qed.

Lemma blocking_blocks_matching_iframes_witness :
  blocked_as
    (dom (world_of (blockTrackingScripts ["youtube.com"]
                      (fresh_world sample_page))))
    3 "https://youtube.com/embed/abc"
  /\ blockTrackingScripts ["youtube.com"] (fresh_world sample_page)
     = Returned (world_of (blockTrackingScripts ["youtube.com"]
                             (fresh_world sample_page)))
         (ObsBlock ["youtube.com"]).
Proof.
  destruct (proj1 (blocking_blocks_matching_iframes ["youtube.com"]
                     (fresh_world sample_page) eq_refl))
    as (Hall & Hret & _).
  - intros j Hin _. vm_compute in Hin. destruct Hin as [<-|[]].
    vm_compute. discriminate.
  - split.
    + apply (Hall 3); vm_compute; auto.
    + apply Hret. vm_compute. discriminate.
Defined.

(** C1, as stated, fails: a matching iframe that is the document's root
    element is visited by the sweep, which throws on it and leaves it
    unblocked. *)
Lemma root_iframe_is_not_blocked :
  ~ (forall i,
       In i (swept_iframes ["youtube.com"] (fresh_world root_iframe_page)) ->
       live_matches ["youtube.com"] (fresh_world root_iframe_page) i = true ->
       blocked_as
         (dom (world_of (blockTrackingScripts ["youtube.com"]
                           (fresh_world root_iframe_page))))
         i (live_src (fresh_world root_iframe_page) i)).
Proof.
  intros H. specialize (H 1).
  destruct H as (Hsrc & _); [vm_compute; auto|vm_compute; reflexivity|].
  vm_compute in Hsrc. discriminate.
Qed.


(** ** The empty keyword *)

Lemma includes_empty (url : string) : includes url "" = true.
Proof. destruct url; reflexivity. Qed.

Lemma some_includes_empty (kws : list string) (url : string) :
  In "" kws -> some_includes kws url = true.
Proof.
  intros Hin. unfold some_includes. apply existsb_exists.
  exists "". split; [exact Hin|apply includes_empty].
Qed.

(** C10 (as amended): with the empty string among the keywords and the
    enable flag on, provided every iframe still in the document after the
    script sweep whose [src] property is non-empty and not neutral has a
    parent element, both sweeps complete: every script of the document with
    a non-empty [src] property has then been removed from its parent, and
    every such iframe is blocked, whatever its URL is.  The call returns
    when the document still has a root element for [observe], and throws
    otherwise. *)
Theorem empty_keyword_blocks_everything (kws : list string) (w : world) :
  In "" kws ->
  blockingEnabled w = true ->
  (forall j, In j (swept_iframes kws w) ->
             truthy (live_src w j) = true ->
             live_src w j <> about_blank ->
             parentElement (dom w) j <> None) ->
  let w' := world_of (blockTrackingScripts kws w) in
  (forall s, In s (querySelectorAll (dom w) document sel_script) ->
             truthy (live_src w s) = true ->
             parent_of (dom w') s = None)
  /\ (forall i, In i (swept_iframes kws w) ->
                truthy (live_src w i) = true ->
                live_src w i <> about_blank ->
                blocked_as (dom w') i (live_src w i))
  /\ (documentElement (dom w') <> None ->
      blockTrackingScripts kws w = Returned w' (ObsBlock kws))
  /\ (documentElement (dom w') = None ->
      is_thrown (blockTrackingScripts kws w)).
Proof.
  intros Hempty Hon Hpar.
  assert (Hm : forall j, live_matches kws w j = true <->
                 truthy (live_src w j) = true
                 /\ live_src w j <> about_blank).
  { intros j. unfold live_matches. cbv zeta.
    rewrite (some_includes_empty kws _ Hempty), andb_true_r, andb_true_iff.
    rewrite negb_true_iff, String.eqb_neq. tauto. }
  destruct (sweep_effect kws w Hon) as (w2 & Hrun & Hscripts & Hiframes).
  - intros j Hin Hj. apply Hm in Hj as [Ht Hne]. now apply Hpar.
  - destruct (observe_outcome (ObsBlock kws) w2) as (Hdom & Hret & Hthrow).
    cbv zeta. rewrite Hrun, Hdom. split; [|split; [|split]].
    + intros s Hin Ht. apply Hscripts; [exact Hin|].
      now rewrite Ht, (some_includes_empty kws _ Hempty).
    + intros i Hin Ht Hne. apply Hiframes; [exact Hin|]. now apply Hm.
    + intros Hroot. rewrite (Hret Hroot). reflexivity.
    + intros Hroot. now rewrite (Hthrow Hroot).
Qed.

Lemma empty_keyword_blocks_everything_witness :
  parent_of (dom (world_of (blockTrackingScripts [""]
                              (fresh_world sample_page)))) 4 = None
  /\ blocked_as
       (dom (world_of (blockTrackingScripts [""] (fresh_world sample_page))))
       3 "https://youtube.com/embed/abc"
  /\ blockTrackingScripts [""] (fresh_world sample_page)
     = Returned (world_of (blockTrackingScripts [""]
                             (fresh_world sample_page)))
         (ObsBlock [""]).
Proof.
  destruct (empty_keyword_blocks_everything [""] (fresh_world sample_page))
    as (Hscripts & Hiframes & Hret & _).
  - now left.
  - reflexivity.
  - intros j Hin _ _. vm_compute in Hin. destruct Hin as [<-|[]].
    vm_compute. discriminate.
  - split; [|split].
    + apply Hscripts; vm_compute; auto.
    + apply (Hiframes 3); vm_compute; [auto|reflexivity|discriminate].
    + apply Hret. vm_compute. discriminate.
Defined.

(** C10, as stated, fails: an iframe held by a script element goes out of
    the document with the script, before the iframe sweep, and is never
    blocked. *)
Lemma iframe_inside_script_is_not_blocked :
  In 4 (querySelectorAll script_with_iframe_page document sel_iframe)
  /\ truthy (live_src (fresh_world script_with_iframe_page) 4) = true
  /\ live_src (fresh_world script_with_iframe_page) 4 <> about_blank
  /\ ~ blocked_as
         (dom (world_of (blockTrackingScripts [""]
                           (fresh_world script_with_iframe_page))))
         4 (live_src (fresh_world script_with_iframe_page) 4).
Proof.
  split; [vm_compute; auto|]. split; [reflexivity|].
  split; [vm_compute; discriminate|].
  intros (Hsrc & _). vm_compute in Hsrc. discriminate.
Qed.


(** ** Faults in the observer's callback *)

Lemma registry_createContentPlaceholder (i : nat) (u : string) (w : world) :
  registry (world_of (createContentPlaceholder i u w)) = registry w.
Proof.
  unfold createContentPlaceholder, draw. cbv beta iota; cbn [dom].
  destruct (parentElement (dom w) i); [|reflexivity].
  destruct (build_placeholder _ _ _ _ _). reflexivity.
Qed.

Lemma registry_on_added_node (kws : list string) (n : nat) (w : world) :
  registry (world_of (on_added_node kws n w)) = registry w.
Proof.
  unfold on_added_node.
  apply (bind_keeps (fun w' => registry w' = registry w)).
  - unfold on_added_script. destruct (has_tag _ _ _); [|reflexivity].
    destruct (getAttribute _ _ _); [|reflexivity].
    destruct (_ && _); reflexivity.
  - intros _ w' Hw'. unfold on_added_iframe.
    destruct (has_tag _ _ _); [|exact Hw'].
    destruct (getAttribute _ _ _); [|exact Hw'].
    destruct (_ && _); [|exact Hw'].
    apply bind_keeps.
    + now rewrite registry_createContentPlaceholder.
    + intros _ w'' Hw''. exact Hw''.
Qed.

Lemma registry_forEach_added (kws : list string) (l : list nat) (w : world) :
  registry (world_of (forEach (on_added_node kws) l w)) = registry w.
Proof.
  apply (forEach_keeps (fun w' => registry w' = registry w)); [|reflexivity].
  intros n w' Hw'. now rewrite registry_on_added_node.
Qed.

(** The only fault: a matching iframe without a parent element. *)
Lemma on_added_node_thrown (kws : list string) (n : nat) (w w' : world)
    (msg : string) :
  on_added_node kws n w = Thrown w' msg ->
  has_tag (dom w) "IFRAME" n = true
  /\ matches kws (dom w) n = true
  /\ parentElement (dom w) n = None
  /\ dom w' = dom w.
Proof.
  intros Hthrow.
  destruct (has_tag (dom w) "IFRAME" n && matches kws (dom w) n) eqn:Hc.
  2:{ destruct (on_added_node_skip kws n w Hc) as (w2 & Hf & _). congruence. }
  apply andb_true_iff in Hc as [Ht Hm].
  unfold on_added_node, bind in Hthrow.
  rewrite on_added_script_not_script in Hthrow.
  2:{ destruct (has_tag (dom w) "SCRIPT" n) eqn:Hs; [|reflexivity].
      destruct (tag_clash _ _ Hs Ht). }
  unfold on_added_iframe in Hthrow.
  rewrite Ht, (matches_src kws _ _ Hm) in Hthrow.
  destruct (_ && _) in Hthrow; [|discriminate].
  unfold bind in Hthrow.
  destruct (parentElement (dom w) n) as [p|] eqn:Hp.
  - destruct (createContentPlaceholder_returns w n (src_of (dom w) n) p Hp)
      as (w2 & wr & Hr).
    rewrite Hr in Hthrow. discriminate.
  - rewrite (createContentPlaceholder_orphan w n _ Hp) in Hthrow.
    injection Hthrow as <- _. auto.
Qed.

(** C4 (as amended): a fault while one added node is processed leaves the
    callback as an exception: the nodes handled before keep their effects,
    the faulting node changes nothing in the DOM, and the rest of the batch
    is not processed.  The observer stays registered, so the platform hands
    it the later batches. *)
Theorem fault_ends_callback (kws : list string) (pre post : list nat)
    (n : nat) (rest next : list mutation) (w w1 w2 : world) (msg : string) :
  forEach (on_added_node kws) pre w = Returned w1 tt ->
  on_added_node kws n w1 = Thrown w2 msg ->
  observer_callback (ObsBlock kws) (mkMutation (pre ++ n :: post) :: rest) w
  = Thrown w2 msg
  /\ dom w2 = dom w1
  /\ registry w2 = registry w
  /\ (registry w = [ObsBlock kws] ->
      deliver next (deliver (mkMutation (pre ++ n :: post) :: rest) w)
      = world_of (observer_callback (ObsBlock kws) next w2)).
Proof.
  intros Hpre Hn.
  assert (Hrun : observer_callback (ObsBlock kws)
                   (mkMutation (pre ++ n :: post) :: rest) w = Thrown w2 msg).
  { rewrite observer_callback_flat. unfold added_nodes. cbn [map concat addedNodes].
    rewrite <- app_assoc. generalize (post ++ concat (map addedNodes rest)).
    intros tail. revert w Hpre.
    induction pre as [|x pre' IH]; intros w Hpre.
    - injection Hpre as ->. simpl. unfold bind. now rewrite Hn.
    - simpl in *. unfold bind in *.
      destruct (on_added_node kws x w) as [wx []|wx mx]; [|discriminate].
      now apply IH. }
  assert (Hreg : registry w2 = registry w).
  { pose proof (registry_forEach_added kws pre w) as H1.
    rewrite Hpre in H1. cbn [world_of] in H1.
    pose proof (registry_on_added_node kws n w1) as H2.
    rewrite Hn in H2. cbn [world_of] in H2. congruence. }
  split; [exact Hrun|].
  split; [apply (on_added_node_thrown kws n w1 w2 msg Hn)|].
  split; [exact Hreg|].
  intros Hone. unfold deliver at 2. rewrite Hone. cbn [fold_left].
  rewrite Hrun. cbn [world_of]. unfold deliver. rewrite Hreg, Hone.
  reflexivity.
Qed.

Lemma fault_ends_callback_witness :
  observer_callback (ObsBlock ["youtube.com"]) [mkMutation [3; 4]]
    (watching ["youtube.com"] orphan_batch_page)
  = Thrown (snd (draw (watching ["youtube.com"] orphan_batch_page)))
      "Iframe has no parent element".
Proof.
  apply (fault_ends_callback ["youtube.com"] [] [4] 3 [] []
           (watching ["youtube.com"] orphan_batch_page)
           (watching ["youtube.com"] orphan_batch_page)).
  - reflexivity.
  - vm_compute. reflexivity.
Defined.

(** C4, as stated, fails: the iframe of the body is blocked when its record
    is delivered alone, and is left as it was when the batch also names,
    before it, an iframe that has no parent any more. *)
Lemma orphan_stops_the_batch :
  matches ["youtube.com"] orphan_batch_page 4 = true
  /\ parentElement orphan_batch_page 4 <> None
  /\ blocked_as
       (dom (deliver [mkMutation [4]]
               (watching ["youtube.com"] orphan_batch_page)))
       4 "https://youtube.com/embed/xyz"
  /\ ~ blocked_as
         (dom (deliver [mkMutation [3; 4]]
                 (watching ["youtube.com"] orphan_batch_page)))
         4 "https://youtube.com/embed/xyz".
Proof.
  split; [reflexivity|]. split; [vm_compute; discriminate|].
  split; [vm_compute; auto|].
  intros (Hsrc & _). vm_compute in Hsrc. discriminate.
Qed.

(** I2 on a page that holds a blocked iframe (node 3) and one that is not
    blocked (node 4). *)
Lemma half_blocked_recorded :
  getAttribute half_blocked_page 3 "data-cookie-blocked" = Some "true"
  /\ recorded_invariant half_blocked_page.
Proof.
  split; [reflexivity|].
  repeat constructor; intros Hk Hm; try discriminate Hk.
  - exists "https://youtube.com/embed/abc". split; [reflexivity|discriminate].
  - vm_compute in Hm. discriminate Hm.
Qed.

Lemma recorded_invariant_preserved_witness :
  (recorded_invariant
     (dom (world_of (blockTrackingScripts ["vimeo.com"]
                       (fresh_world half_blocked_page))))
   /\ recorded_invariant
        (dom (world_of (observer_callback (ObsBlock ["vimeo.com"])
                          [mkMutation [4]] (fresh_world half_blocked_page))))
   /\ recorded_invariant
        (dom (ensurePlaceholdersVisible (fresh_world half_blocked_page)))
   /\ recorded_invariant
        (dom (unblockPreviouslyBlockedContent ["vimeo.com"]
                (fresh_world half_blocked_page))))
  /\ blocked_as
       (dom (world_of (blockTrackingScripts ["vimeo.com"]
                         (fresh_world half_blocked_page))))
       4 "https://player.vimeo.com/video/7"
  /\ blocked_as
       (dom (world_of (observer_callback (ObsBlock ["vimeo.com"])
                         [mkMutation [4]] (fresh_world half_blocked_page))))
       4 "https://player.vimeo.com/video/7"
  /\ getAttribute
       (dom (unblockPreviouslyBlockedContent ["vimeo.com"]
               (fresh_world half_blocked_page)))
       3 "data-cookie-blocked" = None.
Proof.
  split.
  - apply (recorded_invariant_preserved ["vimeo.com"] (ObsBlock ["vimeo.com"])
             [mkMutation [4]] (fresh_world half_blocked_page)).
    exact (proj2 half_blocked_recorded).
  - split; [vm_compute; auto|]. split; [vm_compute; auto|].
    vm_compute. reflexivity.
Defined.

(** ** The enable flag during a session *)

(** Once [setBlockingEnabled(false)] has been called, the observer's callback
    removes no script and blocks no iframe, whatever the batch holds. *)
Theorem observer_callback_disabled (o : observer) (ms : list mutation)
    (w : world) :
  blockingEnabled w = false ->
  observer_callback o ms w = Returned w tt.
Proof.
  intros Hoff. destruct o as [|kws]; [reflexivity|].
  cbn [observer_callback]. apply forEach_skip. intros m _.
  apply forEach_skip. intros n _.
  assert (Hscript : on_added_script kws n w = Returned w tt).
  { unfold on_added_script. rewrite Hoff.
    destruct (has_tag _ _ _); [|reflexivity].
    destruct (getAttribute _ _ _); reflexivity. }
  unfold on_added_node, bind. rewrite Hscript.
  unfold on_added_iframe. rewrite Hoff.
  destruct (has_tag _ _ _); [|reflexivity].
  destruct (getAttribute _ _ _); reflexivity.
Qed.

Lemma observer_callback_disabled_witness :
  observer_callback (ObsBlock ["youtube.com"]) [mkMutation [3; 4]]
    (setBlockingEnabled false (watching ["youtube.com"] orphan_batch_page))
  = Returned
      (setBlockingEnabled false (watching ["youtube.com"] orphan_batch_page))
      tt.
Proof.
  apply (observer_callback_disabled (ObsBlock ["youtube.com"])
           [mkMutation [3; 4]]
           (setBlockingEnabled false
              (watching ["youtube.com"] orphan_batch_page))).
  reflexivity.
Defined.

(** ** No double blocking *)

(** An iframe that is already blocked is skipped by the sweep and by the
    callback: its [src] is the neutral URL, so it is never wrapped twice. *)
Theorem blocked_iframe_is_left_alone (kws : list string) (w : world)
    (i : nat) (u : string) :
  has_tag (dom w) "IFRAME" i = true ->
  blocked_as (dom w) i u ->
  sweep_iframe kws i w = Returned w tt
  /\ on_added_node kws i w = Returned w tt.
Proof.
  intros Ht Hb. pose proof (blocked_not_matching kws _ _ _ Hb) as Hm.
  split.
  - unfold sweep_iframe. cbv zeta. rewrite (blocked_live_src w i u Hb).
    rewrite String.eqb_refl.
    destruct (blockingEnabled w); reflexivity.
  - unfold on_added_node, bind.
    rewrite on_added_script_not_script.
    2:{ destruct (has_tag (dom w) "SCRIPT" i) eqn:Hs; [|reflexivity].
        destruct (tag_clash _ _ Hs Ht). }
    apply on_added_iframe_skip. now rewrite Hm, andb_false_r.
Qed.

Lemma blocked_iframe_is_left_alone_witness :
  sweep_iframe ["youtube.com"] 3
    (world_of (blockTrackingScripts ["youtube.com"] (fresh_world sample_page)))
  = Returned
      (world_of (blockTrackingScripts ["youtube.com"]
                   (fresh_world sample_page))) tt.
Proof.
  refine (proj1 (blocked_iframe_is_left_alone ["youtube.com"]
                   (world_of (blockTrackingScripts ["youtube.com"]
                                (fresh_world sample_page)))
                   3 "https://youtube.com/embed/abc" _ _)).
  - vm_compute. reflexivity.
  - vm_compute. auto.
Defined.

(** ** Scripts inserted later *)

Lemma children_detach (n p : nat) (d : store) :
  parent_of d n = Some p ->
  children_of (detach n d) p = filter (fun c => c <> n) (children_of d p).
Proof.
  intros Hp. unfold detach. rewrite Hp. rewrite !children_of_lookup.
  rewrite view_alter_same by reflexivity.
  rewrite (view_alter children _ (filter (fun c => c <> n)))
    by reflexivity.
  rewrite list_lookup_alter_eq.
  destruct ((children <$> d) !! p); reflexivity.
Qed.

Lemma parent_of_detach (n : nat) (d : store) : parent_of (detach n d) n = None.
Proof.
  rewrite parent_of_lookup, parents_detach.
  destruct (decide (n < length (parent <$> d))) as [Hlt|Hge].
  - now rewrite list_lookup_insert_eq.
  - rewrite lookup_ge_None_2; [reflexivity|].
    rewrite length_insert. lia.
Qed.

(** A script that is inserted while blocking is on, and whose [src]
    attribute is non-empty and contains a keyword, is taken out of its
    parent by the callback: it has no parent afterwards and its former
    parent does not list it any more. *)
Theorem callback_removes_added_script (kws : list string) (w : world)
    (n p : nat) (src : string) :
  blockingEnabled w = true ->
  has_tag (dom w) "SCRIPT" n = true ->
  getAttribute (dom w) n "src" = Some src ->
  src <> "" -> some_includes kws src = true ->
  parent_of (dom w) n = Some p ->
  exists w',
    on_added_node kws n w = Returned w' tt
    /\ dom w' = detach n (dom w)
    /\ parent_of (dom w') n = None
    /\ ~ In n (children_of (dom w') p).
Proof.
  intros Hon Ht Hsrc Hne Hkw Hp.
  exists (over_dom (detach n) w).
  assert (Htruthy : truthy src = true).
  { unfold truthy. apply negb_true_iff. now apply String.eqb_neq. }
  split; [|split; [reflexivity|split]].
  - unfold on_added_node, bind, on_added_script.
    rewrite Ht, Hsrc, Hon, Htruthy, Hkw. cbn [andb].
    unfold on_added_iframe.
    destruct (has_tag (dom (over_dom (detach n) w)) "IFRAME" n) eqn:Hi;
      [|reflexivity].
    exfalso. apply (tag_clash (dom w) n Ht).
    rewrite (has_tag_same (dom (over_dom (detach n) w)) (dom w));
      [exact Hi|].
    unfold kind_at. cbn [over_dom with_dom dom].
    now rewrite view_detach by view_side.
  - cbn [over_dom with_dom dom]. apply parent_of_detach.
  - cbn [over_dom with_dom dom]. rewrite (children_detach n p) by exact Hp.
    rewrite <- list_elem_of_In, list_elem_of_filter. intros [Hn _].
    now apply Hn.
Qed.

Lemma callback_removes_added_script_witness :
  exists w',
    on_added_node ["track.example"] 4 (fresh_world sample_page)
    = Returned w' tt
    /\ dom w' = detach 4 sample_page
    /\ parent_of (dom w') 4 = None
    /\ ~ In 4 (children_of (dom w') 2).
Proof.
  apply (callback_removes_added_script ["track.example"]
           (fresh_world sample_page) 4 2 "https://track.example/x.js");
    try reflexivity.
  discriminate.
Defined.

(** ** Restoration is driven by the keywords *)

Lemma fold_left_fixed {A S} (f : S -> A -> S) (l : list A) (s : S) :
  (forall x, In x l -> f s x = s) -> fold_left f l s = s.
Proof.
  induction l as [|x rest IH]; intros Hfix; [reflexivity|].
  simpl. rewrite (Hfix x (or_introl eq_refl)).
  apply IH. intros y Hy. apply Hfix. now right.
Qed.

Lemma truthy_opt_Some (s : option string) (v : string) :
  truthy_opt s = Some v -> s = Some v /\ v <> "".
Proof.
  destruct s as [x|]; [|discriminate]. unfold truthy_opt.
  destruct (truthy x) eqn:Hx; [|discriminate].
  intros [= ->]. split; [reflexivity|]. now apply truthy_nonempty.
Qed.

Lemma unblock_iframe_still_matched (kws : list string) (i : nat) (d : store) :
  still_matched kws d -> unblock_iframe kws i d = d.
Proof.
  intros Hm. unfold unblock_iframe.
  destruct (getAttribute d i "data-original-src") as [u|] eqn:Hu;
    [|reflexivity].
  destruct (Hm i u (or_introl Hu)) as [->|Hk]; [reflexivity|].
  rewrite Hk. now destruct (negb (truthy u)).
Qed.

Lemma unblock_placeholder_still_matched (kws : list string) (p : nat)
    (d : store) :
  still_matched kws d -> unblock_placeholder kws p d = d.
Proof.
  intros Hm. unfold unblock_placeholder.
  destruct (parentElement d p) as [wr|]; [|reflexivity].
  assert (Hblocked : forall v,
            truthy_opt (getAttribute d p "data-blocked-src") = Some v ->
            some_includes kws v = true).
  { intros v Hv. apply truthy_opt_Some in Hv as [Hv Hne].
    destruct (Hm p v (or_intror Hv)) as [->|Hk]; [contradiction|exact Hk]. }
  destruct (querySelector d wr sel_iframe) as [i|].
  - destruct (truthy_opt (getAttribute d i "data-original-src"))
      as [v|] eqn:Hv.
    + apply truthy_opt_Some in Hv as [Hv Hne].
      destruct (Hm i v (or_introl Hv)) as [->|Hk]; [contradiction|].
      now rewrite Hk.
    + destruct (truthy_opt (getAttribute d p "data-blocked-src")) as [v|];
        [|reflexivity].
      now rewrite (Hblocked v eq_refl).
  - destruct (truthy_opt (getAttribute d p "data-blocked-src")) as [v|];
      [|reflexivity].
    now rewrite (Hblocked v eq_refl).
Qed.

(** When every URL recorded on the page is empty or still contains one of
    the current keywords, [unblockPreviouslyBlockedContent] restores nothing:
    the world it returns is the world it was given. *)
Theorem unblock_still_matched (kws : list string) (w : world) :
  still_matched kws (dom w) ->
  unblockPreviouslyBlockedContent kws w = w.
Proof.
  intros Hm. unfold unblockPreviouslyBlockedContent, over_dom, unblock_store.
  rewrite (fold_left_fixed (fun acc i => unblock_iframe kws i acc)).
  - rewrite fold_left_fixed; [now destruct w|].
    intros p _. now apply unblock_placeholder_still_matched.
  - intros i _. now apply unblock_iframe_still_matched.
Qed.

Lemma unblock_still_matched_witness :
  unblockPreviouslyBlockedContent ["youtube.com"]
    (fresh_world blocked_sample_page)
  = fresh_world blocked_sample_page.
Proof.
  refine (unblock_still_matched ["youtube.com"]
            (fresh_world blocked_sample_page) _).
  intros n u Hu.
  do 13 (destruct n as [|n];
         [vm_compute in Hu; destruct Hu as [Hu|Hu]; try discriminate;
          injection Hu as <-; right; reflexivity|]).
  vm_compute in Hu. destruct Hu as [Hu|Hu]; discriminate.
Defined.

(** ** Inline styles *)

Lemma lookup_apply_style (m : gmap string string) (pv : string * string)
    (k : string) :
  apply_style m pv !! k
  = if String.eqb (fst pv) k
    then (if String.eqb (snd pv) "" then None else Some (snd pv))
    else m !! k.
Proof.
  unfold apply_style. destruct (String.eqb_spec (fst pv) k) as [->|Hne].
  - destruct (String.eqb (snd pv) "").
    + apply lookup_delete_eq.
    + apply lookup_insert_eq.
  - destruct (String.eqb (snd pv) "").
    + now apply lookup_delete_ne.
    + now apply lookup_insert_ne.
Qed.

Lemma lookup_apply_styles (props : list (string * string))
    (m : gmap string string) (k : string) :
  apply_styles props m !! k
  = match assigned props k with Some r => r | None => m !! k end.
Proof.
  unfold apply_styles. revert m.
  induction props as [|pv rest IH]; intros m; [reflexivity|].
  cbn [fold_left assigned]. rewrite IH.
  destruct (assigned rest k); [reflexivity|].
  rewrite lookup_apply_style. now destruct (String.eqb (fst pv) k).
Qed.

Lemma assigned_keys (props : list (string * string)) (k : string) :
  assigned props k <> None <-> In k (map fst props).
Proof.
  induction props as [|pv rest IH]; [simpl; tauto|].
  cbn [assigned map In]. destruct (assigned rest k) as [r|].
  - split; [intros _; right; apply IH; discriminate|discriminate].
  - destruct (String.eqb_spec (fst pv) k) as [->|Hne].
    + split; [now left|discriminate].
    + split; [contradiction|]. intros [H|H]; [contradiction|].
      now apply IH in H.
Qed.

Lemma apply_styles_absorb (ps ps' : list (string * string))
    (m : gmap string string) :
  (forall k, In k (map fst ps') -> In k (map fst ps)) ->
  apply_styles ps (apply_styles ps' m) = apply_styles ps m.
Proof.
  intros Hkeys. apply map_eq. intros k. rewrite !lookup_apply_styles.
  destruct (assigned ps k) eqn:Hk; [reflexivity|].
  destruct (assigned ps' k) eqn:Hk'; [|reflexivity].
  exfalso. assert (Hin : In k (map fst ps'))
    by (apply assigned_keys; rewrite Hk'; discriminate).
  apply Hkeys, assigned_keys in Hin. contradiction.
Qed.

Lemma set_style_style (x : node) : set_style (style x) x = x.
Proof. now destruct x. Qed.

Lemma set_styles_alter (n : nat) (props : list (string * string))
    (d : store) :
  set_styles n props d
  = alter (fun x => set_style (apply_styles props (style x)) x) n d.
Proof.
  unfold set_styles, apply_styles. revert d.
  induction props as [|pv rest IH]; intros d.
  - cbn [fold_left]. symmetry. apply list_alter_id, set_style_style.
  - cbn [fold_left]. rewrite IH. unfold set_style_prop.
    rewrite list_alter_alter_eq. apply list_alter_ext; [|reflexivity].
    intros x _. reflexivity.
Qed.

Lemma set_styles_absorb (n : nat) (ps ps' : list (string * string))
    (d : store) :
  (forall k, In k (map fst ps') -> In k (map fst ps)) ->
  set_styles n ps (set_styles n ps' d) = set_styles n ps d.
Proof.
  intros Hkeys. rewrite !set_styles_alter, list_alter_alter_eq.
  apply list_alter_ext; [|reflexivity]. intros x _.
  unfold compose. cbn [style set_style].
  rewrite apply_styles_absorb by exact Hkeys. reflexivity.
Qed.

Lemma style_of_set_styles (n : nat) (props : list (string * string))
    (d : store) (k : nat) (p : string) :
  k < length d ->
  style_of (set_styles n props d) k p
  = if decide (n = k)
    then match assigned props p with
         | Some r => default "" r
         | None => style_of d k p
         end
    else style_of d k p.
Proof.
  intros Hk. unfold style_of. rewrite set_styles_alter.
  destruct (lookup_lt_is_Some_2 d k Hk) as [x Hx].
  destruct (decide (n = k)) as [->|Hne].
  - rewrite list_lookup_alter_eq, Hx. cbn [fmap option_fmap option_map style set_style].
    rewrite lookup_apply_styles. now destruct (assigned props p).
  - now rewrite list_lookup_alter_ne.
Qed.

(** [applyWrapperStyles] converges: a second call overrides the first
    altogether, so applying the same width and height twice is the same as
    applying them once. *)
Theorem applyWrapperStyles_last_wins (wrapper : nat)
    (width height width' height' : string) (d : store) :
  applyWrapperStyles wrapper width height
    (applyWrapperStyles wrapper width' height' d)
  = applyWrapperStyles wrapper width height d.
Proof.
  unfold applyWrapperStyles. apply set_styles_absorb.
  intros k Hk. exact Hk.
Qed.

Lemma assigned_value (props : list (string * string)) (k : string)
    (r : option string) :
  assigned props k = Some r ->
  exists v, In (k, v) props
            /\ r = (if String.eqb v "" then None else Some v).
Proof.
  induction props as [|[p v] rest IH]; [discriminate|].
  cbn [assigned fst snd]. destruct (assigned rest k) as [r'|].
  - intros [= <-]. destruct (IH eq_refl) as (v' & Hin & Hr).
    exists v'. split; [now right|exact Hr].
  - destruct (String.eqb_spec p k) as [->|Hne]; [|discriminate].
    intros [= <-]. exists v. split; [now left|reflexivity].
Qed.

Lemma assigned_cleared (k : string) (r : option string) :
  assigned cleared_iframe_styles k = Some r -> r = None.
Proof.
  intros Hr. apply assigned_value in Hr as (v & Hin & ->).
  assert (Hall : Forall (fun pv => snd pv = "") cleared_iframe_styles)
    by (repeat constructor).
  rewrite Forall_forall in Hall. specialize (Hall (k, v)).
  rewrite <- list_elem_of_In in Hin. specialize (Hall Hin).
  cbn [snd] in Hall. now subst v.
Qed.

Lemma list_alter_fixed {A} (f : A -> A) (l : list A) (i : nat) :
  (forall x, l !! i = Some x -> f x = x) -> alter f i l = l.
Proof.
  intros Hf. rewrite <- (list_alter_id id l i) at 2 by reflexivity.
  apply list_alter_ext; [exact Hf|reflexivity].
Qed.

(** What [unblockPreviouslyBlockedContent] does to an iframe it restores:
    [src] is the recorded URL, the marker and the record are gone, the nine
    positioning properties are unset whatever they were before blocking, and
    every other inline property is as it was. *)
Theorem restore_iframe_effect (i : nat) (u : string) (d : store) (p : string) :
  i < length d ->
  getAttribute (restore_iframe i u d) i "src" = Some u
  /\ getAttribute (restore_iframe i u d) i "data-cookie-blocked" = None
  /\ getAttribute (restore_iframe i u d) i "data-original-src" = None
  /\ (In p (map fst hidden_iframe_styles) ->
      style_of (restore_iframe i u d) i p = "")
  /\ (~ In p (map fst hidden_iframe_styles) ->
      style_of (restore_iframe i u d) i p = style_of d i p).
Proof.
  intros Hi. destruct (lookup_lt_is_Some_2 d i Hi) as [x Hx].
  assert (Hattrs : attrs_at (restore_iframe i u d) i
                   = Some (delete "data-original-src"
                             (delete "data-cookie-blocked"
                                (<["src" := u]> (attrs x))))).
  { unfold attrs_at, restore_iframe.
    rewrite view_set_styles by view_side.
    rewrite !attrs_removeAttribute, attrs_setAttribute.
    rewrite !list_lookup_alter_eq, list_lookup_fmap, Hx. reflexivity. }
  rewrite !getAttribute_at, Hattrs. cbn [mbind option_bind].
  split; [|split; [|split; [|split]]].
  - rewrite !lookup_delete_ne by discriminate. apply lookup_insert_eq.
  - rewrite lookup_delete_ne by discriminate. apply lookup_delete_eq.
  - apply lookup_delete_eq.
  - intros Hp. unfold restore_iframe.
    rewrite style_of_set_styles
      by now rewrite !length_removeAttribute, length_setAttribute.
    rewrite decide_True by reflexivity.
    destruct (assigned cleared_iframe_styles p) as [r|] eqn:Hr.
    + now rewrite (assigned_cleared p r Hr).
    + exfalso. apply (proj2 (assigned_keys cleared_iframe_styles p));
        [exact Hp|exact Hr].
  - intros Hp. unfold restore_iframe.
    rewrite style_of_set_styles
      by now rewrite !length_removeAttribute, length_setAttribute.
    rewrite decide_True by reflexivity.
    destruct (assigned cleared_iframe_styles p) as [r|] eqn:Hr.
    + exfalso. apply Hp.
      apply (proj1 (assigned_keys cleared_iframe_styles p)).
      rewrite Hr. discriminate.
    + unfold style_of, removeAttribute, setAttribute.
      rewrite !list_lookup_alter_eq, Hx. reflexivity.
Qed.

Lemma restore_iframe_effect_witness :
  getAttribute (restore_iframe 3 "https://youtube.com/embed/abc"
                  blocked_sample_page) 3 "src"
  = Some "https://youtube.com/embed/abc"
  /\ style_of (restore_iframe 3 "https://youtube.com/embed/abc"
                 blocked_sample_page) 3 "width" = "".
Proof.
  destruct (restore_iframe_effect 3 "https://youtube.com/embed/abc"
              blocked_sample_page "width")
    as (Hsrc & _ & _ & Hstyle & _).
  - vm_compute. lia.
  - split; [exact Hsrc|]. apply Hstyle. vm_compute. tauto.
Defined.

(** Hiding an iframe and clearing it again is a round trip on its inline
    style when none of the nine positioning properties was set beforehand;
    nothing but that style is involved. *)
Theorem hide_then_clear_styles (i : nat) (d : store) :
  (forall x p, d !! i = Some x -> In p (map fst hidden_iframe_styles) ->
               style x !! p = None) ->
  set_styles i cleared_iframe_styles (positionIframeAbsolutely i d) = d.
Proof.
  intros Hunset. unfold positionIframeAbsolutely.
  rewrite set_styles_absorb by (intros k Hk; exact Hk).
  rewrite set_styles_alter. apply list_alter_fixed. intros x Hx.
  assert (Hm : apply_styles cleared_iframe_styles (style x) = style x).
  { apply map_eq. intros k. rewrite lookup_apply_styles.
    destruct (assigned cleared_iframe_styles k) as [r|] eqn:Hr;
      [|reflexivity].
    rewrite (assigned_cleared k r Hr). symmetry. apply (Hunset x k Hx).
    apply (proj1 (assigned_keys cleared_iframe_styles k)).
    rewrite Hr. discriminate. }
  rewrite Hm. apply set_style_style.
Qed.

Lemma hide_then_clear_styles_witness :
  set_styles 3 cleared_iframe_styles (positionIframeAbsolutely 3 sample_page)
  = sample_page.
Proof.
  apply (hide_then_clear_styles 3 sample_page).
  intros x p [= <-] _. reflexivity.
Defined.

(** ** Writes *)

Lemma apply_styles_app (ps qs : list (string * string))
    (m : gmap string string) :
  apply_styles (ps ++ qs) m = apply_styles qs (apply_styles ps m).
Proof. unfold apply_styles. apply fold_left_app. Qed.

Section Writes.
Variable r : string -> string.

Lemma node_src_neutral (k : node_kind) (a st : gmap string string)
    (tx : string) (pa : option nat) (ch : list nat)
    (li : list (string * handler)) :
  node_src r (mkNode k (<["src" := about_blank]> a) st tx pa ch li)
  = about_blank.
Proof.
  unfold node_src. cbn [attrs]. rewrite lookup_insert_eq.
  now rewrite String.eqb_refl.
Qed.

Lemma run_write_merge (a b : node_write) (x : node) :
  run_write r (merge_writes a b) x = run_write r b (run_write r a x).
Proof.
  destruct a as [sa na], b as [sb nb], x as [k at_ st tx pa ch li].
  unfold run_write, merge_writes.
  cbn [nw_styles nw_neutral style attrs].
  rewrite apply_styles_app.
  assert (Hst : forall s', node_src r (mkNode k at_ s' tx pa ch li)
                           = node_src r (mkNode k at_ st tx pa ch li))
    by reflexivity.
  destruct (String.eqb (node_src r (mkNode k at_ st tx pa ch li)) about_blank)
    eqn:Hsrc; cbn [negb]; rewrite ?andb_false_r, ?andb_true_r.
  - unfold set_style, set_attrs.
    cbn [style attrs kind text parent children listeners].
    rewrite Hst, Hsrc. cbn [negb]. rewrite andb_false_r. reflexivity.
  - destruct na; cbn [orb]; unfold set_style, set_attrs;
      cbn [style attrs kind text parent children listeners].
    + rewrite node_src_neutral, String.eqb_refl. cbn [negb].
      rewrite andb_false_r. reflexivity.
    + rewrite Hst, Hsrc. cbn [negb]. rewrite andb_true_r.
      now destruct nb.
Qed.

Lemma run_write_twice (a : node_write) (x : node) :
  run_write r a (run_write r a x) = run_write r a x.
Proof.
  rewrite <- run_write_merge.
  destruct a as [sa na], x as [k at_ st tx pa ch li].
  unfold run_write, merge_writes.
  cbn [nw_styles nw_neutral style attrs set_style set_attrs kind text parent
       children listeners].
  rewrite orb_diag, apply_styles_app.
  rewrite apply_styles_absorb by (intros p Hp; exact Hp).
  reflexivity.
Qed.

Lemma run_write_nothing (x : node) : run_write r (mkWrite [] false) x = x.
Proof. now destruct x. Qed.

Lemma apply_writes_lookup (ws : list (nat * node_write)) (d : store)
    (k : nat) :
  apply_writes r ws d !! k = run_write r (collect_writes ws k) <$> d !! k.
Proof.
  unfold apply_writes. revert d.
  induction ws as [|[n a] rest IH]; intros d.
  - cbn [fold_left collect_writes]. destruct (d !! k) as [x|]; [|reflexivity].
    cbn [fmap option_fmap option_map]. now rewrite run_write_nothing.
  - cbn [fold_left collect_writes fst snd]. rewrite IH.
    destruct (Nat.eqb_spec n k) as [->|Hne].
    + rewrite list_lookup_alter_eq. destruct (d !! k) as [x|]; [|reflexivity].
      cbn [fmap option_fmap option_map]. now rewrite run_write_merge.
    + now rewrite list_lookup_alter_ne.
Qed.

Lemma apply_writes_twice (ws : list (nat * node_write)) (d : store) :
  apply_writes r ws (apply_writes r ws d) = apply_writes r ws d.
Proof.
  apply list_eq. intros k. rewrite !apply_writes_lookup.
  destruct (d !! k) as [x|]; [|reflexivity].
  cbn [fmap option_fmap option_map]. now rewrite run_write_twice.
Qed.

Lemma apply_writes_app (ws vs : list (nat * node_write)) (d : store) :
  apply_writes r (ws ++ vs) d = apply_writes r vs (apply_writes r ws d).
Proof. unfold apply_writes. apply fold_left_app. Qed.

Lemma shape_run_write (a : node_write) (x : node) :
  shape (run_write r a x) = shape x.
Proof.
  destruct a as [sa na], x as [k at_ st tx pa ch li]. unfold run_write, shape.
  destruct (_ && _); cbn [nw_neutral kind attrs text parent children listeners
                          set_style set_attrs]; [|reflexivity].
  now rewrite delete_insert_eq.
Qed.

Lemma same_shape_apply_writes (ws : list (nat * node_write)) (d : store) :
  same_shape (apply_writes r ws d) d.
Proof.
  unfold same_shape. apply list_eq. intros k.
  rewrite !list_lookup_fmap, apply_writes_lookup.
  destruct (d !! k) as [x|]; [|reflexivity].
  cbn [fmap option_fmap option_map]. now rewrite shape_run_write.
Qed.
End Writes.

(** ** What the shape of the store determines *)

Section Shape.
Variables d d' : store.
Hypothesis Hs : same_shape d d'.

Lemma shape_length : length d = length d'.
Proof.
  rewrite <- (length_fmap shape d), <- (length_fmap shape d'). now rewrite Hs.
Qed.

Lemma shape_lookup (k : nat) : shape <$> d !! k = shape <$> d' !! k.
Proof. rewrite <- !list_lookup_fmap. now rewrite Hs. Qed.

Lemma shape_fields (k : nat) (x : node) :
  d !! k = Some x ->
  exists x', d' !! k = Some x' /\ shape x = shape x'.
Proof.
  intros Hx. pose proof (shape_lookup k) as H. rewrite Hx in H.
  destruct (d' !! k) as [x'|]; [|discriminate].
  cbn [fmap option_fmap option_map] in H.
  exists x'. split; [reflexivity|]. apply (inj Some). exact H.
Qed.

Lemma shape_none (k : nat) : d !! k = None -> d' !! k = None.
Proof.
  intros Hx. pose proof (shape_lookup k) as H. rewrite Hx in H.
  now destruct (d' !! k).
Qed.

Lemma children_of_shape (k : nat) : children_of d k = children_of d' k.
Proof.
  unfold children_of. destruct (d !! k) as [x|] eqn:Hx.
  - destruct (shape_fields k x Hx) as (x' & -> & H).
    unfold shape in H. now injection H.
  - now rewrite (shape_none k Hx).
Qed.

Lemma parent_of_shape (k : nat) : parent_of d k = parent_of d' k.
Proof.
  unfold parent_of. destruct (d !! k) as [x|] eqn:Hx.
  - destruct (shape_fields k x Hx) as (x' & -> & H).
    unfold shape in H. now injection H.
  - now rewrite (shape_none k Hx).
Qed.

Lemma has_tag_shape (t : string) (k : nat) : has_tag d t k = has_tag d' t k.
Proof.
  unfold has_tag. destruct (d !! k) as [x|] eqn:Hx.
  - destruct (shape_fields k x Hx) as (x' & -> & H).
    unfold shape in H. injection H as Hk _ _ _ _ _. now rewrite Hk.
  - now rewrite (shape_none k Hx).
Qed.

Lemma is_element_shape (k : nat) : is_element d k = is_element d' k.
Proof.
  unfold is_element. destruct (d !! k) as [x|] eqn:Hx.
  - destruct (shape_fields k x Hx) as (x' & -> & H).
    unfold shape in H. injection H as Hk _ _ _ _ _. now rewrite Hk.
  - now rewrite (shape_none k Hx).
Qed.

Lemma text_shape (k : nat) : text <$> d !! k = text <$> d' !! k.
Proof.
  destruct (d !! k) as [x|] eqn:Hx.
  - destruct (shape_fields k x Hx) as (x' & -> & H).
    unfold shape in H. injection H as _ _ Ht _ _ _.
    cbn [fmap option_fmap option_map]. now rewrite Ht.
  - now rewrite (shape_none k Hx).
Qed.

Lemma getAttribute_shape (k : nat) (a : string) :
  a <> "src" -> getAttribute d k a = getAttribute d' k a.
Proof.
  intros Ha. unfold getAttribute. destruct (d !! k) as [x|] eqn:Hx.
  - destruct (shape_fields k x Hx) as (x' & -> & H).
    unfold shape in H. injection H as _ Hat _ _ _ _.
    rewrite <- (lookup_delete_ne (attrs x) "src" a) by congruence.
    rewrite Hat. apply lookup_delete_ne. congruence.
  - now rewrite (shape_none k Hx).
Qed.

Lemma parentElement_shape (k : nat) : parentElement d k = parentElement d' k.
Proof.
  unfold parentElement. rewrite parent_of_shape.
  destruct (parent_of d' k); [|reflexivity]. now rewrite is_element_shape.
Qed.

Lemma subtree_within_shape (fuel : nat) (ns : list nat) :
  subtree_within fuel d ns = subtree_within fuel d' ns.
Proof.
  revert ns. induction fuel as [|fuel IH]; intros ns; [reflexivity|].
  cbn [subtree_within]. induction ns as [|n rest IHns]; [reflexivity|].
  cbn [flat_map]. now rewrite IHns, children_of_shape, IH.
Qed.

Lemma descendants_shape (n : nat) : descendants d n = descendants d' n.
Proof.
  unfold descendants. now rewrite shape_length, children_of_shape,
    subtree_within_shape.
Qed.

Lemma querySelectorAll_shape (root : nat) (sel : store -> nat -> bool) :
  (forall n, sel d n = sel d' n) ->
  querySelectorAll d root sel = querySelectorAll d' root sel.
Proof.
  intros Hsel. unfold querySelectorAll. rewrite descendants_shape.
  apply list_filter_iff. intros n. now rewrite Hsel.
Qed.

Lemma attr_is_shape (a v : string) (n : nat) :
  a <> "src" -> attr_is a v d n = attr_is a v d' n.
Proof.
  intros Ha. unfold attr_is.
  now rewrite is_element_shape, (getAttribute_shape n a Ha).
Qed.

Lemma has_class_shape (c : string) (n : nat) :
  has_class c d n = has_class c d' n.
Proof.
  unfold has_class.
  now rewrite is_element_shape, (getAttribute_shape n "class") by discriminate.
Qed.

Lemma hasAttribute_shape (n : nat) (a : string) :
  a <> "src" -> hasAttribute d n a = hasAttribute d' n a.
Proof. intros Ha. unfold hasAttribute. now rewrite getAttribute_shape. Qed.

Lemma stable_content_shape (wrapper : nat) :
  stable_content d wrapper = stable_content d' wrapper.
Proof.
  unfold stable_content, querySelector.
  rewrite (querySelectorAll_shape wrapper sel_wrapper_content)
    by (intros n; apply has_class_shape).
  rewrite descendants_shape. f_equal.
  induction (descendants d' wrapper) as [|m rest IH]; [reflexivity|].
  cbn [existsb]. rewrite IH. f_equal.
  pose proof (text_shape m) as Ht.
  destruct (d !! m), (d' !! m); try discriminate; [|reflexivity].
  cbn [fmap option_fmap option_map] in Ht. injection Ht as Ht. now rewrite Ht.
Qed.

Lemma writes_for_shape (p : nat) : writes_for d p = writes_for d' p.
Proof.
  unfold writes_for. rewrite is_element_shape, parentElement_shape.
  destruct (is_element d' p); [|reflexivity]. f_equal.
  destruct (parentElement d' p) as [wr|]; [|reflexivity]. f_equal.
  unfold querySelector.
  rewrite (querySelectorAll_shape wr sel_iframe)
    by (intros n; apply has_tag_shape).
  destruct (head _) as [i|]; [|reflexivity].
  now rewrite (hasAttribute_shape i "data-original-src") by discriminate.
Qed.

Lemma placeholders_shape :
  querySelectorAll d document sel_placeholder
  = querySelectorAll d' document sel_placeholder.
Proof.
  apply querySelectorAll_shape. intros n. now apply attr_is_shape.
Qed.
End Shape.

Lemma same_shape_sym (d d' : store) : same_shape d d' -> same_shape d' d.
Proof. unfold same_shape. congruence. Qed.

Lemma same_shape_trans (d1 d2 d3 : store) :
  same_shape d1 d2 -> same_shape d2 d3 -> same_shape d1 d3.
Proof. unfold same_shape. congruence. Qed.

(** ** ensurePlaceholdersVisible when the markup is in place *)

Lemma over_dom_id (w : world) : over_dom (fun d => d) w = w.
Proof. now destruct w. Qed.

Lemma over_dom_over_dom (f g : store -> store) (w : world) :
  over_dom g (over_dom f w) = over_dom (fun d => g (f d)) w.
Proof. reflexivity. Qed.

Lemma set_styles_as_write (r : string -> string) (n : nat)
    (ps : list (string * string)) (d : store) :
  set_styles n ps d = apply_writes r [(n, mkWrite ps false)] d.
Proof. rewrite set_styles_alter. reflexivity. Qed.

Lemma src_property_node (r : string -> string) (d : store) (i : nat)
    (x : node) :
  d !! i = Some x -> src_property r d i = node_src r x.
Proof.
  intros Hx. unfold src_property, node_src, getAttribute. now rewrite Hx.
Qed.

Lemma neutralise_as_write (r : string -> string) (i : nat) (d : store) :
  neutralise_iframe r i d
  = apply_writes r
      [(i, mkWrite hidden_iframe_styles
             (hasAttribute d i "data-original-src"))] d.
Proof.
  unfold neutralise_iframe, positionIframeAbsolutely.
  assert (Hrec : hasAttribute (set_styles i hidden_iframe_styles d) i
                   "data-original-src"
                 = hasAttribute d i "data-original-src").
  { unfold hasAttribute.
    rewrite (getAttribute_same d (set_styles i hidden_iframe_styles d));
      [reflexivity|].
    unfold attrs_at. now rewrite view_set_styles by view_side. }
  assert (Hsrc : src_property r (set_styles i hidden_iframe_styles d) i
                 = src_property r d i).
  { apply src_property_same. unfold attrs_at.
    now rewrite view_set_styles by view_side. }
  rewrite Hrec, Hsrc. rewrite set_styles_alter.
  cbn [apply_writes fold_left fst snd].
  destruct (negb (String.eqb (src_property r d i) about_blank)
            && hasAttribute d i "data-original-src") eqn:Hc.
  - unfold setAttribute. rewrite list_alter_alter_eq.
    apply list_alter_ext; [|reflexivity]. intros x Hx.
    unfold run_write. cbn [nw_styles nw_neutral].
    rewrite <- (src_property_node r d i x Hx), andb_comm, Hc.
    now destruct x.
  - apply list_alter_ext; [|reflexivity]. intros x Hx.
    unfold run_write. cbn [nw_styles nw_neutral].
    rewrite <- (src_property_node r d i x Hx), andb_comm, Hc.
    reflexivity.
Qed.

Lemma stable_has_content (d : store) (wrapper : nat) :
  stable_content d wrapper = true ->
  bool_decide (querySelector d wrapper sel_wrapper_content <> None)
  || innerHTML_includes d wrapper "Content Blocked" = true.
Proof.
  unfold stable_content, innerHTML_includes.
  destruct (bool_decide _); [reflexivity|]. cbn [orb].
  rewrite !existsb_exists. intros (m & Hin & Hm). exists m.
  split; [exact Hin|]. destruct (d !! m) as [x|]; [|discriminate].
  unfold node_mentions. now rewrite Hm.
Qed.

Lemma ensure_placeholder_writes (p : nat) (w : world) :
  (forall wrapper, parentElement (dom w) p = Some wrapper ->
                   stable_content (dom w) wrapper = true) ->
  ensure_placeholder p w
  = over_dom (apply_writes (resolve w) (writes_for (dom w) p)) w.
Proof.
  intros Hstable. unfold ensure_placeholder, writes_for.
  destruct (is_element (dom w) p);
    [|cbn [apply_writes fold_left]; now rewrite over_dom_id].
  set (d1 := set_styles p visible_styles (dom w)).
  assert (Hs1 : same_shape d1 (dom w)).
  { subst d1. rewrite (set_styles_as_write (resolve w)).
    apply same_shape_apply_writes. }
  change (dom (over_dom (set_styles p visible_styles) w)) with d1.
  rewrite (parentElement_shape d1 (dom w) Hs1).
  destruct (parentElement (dom w) p) as [wr|] eqn:Hp.
  2:{ unfold over_dom. subst d1.
      now rewrite (set_styles_as_write (resolve w)). }
  set (d2 := applyWrapperStyles wr "100%" "315px" d1).
  assert (Hs2 : same_shape d2 (dom w)).
  { subst d2. unfold applyWrapperStyles.
    rewrite (set_styles_as_write (resolve w)).
    eapply same_shape_trans; [apply same_shape_apply_writes|exact Hs1]. }
  change (dom (over_dom (applyWrapperStyles wr "100%" "315px")
                 (over_dom (set_styles p visible_styles) w))) with d2.
  rewrite stable_has_content
    by (rewrite (stable_content_shape d2 (dom w) Hs2); now apply Hstable).
  cbn [negb].
  change (dom (over_dom (applyWrapperStyles wr "100%" "315px")
                 (over_dom (set_styles p visible_styles) w))) with d2.
  assert (Hq : querySelector d2 wr sel_iframe
               = querySelector (dom w) wr sel_iframe).
  { unfold querySelector. f_equal. apply querySelectorAll_shape; [exact Hs2|].
    intros n. now apply has_tag_shape. }
  rewrite Hq. destruct (querySelector (dom w) wr sel_iframe) as [i|].
  - rewrite !over_dom_over_dom. unfold over_dom. f_equal.
    cbn [resolve with_dom]. rewrite neutralise_as_write.
    rewrite (hasAttribute_shape d2 (dom w) Hs2) by discriminate.
    subst d2 d1. unfold applyWrapperStyles.
    now rewrite !(set_styles_as_write (resolve w)).
  - rewrite !over_dom_over_dom. unfold over_dom. f_equal.
    subst d2 d1. unfold applyWrapperStyles.
    now rewrite !(set_styles_as_write (resolve w)).
Qed.

Lemma ensure_fold_writes (d0 : store) (l : list nat) (w : world) :
  same_shape (dom w) d0 ->
  (forall p wrapper, In p l -> parentElement d0 p = Some wrapper ->
                     stable_content d0 wrapper = true) ->
  fold_left (fun acc p => ensure_placeholder p acc) l w
  = over_dom (apply_writes (resolve w) (concat (map (writes_for d0) l))) w.
Proof.
  revert w. induction l as [|p rest IH]; intros w Hs Hstable.
  - cbn [fold_left map concat apply_writes]. now rewrite over_dom_id.
  - cbn [fold_left map concat]. rewrite ensure_placeholder_writes.
    2:{ intros wr Hwr. rewrite (parentElement_shape _ _ Hs) in Hwr.
        rewrite (stable_content_shape _ _ Hs).
        eapply Hstable; [now left|exact Hwr]. }
    rewrite (writes_for_shape _ _ Hs). rewrite IH.
    + rewrite over_dom_over_dom. unfold over_dom. f_equal.
      cbn [resolve with_dom]. now rewrite apply_writes_app.
    + cbn [over_dom with_dom dom].
      eapply same_shape_trans; [apply same_shape_apply_writes|exact Hs].
    + intros q wr Hq. apply Hstable. now right.
Qed.

Lemma ensure_as_writes (w : world) :
  markup_in_place (dom w) ->
  ensurePlaceholdersVisible w
  = over_dom
      (apply_writes (resolve w)
         (concat (map (writes_for (dom w))
                    (querySelectorAll (dom w) document sel_placeholder)))) w.
Proof.
  intros Hm. unfold ensurePlaceholdersVisible.
  destruct (querySelectorAll (dom w) document sel_placeholder) as [|p l] eqn:Hl.
  - cbn. now rewrite over_dom_id.
  - cbn [length Nat.ltb Nat.leb]. rewrite <- Hl. apply ensure_fold_writes.
    + reflexivity.
    + intros q wr Hq. now apply Hm.
Qed.

(** Where no wrapper has to be rebuilt, the pass is idempotent: when every
    marker of the document sits in a wrapper whose placeholder markup is in
    place (an element of the content class, or the title in the character
    data of a descendant), a second call of [ensurePlaceholdersVisible]
    leaves the world exactly as the first call left it. *)
Theorem ensurePlaceholdersVisible_idempotent (w : world) :
  markup_in_place (dom w) ->
  ensurePlaceholdersVisible (ensurePlaceholdersVisible w)
  = ensurePlaceholdersVisible w.
Proof.
  intros Hm. rewrite (ensure_as_writes w Hm).
  set (ws := concat (map (writes_for (dom w))
                       (querySelectorAll (dom w) document sel_placeholder))).
  assert (Hs : same_shape (dom (over_dom (apply_writes (resolve w) ws) w))
                  (dom w))
    by apply same_shape_apply_writes.
  rewrite ensure_as_writes.
  - rewrite (placeholders_shape _ _ Hs).
    assert (Hw : map (writes_for
                        (dom (over_dom (apply_writes (resolve w) ws) w)))
                   (querySelectorAll (dom w) document sel_placeholder)
                 = map (writes_for (dom w))
                     (querySelectorAll (dom w) document sel_placeholder)).
    { apply map_ext. intros p. now apply writes_for_shape. }
    rewrite Hw. fold ws. rewrite over_dom_over_dom. unfold over_dom.
    f_equal. apply apply_writes_twice.
  - intros p wr Hp Hwr.
    rewrite (placeholders_shape _ _ Hs) in Hp.
    rewrite (parentElement_shape _ _ Hs) in Hwr.
    rewrite (stable_content_shape _ _ Hs). exact (Hm p wr Hp Hwr).
Qed.

Lemma ensurePlaceholdersVisible_idempotent_witness :
  ensurePlaceholdersVisible
    (ensurePlaceholdersVisible (fresh_world blocked_sample_page))
  = ensurePlaceholdersVisible (fresh_world blocked_sample_page).
Proof.
  apply (ensurePlaceholdersVisible_idempotent
           (fresh_world blocked_sample_page)).
  intros p wr Hp Hwr. vm_compute in Hp. destruct Hp as [<-|[]].
  vm_compute in Hwr. injection Hwr as <-. vm_compute. reflexivity.
Defined.

(** C5 fails on [nested_page], by a slip of the rebuilding path: lines
    281-283 assign [innerHTML], which takes the inner wrapper's iframe (node
    7) out of the tree, and lines 287-305, which are meant to re-append that
    iframe, look it up in the wrapper after the assignment and find none.
    The iframe is lost, so the second call finds another first iframe in the
    outer wrapper (node 9) and hides it: the state after the second call is
    not the state after the first. *)
Lemma nested_wrappers_not_idempotent :
  dom (ensurePlaceholdersVisible
         (ensurePlaceholdersVisible (fresh_world nested_page)))
  <> dom (ensurePlaceholdersVisible (fresh_world nested_page)).
Proof.
  intros H. apply (f_equal (fun d => style_of d 9 "position")) in H.
  vm_compute in H. discriminate.
Qed.

(** With the markup in place, [ensurePlaceholdersVisible] only writes inline
    styles and the [src] attribute: no node is created, moved or detached, no
    other attribute, no text and no event listener changes, and [Math.random]
    is not consulted. *)
Theorem ensurePlaceholdersVisible_keeps_shape (w : world) :
  markup_in_place (dom w) ->
  same_shape (dom (ensurePlaceholdersVisible w)) (dom w)
  /\ draws (ensurePlaceholdersVisible w) = draws w
  /\ registry (ensurePlaceholdersVisible w) = registry w
  /\ blockingEnabled (ensurePlaceholdersVisible w) = blockingEnabled w.
Proof.
  intros Hm. rewrite (ensure_as_writes w Hm).
  split; [apply same_shape_apply_writes|]. repeat split.
Qed.

Lemma ensurePlaceholdersVisible_keeps_shape_witness :
  same_shape
    (dom (ensurePlaceholdersVisible (fresh_world blocked_sample_page)))
    blocked_sample_page.
Proof.
  apply (ensurePlaceholdersVisible_keeps_shape
           (fresh_world blocked_sample_page)).
  intros p wr Hp Hwr. vm_compute in Hp. destruct Hp as [<-|[]].
  vm_compute in Hwr. injection Hwr as <-. vm_compute. reflexivity.
Defined.

(** ** Unwrapping one iframe *)

Lemma children_detach_view (n p : nat) (d : store) :
  parent_of d n = Some p ->
  children <$> detach n d
  = alter (filter (fun c => c <> n)) p (children <$> d).
Proof.
  intros Hp. unfold detach. rewrite Hp.
  rewrite view_alter_same by reflexivity.
  now apply view_alter.
Qed.

Lemma children_replaceChild (g i w wp : nat) (d d' : store) :
  replaceChild g i w d = Some d' ->
  parent_of d i = Some wp ->
  children <$> d'
  = alter (replace_in w i) g
      (alter (filter (fun c => c <> i)) wp (children <$> d)).
Proof.
  unfold replaceChild. destruct (inclusive_ancestor _ _ _); [discriminate|].
  destruct (negb _); [discriminate|]. intros [= <-] Hp.
  rewrite !view_alter_same by reflexivity.
  rewrite (view_alter children _ (replace_in w i)) by reflexivity.
  now rewrite (children_detach_view i wp).
Qed.

Lemma replaceChild_succeeds (g i w : nat) (d : store) :
  inclusive_ancestor d i g = false ->
  parent_of d w = Some g ->
  exists d', replaceChild g i w d = Some d'.
Proof.
  intros Ha Hp. unfold replaceChild. rewrite Ha.
  rewrite bool_decide_eq_true_2 by exact Hp. cbn [negb]. eauto.
Qed.

Lemma ancestor_within_parents (fuel : nat) (d d' : store) (a n : nat) :
  (forall k, parent_of d' k = parent_of d k) ->
  ancestor_within fuel d' a n = ancestor_within fuel d a n.
Proof.
  intros Hp. revert n. induction fuel as [|fuel IH]; intros n; [reflexivity|].
  cbn [ancestor_within]. rewrite Hp. destruct (parent_of d n); [|reflexivity].
  now rewrite IH.
Qed.

Lemma ancestor_within_height (h : nat -> nat) (d : store) :
  (forall n p, parent_of d n = Some p -> h n < h p) ->
  forall fuel a n, ancestor_within fuel d a n = true -> h n <= h a.
Proof.
  intros Hh fuel. induction fuel as [|fuel IH]; intros a n; cbn [ancestor_within].
  - rewrite orb_false_r. intros ->%Nat.eqb_eq. lia.
  - intros [->%Nat.eqb_eq|H]%orb_true_iff; [lia|].
    destruct (parent_of d n) as [p|] eqn:Hp; [|discriminate].
    specialize (IH a p H). specialize (Hh n p Hp). lia.
Qed.

Lemma parentElement_Some (d : store) (n p : nat) :
  parentElement d n = Some p <-> parent_of d n = Some p /\ is_element d p = true.
Proof.
  unfold parentElement. destruct (parent_of d n) as [q|].
  - destruct (is_element d q) eqn:Hq.
    + split; [intros [= <-]; auto|intros [[= <-] _]; reflexivity].
    + split; [discriminate|intros [[= <-] H]; congruence].
  - split; [discriminate|intros [H _]; discriminate].
Qed.

Lemma parent_of_same (d d' : store) (k : nat) :
  parent_at d' k = parent_at d k -> parent_of d' k = parent_of d k.
Proof. intros H. rewrite !parent_of_lookup. unfold parent_at in H. now rewrite H. Qed.

Lemma children_of_same (d d' : store) (k : nat) :
  (children <$> d') !! k = (children <$> d) !! k ->
  children_of d' k = children_of d k.
Proof. intros H. rewrite !children_of_lookup. now rewrite H. Qed.

Lemma is_element_same (d d' : store) (k : nat) :
  kind <$> d' = kind <$> d -> is_element d' k = is_element d k.
Proof. intros H. rewrite !is_element_lookup. now rewrite H. Qed.

Lemma style_of_same (d d' : store) (k : nat) (p : string) :
  (style <$> d') !! k = (style <$> d) !! k -> style_of d' k p = style_of d k p.
Proof.
  intros H. unfold style_of. rewrite !list_lookup_fmap in H.
  destruct (d' !! k), (d !! k); try discriminate; [|reflexivity].
  cbn [fmap option_fmap option_map] in H. apply (inj Some) in H.
  now rewrite H.
Qed.

Lemma view_restore_iframe {B} (v : node -> B) (i : nat) (u : string)
    (d : store) :
  (forall at_ x, v (set_attrs at_ x) = v x) ->
  (forall st x, v (set_style st x) = v x) ->
  v <$> restore_iframe i u d = v <$> d.
Proof.
  intros Ha Hst. unfold restore_iframe.
  rewrite view_set_styles by exact Hst.
  rewrite !view_removeAttribute by exact Ha.
  now apply view_setAttribute.
Qed.

Lemma parentElement_views (d d' : store) (k : nat) :
  parent <$> d' = parent <$> d -> kind <$> d' = kind <$> d ->
  parentElement d' k = parentElement d k.
Proof.
  intros Hp Hk. rewrite !parentElement_at. unfold parent_at, kind_at.
  now rewrite Hp, Hk.
Qed.

Lemma getAttribute_bound (d : store) (n : nat) (a v : string) :
  getAttribute d n a = Some v -> n < length d.
Proof.
  unfold getAttribute. destruct (d !! n) eqn:Hn; [|discriminate].
  intros _. eapply lookup_lt_Some, Hn.
Qed.

Lemma styles_restore_other (i : nat) (u : string) (d : store) (n : nat) :
  n <> i -> (style <$> restore_iframe i u d) !! n = (style <$> d) !! n.
Proof.
  intros Hne. unfold restore_iframe. rewrite set_styles_alter.
  rewrite (view_alter style _ (apply_styles cleared_iframe_styles))
    by reflexivity.
  rewrite list_lookup_alter_ne by congruence.
  now rewrite !view_removeAttribute, view_setAttribute by view_side.
Qed.

Lemma attrs_restore (i : nat) (u : string) (d : store) :
  attrs <$> restore_iframe i u d
  = alter (fun m => delete "data-original-src"
                      (delete "data-cookie-blocked" (<["src" := u]> m)))
      i (attrs <$> d).
Proof.
  unfold restore_iframe. rewrite view_set_styles by view_side.
  rewrite !attrs_removeAttribute, attrs_setAttribute.
  now rewrite !list_alter_alter_eq.
Qed.

(** The primary pass, on one iframe whose record is non-empty and matched by
    no keyword, and which sits in a wrapper element [w] under an element
    [g]: the iframe is restored and takes the wrapper's place. *)
Lemma unblock_iframe_unwraps (kws : list string) (d : store) (x : nat)
    (u : string) (w g : nat) :
  getAttribute d x "data-original-src" = Some u ->
  truthy u = true -> some_includes kws u = false ->
  parentElement d x = Some w -> parentElement d w = Some g ->
  inclusive_ancestor d x g = false ->
  x <> w -> w <> g ->
  unwrapped x u w g d (unblock_iframe kws x d).
Proof.
  intros Hrec Htr Hkw Hw Hg Hanc Hxw Hwg.
  pose proof (getAttribute_bound _ _ _ _ Hrec) as Hx.
  apply parentElement_Some in Hw as [Hpw Hew].
  apply parentElement_Some in Hg as [Hpg Heg].
  pose proof (is_element_bound _ _ Hew) as Hwlt.
  set (d1 := restore_iframe x u d).
  assert (Hk1 : kind <$> d1 = kind <$> d)
    by (apply view_restore_iframe; view_side).
  assert (Hp1 : parent <$> d1 = parent <$> d)
    by (apply view_restore_iframe; view_side).
  assert (Hc1 : children <$> d1 = children <$> d)
    by (apply view_restore_iframe; view_side).
  assert (Hpar1 : forall k, parent_of d1 k = parent_of d k)
    by (intros k; rewrite !parent_of_lookup; now rewrite Hp1).
  assert (Hlen1 : length d1 = length d) by apply length_restore_iframe.
  destruct (replaceChild_succeeds g x w d1) as [d2 Hr].
  { unfold inclusive_ancestor. rewrite Hlen1.
    rewrite (ancestor_within_parents _ d d1) by exact Hpar1. exact Hanc. }
  { now rewrite Hpar1. }
  assert (Hrun : unblock_iframe kws x d = d2).
  { unfold unblock_iframe. rewrite Hrec, Htr, Hkw. cbn [negb].
    fold d1.
    assert (Hpe : forall k, parentElement d1 k = parentElement d k)
      by (intros k; now apply parentElement_views).
    rewrite (Hpe x), (proj2 (parentElement_Some d x w)) by auto.
    cbv beta iota.
    rewrite (Hpe w), (proj2 (parentElement_Some d w g)) by auto.
    unfold try_replaceChild. now rewrite Hr. }
  rewrite Hrun.
  pose proof (restore_iframe_effect x u d) as Heff.
  assert (Hparents : parent <$> d2
            = <[x := Some g]> (<[w := None]> (<[x := None]> (parent <$> d))))
    by (rewrite (parents_replaceChild g x w d1 d2 Hr); now rewrite Hp1).
  assert (Hchildren : children <$> d2
            = alter (replace_in w x) g
                (alter (filter (fun c => c <> x)) w (children <$> d))).
  { rewrite (children_replaceChild g x w w d1 d2 Hr)
      by (now rewrite Hpar1).
    now rewrite Hc1. }
  assert (Hattrs2 : attrs <$> d2 = attrs <$> d1)
    by (eapply view_replaceChild; [view_side|view_side|exact Hr]).
  assert (Hstyle2 : style <$> d2 = style <$> d1)
    by (eapply view_replaceChild; [view_side|view_side|exact Hr]).
  assert (Hget2 : forall n a, getAttribute d2 n a = getAttribute d1 n a).
  { intros n a. apply getAttribute_same. unfold attrs_at. now rewrite Hattrs2. }
  assert (Hsty2 : forall n p, style_of d2 n p = style_of d1 n p).
  { intros n p. apply style_of_same. now rewrite Hstyle2. }
  split.
  - rewrite <- Hk1. eapply view_replaceChild; [view_side|view_side|exact Hr].
  - rewrite <- (view_restore_iframe text x u d) by view_side.
    eapply view_replaceChild; [view_side|view_side|exact Hr].
  - rewrite <- (view_restore_iframe listeners x u d) by view_side.
    eapply view_replaceChild; [view_side|view_side|exact Hr].
  - intros n Hn. unfold attrs_at. rewrite Hattrs2. subst d1.
    rewrite attrs_restore. now apply list_lookup_alter_ne.
  - rewrite Hget2. apply (Heff "width" Hx).
  - rewrite Hget2. apply (Heff "width" Hx).
  - rewrite Hget2. apply (Heff "width" Hx).
  - intros a Ha1 Ha2 Ha3. rewrite Hget2. rewrite !getAttribute_at.
    unfold attrs_at. subst d1. rewrite attrs_restore.
    rewrite list_lookup_alter_eq.
    destruct ((attrs <$> d) !! x) as [m|]; [|reflexivity].
    cbn [fmap option_fmap option_map mbind option_bind].
    rewrite !lookup_delete_ne by congruence.
    apply lookup_insert_ne. congruence.
  - intros n p Hn. rewrite Hsty2. apply style_of_same.
    now apply styles_restore_other.
  - intros p Hp. rewrite Hsty2. now apply (Heff p Hx).
  - intros p Hp. rewrite Hsty2. now apply (Heff p Hx).
  - rewrite parent_of_lookup, Hparents.
    rewrite list_lookup_insert_eq; [reflexivity|].
    now rewrite !length_insert, length_fmap.
  - rewrite parent_of_lookup, Hparents.
    rewrite list_lookup_insert_ne by congruence.
    rewrite list_lookup_insert_eq; [reflexivity|].
    now rewrite !length_insert, length_fmap.
  - intros n Hn1 Hn2. rewrite !parent_of_lookup, Hparents.
    now rewrite !list_lookup_insert_ne by congruence.
  - rewrite !children_of_lookup, Hchildren.
    rewrite list_lookup_alter_eq, list_lookup_alter_ne by congruence.
    now destruct ((children <$> d) !! g).
  - rewrite !children_of_lookup, Hchildren.
    rewrite list_lookup_alter_ne by congruence.
    rewrite list_lookup_alter_eq.
    now destruct ((children <$> d) !! w).
  - intros n Hn1 Hn2. rewrite !children_of_lookup, Hchildren.
    now rewrite !list_lookup_alter_ne by congruence.
Qed.

(** ** The primary pass on a page laid out by blocking *)

Lemma lookup_replace_in (w x : nat) (l : list nat) (idx : nat) :
  replace_in w x l !! idx
  = (fun c => if Nat.eqb c w then x else c) <$> l !! idx.
Proof.
  unfold replace_in. revert idx.
  induction l as [|c rest IH]; intros [|idx]; cbn; auto.
Qed.

Lemma In_replace_in (w x : nat) (l : list nat) (c : nat) :
  In c (replace_in w x l) ->
  (c = x /\ In w l) \/ (c <> w /\ In c l).
Proof.
  unfold replace_in. rewrite in_map_iff. intros (c0 & Hc & Hin).
  destruct (Nat.eqb_spec c0 w) as [Heq|Hne].
  - left. subst c0. auto.
  - right. subst c. auto.
Qed.

Lemma In_filter_ne (x : nat) (l : list nat) (c : nat) :
  In c (filter (fun c => c <> x) l) -> c <> x /\ In c l.
Proof.
  rewrite <- !list_elem_of_In, list_elem_of_filter. tauto.
Qed.

Lemma wrapper_among (P : nat -> Prop) (l : list nat) :
  (forall i, Decision (P i)) ->
  (exists i, In i l /\ P i) \/ (forall i, In i l -> ~ P i).
Proof.
  intros Hdec. induction l as [|i rest IH].
  - right. intros i [].
  - destruct (decide (P i)) as [Hp|Hp].
    + left. exists i. split; [now left|exact Hp].
    + destruct IH as [(j & Hj & Hpj)|Hnone].
      * left. exists j. split; [now right|exact Hpj].
      * right. intros j [<-|Hj]; [exact Hp|now apply Hnone].
Qed.

Section PrimaryPass.
Variable kws : list string.
Variable d0 : store.
Hypothesis Hlay : restorable_layout kws d0.
Variable h : nat -> nat.
Hypothesis Hh : forall n p, parent_of d0 n = Some p -> h n < h p.

Lemma restorable_record (i : nat) :
  restorable kws d0 i = true ->
  exists u, getAttribute d0 i "data-original-src" = Some u
            /\ truthy u = true /\ some_includes kws u = false.
Proof.
  unfold restorable, harmful. intros [_ H]%andb_true_iff.
  destruct (getAttribute d0 i "data-original-src") as [u|]; [|discriminate].
  apply andb_true_iff in H as [Ht Hk]. apply negb_true_iff in Hk. eauto.
Qed.

Lemma restorable_wrapped (i : nat) :
  restorable kws d0 i = true ->
  exists w g, parent_of d0 i = Some w /\ is_element d0 w = true
              /\ parent_of d0 w = Some g /\ is_element d0 g = true
              /\ h i < h w /\ h w < h g.
Proof.
  intros Hi. destruct (lay_wrapped kws d0 Hlay i Hi) as (w & g & Hw & Hg).
  apply parentElement_Some in Hw as [Hw Hew].
  apply parentElement_Some in Hg as [Hg Heg].
  exists w, g. repeat split; auto.
Qed.

Lemma restored_nothing : restored_so_far kws d0 [] d0.
Proof.
  split; try (intros; contradiction); try reflexivity; auto.
Qed.

Lemma restored_height (done : list nat) (d : store) :
  restored_so_far kws d0 done d ->
  forall n p, parent_of d n = Some p -> h n < h p.
Proof.
  intros Inv n p Hp.
  destruct (in_dec Nat.eq_dec n done) as [Hn|Hn].
  - destruct (restorable_wrapped n (rs_done _ _ _ _ Inv n Hn))
      as (w & g & Hw & _ & Hg & _ & H1 & H2).
    rewrite (rs_parent_done _ _ _ _ Inv n w Hn Hw), Hg in Hp.
    injection Hp as <-. lia.
  - destruct (wrapper_among (fun i => parent_of d0 i = Some n) done)
      as [(i & Hi & Hw)|Hnone]; [intros i; apply _| |].
    + rewrite (rs_parent_wrapper _ _ _ _ Inv i n Hi Hw) in Hp. discriminate.
    + rewrite (rs_parent_other _ _ _ _ Inv n Hn Hnone) in Hp. now apply Hh.
Qed.

Lemma restored_skip (done : list nat) (d : store) (x : nat) :
  restored_so_far kws d0 done d ->
  sel_blocked_iframe d0 x = true ->
  In x done \/ restorable kws d0 x = false ->
  unblock_iframe kws x d = d.
Proof.
  intros Inv Hsel Hcase. unfold unblock_iframe.
  assert (Hhas : exists u, getAttribute d0 x "data-original-src" = Some u).
  { unfold sel_blocked_iframe, hasAttribute in Hsel.
    apply andb_true_iff in Hsel as [_ Hsel].
    destruct (getAttribute d0 x "data-original-src") as [u|]; [eauto|].
    discriminate. }
  destruct Hhas as [u Hu].
  destruct (in_dec Nat.eq_dec x done) as [Hx|Hx].
  - destruct (rs_attrs_done _ _ _ _ Inv x u Hx Hu) as (_ & _ & ->).
    reflexivity.
  - destruct Hcase as [Hc|Hc]; [contradiction|].
    rewrite (getAttribute_same d0 d) by (now apply (rs_attrs_other _ _ _ _ Inv)).
    rewrite Hu. unfold restorable in Hc. rewrite Hsel, Hu in Hc.
    cbn [andb harmful] in Hc.
    destruct (truthy u); [|reflexivity]. cbn [negb andb] in *.
    apply negb_false_iff in Hc. now rewrite Hc.
Qed.

Lemma restored_step (done : list nat) (d : store) (x : nat) :
  restored_so_far kws d0 done d ->
  ~ In x done -> restorable kws d0 x = true ->
  restored_so_far kws d0 (x :: done) (unblock_iframe kws x d).
Proof.
  intros Inv Hx Hrx.
  destruct (restorable_record x Hrx) as (u & Hu & Htr & Hkw).
  destruct (restorable_wrapped x Hrx)
    as (w & g & Hw & Hew & Hg & Heg & Hxw & Hwg).
  pose proof (lay_own_wrapper kws d0 Hlay) as Hown.
  pose proof (lay_wrapper_plain kws d0 Hlay) as Hplain.
  pose proof (lay_not_nested kws d0 Hlay) as Hnest.
  assert (Hdone : forall i, In i done -> restorable kws d0 i = true)
    by apply (rs_done _ _ _ _ Inv).
  assert (Hpx : parent_of d x = Some w).
  { rewrite (rs_parent_other _ _ _ _ Inv x Hx); [exact Hw|].
    intros i Hi. apply Hplain; auto. }
  assert (Hwnd : ~ In w done).
  { intros Hwd. apply (Hplain x w Hrx (Hdone w Hwd)). exact Hw. }
  assert (Hpw : parent_of d w = Some g).
  { rewrite (rs_parent_other _ _ _ _ Inv w Hwnd); [exact Hg|].
    intros i Hi Hiw. apply Hx.
    rewrite <- (Hown i x (Hdone i Hi) Hrx); [exact Hi|congruence]. }
  assert (Hel : forall k, is_element d k = is_element d0 k)
    by (intros k; apply is_element_same, (rs_kinds _ _ _ _ Inv)).
  assert (U : unwrapped x u w g d (unblock_iframe kws x d)).
  { apply unblock_iframe_unwraps; auto.
    - rewrite (getAttribute_same d0 d); [exact Hu|].
      now apply (rs_attrs_other _ _ _ _ Inv).
    - apply parentElement_Some. now rewrite Hel.
    - apply parentElement_Some. now rewrite Hel.
    - destruct (inclusive_ancestor d x g) eqn:Ha; [|reflexivity].
      apply (ancestor_within_height h d (restored_height done d Inv)) in Ha.
      lia.
    - intros ->. lia.
    - intros ->. lia. }
  set (d2 := unblock_iframe kws x d) in *.
  assert (Hxg : x <> g) by (intros ->; lia).
  assert (Hxw' : x <> w) by (intros ->; lia).
  assert (Hwg' : w <> g) by (intros ->; lia).
  (* a restored iframe is no wrapper, and wrappers are distinct *)
  assert (Hiw : forall i w', In i done -> parent_of d0 i = Some w' ->
                  w' <> x /\ w' <> w /\ i <> x /\ i <> w).
  { intros i w' Hi Hw'. repeat split.
    - intros ->. apply (Hplain i x (Hdone i Hi) Hrx Hw').
    - intros ->. apply Hx.
      rewrite <- (Hown i x (Hdone i Hi) Hrx); [exact Hi|congruence].
    - intros ->. contradiction.
    - intros ->. contradiction. }
  split.
  - intros i [<-|Hi]; auto.
  - rewrite (uw_kinds _ _ _ _ _ _ U). apply (rs_kinds _ _ _ _ Inv).
  - intros n Hn. rewrite (uw_attrs_other _ _ _ _ _ _ U) by (intros ->; apply Hn; now left).
    apply (rs_attrs_other _ _ _ _ Inv). intros Hd. apply Hn. now right.
  - intros i u' [<-|Hi] Hu'.
    + assert (u' = u) by congruence. subst u'.
      split; [|split]; apply U.
    + assert (Hix : i <> x) by (intros ->; contradiction).
      rewrite !(getAttribute_same d d2)
        by (symmetry; symmetry; apply (uw_attrs_other _ _ _ _ _ _ U); exact Hix).
      now apply (rs_attrs_done _ _ _ _ Inv).
  - intros n a Ha1 Ha2 Ha3.
    rewrite <- (rs_attrs_kept _ _ _ _ Inv n a Ha1 Ha2 Ha3).
    destruct (decide (n = x)) as [->|Hnx].
    + now apply (uw_attrs_kept _ _ _ _ _ _ U).
    + apply getAttribute_same. now apply (uw_attrs_other _ _ _ _ _ _ U).
  - intros i p [<-|Hi] Hp.
    + now apply (uw_styles_cleared _ _ _ _ _ _ U).
    + assert (Hix : i <> x) by (intros ->; contradiction).
      rewrite (uw_styles_other _ _ _ _ _ _ U) by exact Hix.
      now apply (rs_styles_done _ _ _ _ Inv).
  - intros i w' [<-|Hi] Hw'.
    + assert (w' = w) by congruence. subst w'.
      rewrite (uw_parent _ _ _ _ _ _ U). now rewrite Hg.
    + destruct (Hiw i w' Hi Hw') as (_ & _ & Hix & Hiw2).
      rewrite (uw_parent_other _ _ _ _ _ _ U) by assumption.
      now apply (rs_parent_done _ _ _ _ Inv).
  - intros i w' [<-|Hi] Hw'.
    + assert (w' = w) by congruence. subst w'. apply U.
    + destruct (Hiw i w' Hi Hw') as (Hw1 & Hw2 & _ & _).
      rewrite (uw_parent_other _ _ _ _ _ _ U) by assumption.
      now apply (rs_parent_wrapper _ _ _ _ Inv i).
  - intros n Hn Hnone.
    assert (Hnx : n <> x) by (intros ->; apply Hn; now left).
    assert (Hnw : n <> w).
    { intros ->. apply (Hnone x); [now left|exact Hw]. }
    rewrite (uw_parent_other _ _ _ _ _ _ U) by assumption.
    apply (rs_parent_other _ _ _ _ Inv).
    + intros Hd. apply Hn. now right.
    + intros i Hi. apply Hnone. now right.
  - intros n c Hc.
    assert (Hfrom : In c (children_of d n) -> In c (children_of d0 n)
              \/ (In c (x :: done)
                  /\ exists w', parent_of d0 c = Some w'
                                /\ parent_of d0 w' = Some n)).
    { intros Hc'. destruct (rs_children_from _ _ _ _ Inv n c Hc')
        as [Hl|(Hd & Hr)]; [now left|right].
      split; [now right|exact Hr]. }
    destruct (decide (n = g)) as [->|Hng].
    + rewrite (uw_children_grand _ _ _ _ _ _ U) in Hc.
      apply In_replace_in in Hc as [[-> _]|[_ Hc]]; [|now apply Hfrom].
      right. split; [now left|]. exists w. auto.
    + destruct (decide (n = w)) as [->|Hnw].
      * rewrite (uw_children_wrapper _ _ _ _ _ _ U) in Hc.
        apply In_filter_ne in Hc as [_ Hc]. now apply Hfrom.
      * rewrite (uw_children_other _ _ _ _ _ _ U) in Hc by assumption.
        now apply Hfrom.
  - intros i w' n Hi Hw' Hin.
    assert (Hold : In w' (children_of d n) -> n <> g -> False).
    { intros Hin' Hng. destruct Hi as [<-|Hi].
      - assert (w' = w) by congruence. subst w'.
        destruct (rs_children_from _ _ _ _ Inv n w Hin')
          as [Hl|(Hd & _)]; [|contradiction].
        apply (lay_children kws d0 Hlay) in Hl. congruence.
      - now apply (rs_wrapper_gone _ _ _ _ Inv i w' n). }
    destruct (decide (n = g)) as [->|Hng].
    + rewrite (uw_children_grand _ _ _ _ _ _ U) in Hin.
      apply In_replace_in in Hin as [[-> _]|[Hne Hin]].
      * assert (Hri : restorable kws d0 i = true)
          by (destruct Hi as [<-|Hi]; auto).
        exact (Hplain i x Hri Hrx Hw').
      * destruct Hi as [<-|Hi]; [congruence|].
        now apply (rs_wrapper_gone _ _ _ _ Inv i w' g).
    + destruct (decide (n = w)) as [->|Hnw].
      * rewrite (uw_children_wrapper _ _ _ _ _ _ U) in Hin.
        apply In_filter_ne in Hin as [_ Hin]. now apply Hold.
      * rewrite (uw_children_other _ _ _ _ _ _ U) in Hin by assumption.
        now apply Hold.
  - intros i w' g' idx Hi Hw' Hg' Hidx.
    destruct Hi as [<-|Hi].
    + assert (w' = w) by congruence. subst w'.
      assert (g' = g) by congruence. subst g'.
      rewrite (uw_children_grand _ _ _ _ _ _ U), lookup_replace_in.
      rewrite (rs_position_other _ _ _ _ Inv x w g idx Hrx Hx Hw Hg Hidx).
      cbn. now rewrite Nat.eqb_refl.
    + pose proof (rs_position_done _ _ _ _ Inv i w' g' idx Hi Hw' Hg' Hidx)
        as Hpos.
      destruct (Hiw i w' Hi Hw') as (_ & _ & Hix & Hiw2).
      destruct (decide (g' = g)) as [->|Hng].
      * rewrite (uw_children_grand _ _ _ _ _ _ U), lookup_replace_in, Hpos.
        cbn. destruct (Nat.eqb_spec i w) as [Heq|_]; [contradiction|].
        reflexivity.
      * destruct (decide (g' = w)) as [->|Hnw].
        { exfalso. apply (Hnest i x w' (Hdone i Hi) Hrx Hw'). congruence. }
        now rewrite (uw_children_other _ _ _ _ _ _ U) by assumption.
  - intros i w' g' idx Hri Hi Hw' Hg' Hidx.
    assert (Hix : i <> x) by (intros ->; apply Hi; now left).
    assert (Hid : ~ In i done) by (intros Hd; apply Hi; now right).
    pose proof (rs_position_other _ _ _ _ Inv i w' g' idx Hri Hid Hw' Hg' Hidx)
      as Hpos.
    destruct (decide (g' = g)) as [->|Hng].
    + rewrite (uw_children_grand _ _ _ _ _ _ U), lookup_replace_in, Hpos.
      cbn. destruct (Nat.eqb_spec w' w) as [Heq|_]; [|reflexivity].
      exfalso. apply Hix. apply (Hown i x Hri Hrx). congruence.
    + destruct (decide (g' = w)) as [->|Hnw].
      { exfalso. apply (Hnest i x w' Hri Hrx Hw'). congruence. }
      now rewrite (uw_children_other _ _ _ _ _ _ U) by assumption.
Qed.

Lemma primary_fold (l : list nat) :
  (forall x, In x l -> sel_blocked_iframe d0 x = true) ->
  forall done d, restored_so_far kws d0 done d ->
  exists done',
    restored_so_far kws d0 done'
      (fold_left (fun acc i => unblock_iframe kws i acc) l d)
    /\ (forall i, In i done -> In i done')
    /\ (forall i, In i l -> restorable kws d0 i = true -> In i done').
Proof.
  induction l as [|x rest IH]; intros Hsel done d Inv.
  - exists done. cbn. split; [exact Inv|]. split; [auto|]. intros i [].
  - cbn [fold_left].
    assert (Hrest : forall y, In y rest -> sel_blocked_iframe d0 y = true)
      by (intros y Hy; apply Hsel; now right).
    destruct (in_dec Nat.eq_dec x done) as [Hx|Hx].
    + rewrite (restored_skip done d x Inv (Hsel x (or_introl eq_refl)))
        by now left.
      destruct (IH Hrest done d Inv) as (done' & Inv' & Hsub & Hall).
      exists done'. split; [exact Inv'|]. split; auto.
      intros i [<-|Hi] Hr; auto.
    + destruct (restorable kws d0 x) eqn:Hr.
      * destruct (IH Hrest (x :: done) _ (restored_step done d x Inv Hx Hr))
          as (done' & Inv' & Hsub & Hall).
        exists done'. split; [exact Inv'|]. split; auto.
        -- intros i Hi. apply Hsub. now right.
        -- intros i [<-|Hi] Hri; [apply Hsub; now left|auto].
      * rewrite (restored_skip done d x Inv (Hsel x (or_introl eq_refl)))
          by now right.
        destruct (IH Hrest done d Inv) as (done' & Inv' & Hsub & Hall).
        exists done'. split; [exact Inv'|]. split; auto.
        intros i [<-|Hi] Hri; [congruence|auto].
Qed.


Lemma primary_pass_restores :
  exists done,
    restored_so_far kws d0 done (primary_pass kws d0)
    /\ (forall i, restorable kws d0 i = true -> In i done).
Proof.
  unfold primary_pass.
  destruct (primary_fold (querySelectorAll d0 document sel_blocked_iframe))
    with (done := @nil nat) (d := d0)
    as (done & Inv & _ & Hall).
  - intros x Hx. unfold querySelectorAll in Hx.
    apply list_elem_of_In, list_elem_of_filter in Hx. tauto.
  - apply restored_nothing.
  - exists done. split; [exact Inv|].
    intros i Hi. apply Hall; [|exact Hi].
    apply (lay_in_document kws d0 Hlay).
    unfold restorable in Hi. now apply andb_true_iff in Hi as [_ Hi].
Qed.
End PrimaryPass.

(** ** After the primary pass *)

Lemma subtree_within_from (d : store) (fuel : nat) (ns : list nat) (x : nat) :
  In x (subtree_within fuel d ns) ->
  In x ns
  \/ exists p, In p (subtree_within fuel d ns) /\ In x (children_of d p).
Proof.
  revert ns. induction fuel as [|fuel IH]; intros ns; cbn [subtree_within].
  - intros [].
  - rewrite in_flat_map. intros (n & Hn & [<-|Hx]); [now left|].
    right. destruct (IH _ Hx) as [Hc|(p & Hp & Hc)].
    + exists n. split; [|exact Hc].
      apply in_flat_map. exists n. split; [exact Hn|now left].
    + exists p. split; [|exact Hc].
      apply in_flat_map. exists n. split; [exact Hn|now right].
Qed.

Lemma descendants_from (d : store) (r x : nat) :
  In x (descendants d r) ->
  exists p, In x (children_of d p) /\ (p = r \/ In p (descendants d r)).
Proof.
  intros Hx. destruct (subtree_within_from _ _ _ _ Hx) as [Hc|(p & Hp & Hc)].
  - exists r. auto.
  - exists p. auto.
Qed.

Lemma not_harmful (kws : list string) (s : option string) :
  harmful kws s = false ->
  match truthy_opt s with
  | Some v => some_includes kws v = true
  | None => True
  end.
Proof.
  destruct s as [v|]; cbn [harmful truthy_opt]; [|auto].
  destruct (truthy v); [|auto]. cbn [andb].
  now intros ->%negb_false_iff.
Qed.

Section SafetyPass.
Variables (kws : list string) (d0 : store).
Hypothesis Hlay : restorable_layout kws d0.
Variable h : nat -> nat.
Hypothesis Hh : forall n p, parent_of d0 n = Some p -> h n < h p.
Variables (done : list nat) (d : store).
Hypothesis Inv : restored_so_far kws d0 done d.
Hypothesis Hall : forall i, restorable kws d0 i = true -> In i done.

Lemma no_record_left (n : nat) :
  harmful kws (getAttribute d n "data-original-src") = false.
Proof.
  destruct (in_dec Nat.eq_dec n done) as [Hn|Hn].
  - destruct (restorable_record kws d0 n (rs_done _ _ _ _ Inv n Hn))
      as (u & Hu & _).
    now destruct (rs_attrs_done _ _ _ _ Inv n u Hn Hu) as (_ & _ & ->).
  - rewrite (getAttribute_same d0 d) by now apply (rs_attrs_other _ _ _ _ Inv).
    destruct (harmful kws (getAttribute d0 n "data-original-src")) eqn:Hhf;
      [|reflexivity].
    exfalso. apply Hn, Hall. unfold restorable. rewrite Hhf, andb_true_r.
    pose proof (lay_in_document kws d0 Hlay n Hhf) as Hin.
    unfold querySelectorAll in Hin.
    apply list_elem_of_In, list_elem_of_filter in Hin. tauto.
Qed.

Lemma wrapper_detached (i w : nat) :
  In i done -> parent_of d0 i = Some w -> ~ In w (descendants d document).
Proof.
  intros Hi Hw Hin. destruct (descendants_from _ _ _ Hin) as (q & Hq & _).
  exact (rs_wrapper_gone _ _ _ _ Inv i w q Hi Hw Hq).
Qed.

Lemma sel_placeholder_kept (p : nat) :
  sel_placeholder d p = sel_placeholder d0 p.
Proof.
  unfold sel_placeholder, attr_is.
  rewrite (is_element_same d0 d) by apply (rs_kinds _ _ _ _ Inv).
  now rewrite (rs_attrs_kept _ _ _ _ Inv).
Qed.

Lemma marker_detached (p : nat) :
  sel_placeholder d p = true ->
  harmful kws (getAttribute d p "data-blocked-src") = true ->
  ~ In p (descendants d document).
Proof.
  intros Hsel Hhf Hin.
  rewrite sel_placeholder_kept in Hsel.
  rewrite (rs_attrs_kept _ _ _ _ Inv) in Hhf by discriminate.
  destruct (lay_markers kws d0 Hlay p Hsel Hhf) as (Htag & i & Hri & Hpi).
  destruct (restorable_wrapped kws d0 Hlay h Hh i Hri)
    as (w & g & Hw & Hew & _).
  assert (Hpd : ~ In p done).
  { intros Hd. apply (rs_done _ _ _ _ Inv) in Hd.
    unfold restorable, sel_blocked_iframe in Hd.
    rewrite Htag in Hd. discriminate. }
  destruct (descendants_from _ _ _ Hin) as (q & Hq & Hfrom).
  destruct (rs_children_from _ _ _ _ Inv q p Hq) as [Hl|(Hd & _)];
    [|contradiction].
  apply (lay_children kws d0 Hlay) in Hl.
  assert (q = w) by congruence. subst q.
  destruct Hfrom as [->|Hwin].
  - rewrite (lay_document kws d0 Hlay) in Hew. discriminate.
  - exact (wrapper_detached i w (Hall i Hri) Hw Hwin).
Qed.

Lemma unblock_placeholder_skip (p : nat) :
  In p (querySelectorAll d document sel_placeholder) ->
  unblock_placeholder kws p d = d.
Proof.
  unfold querySelectorAll. intros Hin.
  apply list_elem_of_In, list_elem_of_filter in Hin as [Hsel Hin].
  apply list_elem_of_In in Hin.
  assert (Hb : harmful kws (getAttribute d p "data-blocked-src") = false).
  { destruct (harmful kws (getAttribute d p "data-blocked-src")) eqn:Hhf;
      [|reflexivity].
    exfalso. exact (marker_detached p Hsel Hhf Hin). }
  apply not_harmful in Hb.
  unfold unblock_placeholder.
  destruct (parentElement d p) as [w|]; [|reflexivity].
  cbv zeta.
  destruct (querySelector d w sel_iframe) as [i|].
  - pose proof (not_harmful kws _ (no_record_left i)) as Hi.
    destruct (truthy_opt (getAttribute d i "data-original-src")) as [v|].
    + now rewrite Hi.
    + destruct (truthy_opt (getAttribute d p "data-blocked-src")) as [v|];
        [now rewrite Hb|reflexivity].
  - destruct (truthy_opt (getAttribute d p "data-blocked-src")) as [v|];
      [now rewrite Hb|reflexivity].
Qed.

Lemma safety_pass_idle : safety_pass kws d = d.
Proof.
  unfold safety_pass. apply fold_left_fixed.
  intros p Hp. now apply unblock_placeholder_skip.
Qed.

Lemma unblock_iframe_idle (x : nat) : unblock_iframe kws x d = d.
Proof.
  unfold unblock_iframe. pose proof (no_record_left x) as Hx.
  destruct (getAttribute d x "data-original-src") as [u|]; [|reflexivity].
  cbn [harmful] in Hx. destruct (truthy u); [|reflexivity].
  cbn [andb negb] in *. apply negb_false_iff in Hx. now rewrite Hx.
Qed.

Lemma primary_pass_idle : primary_pass kws d = d.
Proof.
  unfold primary_pass. apply fold_left_fixed.
  intros x _. apply unblock_iframe_idle.
Qed.

End SafetyPass.

Lemma unblock_store_passes (kws : list string) (d : store) :
  unblock_store kws d = safety_pass kws (primary_pass kws d).
Proof. reflexivity. Qed.

(** Under the layout hypothesis the safety pass finds nothing to do, and the
    state after the primary pass is a fixed point of the whole function. *)
Lemma unblock_store_layout (kws : list string) (d0 : store) :
  restorable_layout kws d0 ->
  exists done,
    restored_so_far kws d0 done (unblock_store kws d0)
    /\ (forall i, restorable kws d0 i = true -> In i done)
    /\ unblock_store kws (unblock_store kws d0) = unblock_store kws d0.
Proof.
  intros Hlay. destruct (lay_height kws d0 Hlay) as [h Hh].
  destruct (primary_pass_restores kws d0 Hlay h Hh) as (done & Inv & Hall).
  assert (Hs : unblock_store kws d0 = primary_pass kws d0).
  { rewrite unblock_store_passes.
    apply (safety_pass_idle kws d0 Hlay h Hh done _ Inv Hall). }
  exists done. rewrite Hs. split; [exact Inv|]. split; [exact Hall|].
  rewrite unblock_store_passes.
  rewrite (primary_pass_idle kws d0 Hlay done _ Inv Hall).
  apply (safety_pass_idle kws d0 Hlay h Hh done _ Inv Hall).
Qed.

(** ** The blocked sample page has the layout *)

Ltac by_index k n H :=
  lazymatch k with
  | O => vm_compute in H
  | S ?k' => destruct n as [|n]; [vm_compute in H|by_index k' n H]
  end.




(** ** Restoration *)

Lemma dom_unblock (kws : list string) (w : world) :
  dom (unblockPreviouslyBlockedContent kws w) = unblock_store kws (dom w).
Proof. reflexivity. Qed.







(** ** What restoration leaves alone *)

Section RestorationViews.
Context {B : Type} (v : node -> B).
Hypothesis v_attrs : forall at_ x, v (set_attrs at_ x) = v x.
Hypothesis v_style : forall st x, v (set_style st x) = v x.
Hypothesis v_parent : forall p x, v (set_parent p x) = v x.
Hypothesis v_children : forall c x, v (set_children c x) = v x.

Lemma view_unblock_iframe (kws : list string) (i : nat) (d : store) :
  v <$> unblock_iframe kws i d = v <$> d.
Proof.
  unfold unblock_iframe.
  destruct (getAttribute d i "data-original-src") as [u|]; [|reflexivity].
  destruct (negb (truthy u)); [reflexivity|].
  destruct (some_includes kws u); [reflexivity|]. cbv zeta.
  destruct (parentElement _ i) as [wr|];
    [|now apply view_restore_iframe].
  destruct (parentElement _ wr) as [g|];
    [|now apply view_restore_iframe].
  rewrite view_try_replaceChild by assumption.
  now apply view_restore_iframe.
Qed.

Lemma view_unblock_placeholder (kws : list string) (p : nat) (d : store) :
  v <$> unblock_placeholder kws p d = v <$> d.
Proof.
  unfold unblock_placeholder.
  destruct (parentElement d p) as [wr|]; [|reflexivity]. cbv zeta.
  destruct (querySelector d wr sel_iframe) as [i|].
  - match goal with
    | |- context [match ?o with Some _ => _ | None => d end] =>
        destruct o as [u|]; [|reflexivity]
    end.
    destruct (some_includes kws u); [reflexivity|].
    destruct (parentElement _ wr) as [g|];
      [|now apply view_restore_iframe].
    rewrite view_try_replaceChild by assumption.
    now apply view_restore_iframe.
  - destruct (truthy_opt _) as [u|]; [|reflexivity].
    destruct (some_includes kws u); [reflexivity|].
    now apply view_detach.
Qed.

Lemma view_unblock_store (kws : list string) (d : store) :
  v <$> unblock_store kws d = v <$> d.
Proof.
  unfold unblock_store. cbv zeta.
  set (d1 := fold_left _ (querySelectorAll d document sel_blocked_iframe) d).
  assert (H1 : v <$> d1 = v <$> d).
  { subst d1. apply (fold_left_keeps (fun s => v <$> s = v <$> d)); auto.
    intros x s Hs. now rewrite view_unblock_iframe. }
  rewrite <- H1.
  apply (fold_left_keeps (fun s => v <$> s = v <$> d1)); auto.
  intros x s Hs. now rewrite view_unblock_placeholder.
Qed.
End RestorationViews.

(** [unblockPreviouslyBlockedContent] only rewrites attributes and inline
    styles and moves nodes: it creates no node, changes no node's kind, text
    or event listeners, leaves the enable flag and the registered observers
    alone, and does not consult [Math.random]. *)
Theorem unblock_keeps_nodes (kws : list string) (w : world) :
  let w' := unblockPreviouslyBlockedContent kws w in
  length (dom w') = length (dom w)
  /\ kind <$> dom w' = kind <$> dom w
  /\ text <$> dom w' = text <$> dom w
  /\ listeners <$> dom w' = listeners <$> dom w
  /\ blockingEnabled w' = blockingEnabled w
  /\ registry w' = registry w
  /\ draws w' = draws w.
Proof.
  cbv zeta. rewrite !dom_unblock.
  assert (Hk : kind <$> unblock_store kws (dom w) = kind <$> dom w)
    by (apply view_unblock_store; reflexivity).
  split; [now apply length_by_kinds|]. split; [exact Hk|].
  split; [apply view_unblock_store; reflexivity|].
  split; [apply view_unblock_store; reflexivity|].
  now destruct w.
Qed.

(** ** Script removal survives a failing iframe sweep *)

Lemma blocking_run_same_dom (w w' : world) :
  dom w' = dom w -> blockingEnabled w' = blockingEnabled w ->
  registry w' = registry w -> resolve w' = resolve w -> blocking_run w w'.
Proof.
  intros Hd He Hr Hv. destruct (blocking_run_refl w) as (_ & _ & H).
  unfold blocking_run. rewrite Hd. auto.
Qed.

Lemma sweep_iframe_any (kws : list string) (n : nat) (w : world) :
  blockingEnabled w = true -> has_tag (dom w) "IFRAME" n = true ->
  blocking_run w (world_of (sweep_iframe kws n w)).
Proof.
  intros Hon Ht. destruct (live_matches kws w n) eqn:Hm.
  - destruct (parentElement (dom w) n) as [p|] eqn:Hp.
    + destruct (sweep_iframe_block kws n w p Hon Ht Hm Hp)
        as (w' & -> & Hrun & _).
      exact Hrun.
    + unfold sweep_iframe. rewrite Hon. cbn [andb].
      unfold live_matches in Hm. cbv zeta in *. rewrite Hm.
      unfold bind. rewrite (createContentPlaceholder_orphan w n _ Hp).
      now apply blocking_run_same_dom.
  - destruct (sweep_iframe_skip kws n w Hon Ht) as (w' & -> & Hrun & _).
    + now rewrite Ht, Hm.
    + exact Hrun.
Qed.

Lemma forEach_sweep_any (kws : list string) (l : list nat) (w : world) :
  blockingEnabled w = true ->
  (forall n, In n l -> has_tag (dom w) "IFRAME" n = true) ->
  blocking_run w (world_of (forEach (sweep_iframe kws) l w)).
Proof.
  revert w. induction l as [|n rest IH]; intros w Hon Htag.
  - apply blocking_run_refl.
  - pose proof (sweep_iframe_any kws n w Hon (Htag n (or_introl eq_refl)))
      as Hstep.
    cbn [forEach]. unfold bind.
    destruct (sweep_iframe kws n w) as [w1 []|w1 msg]; cbn [world_of] in *;
      [|exact Hstep].
    apply (blocking_run_trans w w1); [exact Hstep|].
    apply IH.
    + destruct Hstep as (-> & _). exact Hon.
    + intros k Hk. eapply blocking_run_keeps_tag; [exact Hstep|].
      apply Htag. now right.
Qed.

(** Every script of the document whose [src] property is non-empty and
    contains a keyword has no parent once [blockTrackingScripts] is over, also
    when the iframe sweep that follows the script sweep, or the call to
    [observe], ends with an exception. *)
Theorem blockTrackingScripts_removes_scripts (kws : list string) (w : world)
    (s : nat) :
  blockingEnabled w = true ->
  In s (querySelectorAll (dom w) document sel_script) ->
  truthy (live_src w s) && some_includes kws (live_src w s) = true ->
  parent_of (dom (world_of (blockTrackingScripts kws w))) s = None.
Proof.
  intros Hon Hin Hc.
  destruct (sweep_scripts_run kws
              (querySelectorAll (dom w) document sel_script) w)
    as (w1 & Hs & He1 & Hr1 & Hk1 & Ha1 & Hp1 & Hrem).
  { intros k Hk. now apply In_querySelectorAll in Hk. }
  assert (Hts : has_tag (dom w) "SCRIPT" s = true)
    by now apply In_querySelectorAll in Hin.
  assert (Htag : forall t k, has_tag (dom w1) t k = has_tag (dom w) t k)
    by (intros t k; rewrite !has_tag_lookup; now rewrite Hk1).
  pose proof (forEach_sweep_any kws
                (querySelectorAll (dom w1) document sel_iframe) w1) as Hrun.
  assert (Hgoal : parent_at
            (dom (world_of (forEach (sweep_iframe kws)
                    (querySelectorAll (dom w1) document sel_iframe) w1))) s
          = Some None).
  { apply (blocking_run_keeps_removed w1).
    - apply Hrun; [congruence|].
      intros n Hn. now apply In_querySelectorAll in Hn.
    - eapply has_tag_bound. rewrite Htag. exact Hts.
    - rewrite Htag. exact Hts.
    - now apply Hrem. }
  unfold blockTrackingScripts. rewrite Hon. cbn [negb]. unfold bind.
  rewrite Hs.
  destruct (forEach (sweep_iframe kws) _ w1) as [w2 []|w2 msg];
    cbn [world_of] in *.
  - pose proof (dom_observe (ObsBlock kws) w2) as Hobs.
    destruct (observe (ObsBlock kws) w2) as [w3 []|w3 m3];
      cbn [world_of ret] in *; rewrite Hobs, parent_of_lookup;
      fold (parent_at (dom w2) s); now rewrite Hgoal.
  - rewrite parent_of_lookup. fold (parent_at (dom w2) s). now rewrite Hgoal.
Qed.

Lemma blockTrackingScripts_removes_scripts_witness :
  parent_of
    (dom (world_of (blockTrackingScripts ["track.example"]
                      (fresh_world sample_page)))) 4 = None.
Proof.
  refine (blockTrackingScripts_removes_scripts ["track.example"]
            (fresh_world sample_page) 4 _ _ _).
  - reflexivity.
  - vm_compute. now left.
  - reflexivity.
Defined.

(** ** The tree that createContentPlaceholder builds *)

Lemma detach_orphan (n : nat) (d : store) :
  parent_of d n = None -> detach n d = d.
Proof. intros H. unfold detach. now rewrite H. Qed.

Lemma children_insertBefore_orphan (p new ref : nat) (d : store) :
  parent_of d new = None ->
  children <$> insertBefore p new ref d
  = alter (insert_before_in ref new) p (children <$> d).
Proof.
  intros H. unfold insertBefore. rewrite (detach_orphan _ _ H).
  rewrite view_alter_same by reflexivity. now apply view_alter.
Qed.

Lemma children_appendChild_orphan (p new : nat) (d : store) :
  parent_of d new = None ->
  children <$> appendChild p new d
  = alter (fun l => l ++ [new]) p (children <$> d).
Proof.
  intros H. unfold appendChild. rewrite (detach_orphan _ _ H).
  rewrite view_alter_same by reflexivity. now apply view_alter.
Qed.

Lemma children_appendChild_from (p q new : nat) (d : store) :
  parent_of d new = Some q ->
  children <$> appendChild p new d
  = alter (fun l => l ++ [new]) p
      (alter (filter (fun c => c <> new)) q (children <$> d)).
Proof.
  intros H. unfold appendChild.
  rewrite view_alter_same by reflexivity.
  rewrite (view_alter children _ (fun l => l ++ [new])) by reflexivity.
  now rewrite (children_detach_view new q).
Qed.

Lemma children_set_innerHTML (el : nat) (id : string) (d : store) :
  children <$> set_innerHTML el id d
  = alter (fun _ => [length d]) el (children <$> d)
    ++ (children <$> createPlaceholderContent id el (length d)).
Proof.
  unfold set_innerHTML.
  assert (Hlen : length (fold_left (fun acc c => alter (set_parent None) c acc)
                           (children_of d el) d) = length d).
  { apply length_by_kinds. apply view_orphan_all; view_side. }
  rewrite fmap_app, Hlen. f_equal.
  rewrite (view_alter children _ (fun _ => [length d])) by reflexivity.
  f_equal. apply view_orphan_all; view_side.
Qed.


Lemma insert_before_in_split (ref new : nat) (l1 l2 : list nat) :
  ~ In ref l1 ->
  insert_before_in ref new (l1 ++ ref :: l2) = l1 ++ new :: ref :: l2.
Proof.
  induction l1 as [|x rest IH]; intros Hnot; cbn [insert_before_in app].
  - now rewrite Nat.eqb_refl.
  - destruct (Nat.eqb_spec x ref) as [->|Hne].
    + exfalso. apply Hnot. now left.
    + rewrite IH; [reflexivity|]. intros Hin. apply Hnot. now right.
Qed.

Lemma filter_ne_absent (x : nat) (l : list nat) :
  ~ In x l -> filter (fun c => c <> x) l = l.
Proof.
  induction l as [|y rest IH]; intros Hnot; [reflexivity|].
  rewrite filter_cons. destruct (decide (y <> x)) as [_|Heq].
  - rewrite IH; [reflexivity|]. intros Hin. apply Hnot. now right.
  - exfalso. apply Hnot. left. now destruct (decide (y = x)).
Qed.

Lemma filter_ne_split (x new : nat) (l1 l2 : list nat) :
  ~ In x l1 -> ~ In x l2 -> new <> x ->
  filter (fun c => c <> x) (l1 ++ new :: x :: l2) = l1 ++ new :: l2.
Proof.
  intros H1 H2 Hne.
  rewrite filter_app, (filter_ne_absent x l1 H1).
  rewrite filter_cons_True by exact Hne.
  rewrite filter_cons_False by (intros H; now apply H).
  now rewrite (filter_ne_absent x l2 H2).
Qed.

Lemma parents_fresh_wrapper (props : list (string * string)) (id : string)
    (d : store) :
  parent <$> set_innerHTML (length d) id
               (set_styles (length d) props (d ++ [new_element "DIV"]))
  = (parent <$> d)
    ++ [ None; Some (length d); Some (length d + 1); Some (length d + 1);
         Some (length d + 1); Some (length d + 1); Some (length d + 1) ].
Proof.
  rewrite parents_set_innerHTML.
  assert (Hfresh : children_of (set_styles (length d) props
                                  (d ++ [new_element "DIV"])) (length d) = []).
  { rewrite children_of_lookup.
    rewrite view_set_styles by view_side. rewrite fmap_app.
    rewrite lookup_app_r by (rewrite length_fmap; lia).
    rewrite length_fmap, Nat.sub_diag. reflexivity. }
  rewrite Hfresh. cbn [fold_left].
  rewrite view_set_styles by view_side.
  autorewrite with store_len. cbn [length].
  rewrite fmap_app, <- app_assoc. reflexivity.
Qed.

Lemma build_placeholder_parent_view (i p : nat) (u id : string) (d : store) :
  parent <$> snd (build_placeholder i p u id d)
  = <[length d + 7 := Some (length d)]>
      (<[i := Some (length d)]>
         (<[length d := Some p]>
            ((parent <$> d)
             ++ [ None; Some (length d); Some (length d + 1);
                  Some (length d + 1); Some (length d + 1);
                  Some (length d + 1); Some (length d + 1); None ]))).
Proof.
  open_build_placeholder.
  remember (setAttribute i "src" "about:blank"
              (setAttribute i "data-original-src" u
                 (setAttribute i "data-cookie-blocked" "true" d)))
    as d3 eqn:Hd3.
  assert (Hlen : length d3 = length d)
    by (subst d3; now rewrite !length_setAttribute).
  assert (Hpar : parent <$> d3 = parent <$> d)
    by (subst d3; now rewrite !view_setAttribute by view_side).
  clear Hd3. push_views. autorewrite with store_len. cbn [length].
  rewrite parents_fresh_wrapper, Hpar, Hlen, <- app_assoc.
  replace (length d + 1 + 6) with (length d + 7) by lia.
  reflexivity.
Qed.

Lemma build_placeholder_children_view (i p : nat) (u id : string)
    (d : store) :
  i < length d -> parent_of d i = Some p ->
  children <$> snd (build_placeholder i p u id d)
  = alter (fun l => l ++ [length d + 7]) (length d)
      (alter (fun l => l ++ [i]) (length d)
         (alter (filter (fun c => c <> i)) p
            (alter (insert_before_in i (length d)) p
               ((children <$> d)
                ++ [ [length d + 1];
                     [length d + 2; length d + 3; length d + 4;
                      length d + 5; length d + 6];
                     []; []; []; []; []; [] ])))).
Proof.
  intros Hi Hp. open_build_placeholder.
  remember (setAttribute i "src" "about:blank"
              (setAttribute i "data-original-src" u
                 (setAttribute i "data-cookie-blocked" "true" d)))
    as d3 eqn:Hd3.
  assert (Hlen : length d3 = length d)
    by (subst d3; now rewrite !length_setAttribute).
  assert (Hpar : parent <$> d3 = parent <$> d)
    by (subst d3; now rewrite !view_setAttribute by view_side).
  assert (Hch : children <$> d3 = children <$> d)
    by (subst d3; now rewrite !view_setAttribute by view_side).
  assert (Hpi : (parent <$> d) !! i = Some (Some p)).
  { rewrite parent_of_lookup in Hp.
    destruct ((parent <$> d) !! i) as [q|]; [|discriminate].
    change (q = Some p) in Hp. now subst q. }
  clear Hd3.
  rewrite view_addSettingsButtonListeners by view_side.
  rewrite children_appendChild_orphan.
  2: { rewrite parent_of_lookup. push_views.
       autorewrite with store_len. cbn [length].
       rewrite parents_fresh_wrapper, Hpar, Hlen.
       rewrite !list_lookup_insert_ne by lia.
       rewrite lookup_app_r
         by (rewrite length_app, length_fmap; cbn [length]; lia).
       rewrite length_app, length_fmap. cbn [length].
       replace (length d + 1 + 6 - (length d + 7)) with 0 by lia.
       reflexivity. }
  rewrite (children_appendChild_from _ p).
  2: { rewrite parent_of_lookup. push_views.
       autorewrite with store_len. cbn [length].
       rewrite parents_fresh_wrapper, Hpar, Hlen.
       rewrite list_lookup_insert_ne by lia.
       rewrite <- app_assoc, lookup_app_l by (rewrite length_fmap; lia).
       now rewrite Hpi. }
  rewrite view_set_styles by view_side.
  rewrite children_insertBefore_orphan.
  2: { rewrite parent_of_lookup. push_views.
       autorewrite with store_len. cbn [length].
       rewrite parents_fresh_wrapper, Hpar, Hlen.
       rewrite <- app_assoc, lookup_app_r by (rewrite length_fmap; lia).
       rewrite length_fmap, Nat.sub_diag. reflexivity. }
  push_views. rewrite children_set_innerHTML. push_views.
  autorewrite with store_len. cbn [length].
  rewrite Hch, Hlen.
  replace (length d + 1 + 6) with (length d + 7) by lia.
  do 4 f_equal.
  rewrite <- !app_assoc.
  rewrite alter_app_r_alt by (rewrite length_fmap; lia).
  rewrite length_fmap, Nat.sub_diag.
  cbn [fmap list_fmap createPlaceholderContent children markup_node
       new_element alter list_alter app].
  replace (length d + 1 + 1) with (length d + 2) by lia.
  replace (length d + 1 + 2) with (length d + 3) by lia.
  replace (length d + 1 + 3) with (length d + 4) by lia.
  replace (length d + 1 + 4) with (length d + 5) by lia.
  replace (length d + 1 + 5) with (length d + 6) by lia.
  now rewrite <- app_assoc.
Qed.

Lemma style_of_lookup (d : store) (n : nat) (k : string) :
  style_of d n k
  = match (style <$> d) !! n with
    | Some m => default "" (m !! k)
    | None => ""
    end.
Proof. unfold style_of. rewrite list_lookup_fmap. now destruct (d !! n). Qed.

Lemma styles_set_styles (n : nat) (props : list (string * string))
    (d : store) :
  style <$> set_styles n props d = alter (apply_styles props) n (style <$> d).
Proof. rewrite set_styles_alter. now apply view_alter. Qed.

Lemma styles_set_style_prop (n : nat) (k v : string) (d : store) :
  style <$> set_style_prop n k v d
  = alter (fun m => apply_style m (k, v)) n (style <$> d).
Proof. now apply view_alter. Qed.

Lemma styles_fresh_wrapper (props : list (string * string)) (id : string)
    (d : store) :
  style <$> set_innerHTML (length d) id
              (set_styles (length d) props (d ++ [new_element "DIV"]))
  = (style <$> d) ++ [apply_styles props ∅]
    ++ (style <$> createPlaceholderContent id (length d) (length d + 1)).
Proof.
  rewrite view_set_innerHTML by view_side.
  rewrite styles_set_styles, fmap_app.
  rewrite alter_app_r_alt by (rewrite length_fmap; lia).
  rewrite length_fmap, Nat.sub_diag.
  autorewrite with store_len. cbn [length].
  now rewrite <- app_assoc.
Qed.

Lemma build_placeholder_style_view (i p : nat) (u id : string) (d : store) :
  i < length d ->
  style <$> snd (build_placeholder i p u id d)
  = alter (apply_styles hidden_iframe_styles) i
      (alter (fun m => apply_style m ("display", "none")) (length d + 7)
         ((style <$> d)
          ++ [apply_styles
                (wrapper_styles (or_else (style_of d i "width") "100%")
                   (or_else (style_of d i "height") "315px")) ∅]
          ++ (style <$> createPlaceholderContent id (length d) (length d + 1))
          ++ [∅])).
Proof.
  intros Hi. open_build_placeholder.
  remember (setAttribute i "src" "about:blank"
              (setAttribute i "data-original-src" u
                 (setAttribute i "data-cookie-blocked" "true" d)))
    as d3 eqn:Hd3.
  assert (Hlen : length d3 = length d)
    by (subst d3; now rewrite !length_setAttribute).
  assert (Hst : style <$> d3 = style <$> d)
    by (subst d3; now rewrite !view_setAttribute by view_side).
  assert (Hso : forall k, style_of (d3 ++ [new_element "DIV"]) i k
                          = style_of d i k).
  { intros k. rewrite !style_of_lookup, fmap_app.
    rewrite lookup_app_l by (rewrite length_fmap; lia). now rewrite Hst. }
  clear Hd3.
  rewrite view_addSettingsButtonListeners by view_side.
  rewrite !view_appendChild by view_side.
  rewrite styles_set_styles.
  rewrite view_insertBefore by view_side.
  rewrite styles_set_style_prop.
  rewrite !view_setAttribute by view_side.
  rewrite fmap_app, styles_fresh_wrapper, !Hso, Hst.
  autorewrite with store_len. cbn [length]. rewrite Hlen.
  replace (length d + 1 + 6) with (length d + 7) by lia.
  do 2 f_equal. rewrite <- !app_assoc. reflexivity.
Qed.

Lemma build_placeholder_marker (i p : nat) (u id : string) (d : store) :
  attrs_at (snd (build_placeholder i p u id d)) (length d + 7)
  = Some (<["data-blocked-src" := u]>
            (<["data-cookie-consent-placeholder" := "true"]>
               (<["class" := "cookie-consent-blocked-iframe"]>
                  (<["id" := id]> ∅)))).
Proof.
  unfold attrs_at. open_build_placeholder.
  remember (setAttribute i "src" "about:blank"
              (setAttribute i "data-original-src" u
                 (setAttribute i "data-cookie-blocked" "true" d)))
    as d3 eqn:Hd3.
  assert (Hlen : length d3 = length d)
    by (subst d3; now rewrite !length_setAttribute).
  clear Hd3. push_views. autorewrite with store_len. cbn [length].
  rewrite Hlen. replace (length d + 1 + 6) with (length d + 7) by lia.
  rewrite !list_lookup_alter_eq.
  rewrite lookup_app_r
    by (rewrite !length_app, !length_fmap, Hlen;
        cbn [length createPlaceholderContent]; lia).
  rewrite !length_app, !length_fmap, Hlen.
  cbn [length createPlaceholderContent].
  replace (length d + 7 - (length d + 1 + 6)) with 0 by lia.
  reflexivity.
Qed.

(** What a successful [createContentPlaceholder] builds: a new element, the
    wrapper, takes the iframe's place among the children of the iframe's
    parent; its children are the panel, the iframe and a hidden marker that
    records the URL; the wrapper inherits the iframe's inline width and
    height, with ["100%"] and ["315px"] as defaults; and [Math.random] is
    drawn once, for the marker's id. *)
Theorem createContentPlaceholder_layout (w : world) (i p : nat) (u : string)
    (l1 l2 : list nat) :
  parentElement (dom w) i = Some p ->
  children_of (dom w) p = l1 ++ i :: l2 -> ~ In i l1 -> ~ In i l2 ->
  let wr := length (dom w) in
  let marker := wr + 7 in
  exists w',
    createContentPlaceholder i u w = Returned w' wr
    /\ draws w' = S (draws w)
    /\ length (dom w') = wr + 8
    /\ children_of (dom w') p = l1 ++ wr :: l2
    /\ parent_of (dom w') wr = Some p
    /\ children_of (dom w') wr = [wr + 1; i; marker]
    /\ parent_of (dom w') i = Some wr
    /\ parent_of (dom w') marker = Some wr
    /\ sel_placeholder (dom w') marker = true
    /\ getAttribute (dom w') marker "data-blocked-src" = Some u
    /\ getAttribute (dom w') marker "id"
       = Some ("cookie-blocked-content-" ++ rand w (draws w))%string
    /\ style_of (dom w') marker "display" = "none"
    /\ style_of (dom w') wr "width"
       = or_else (style_of (dom w) i "width") "100%"
    /\ style_of (dom w') wr "height"
       = or_else (style_of (dom w) i "height") "315px"
    /\ (forall k v, In (k, v) hidden_iframe_styles ->
                    style_of (dom w') i k = v).
Proof.
  intros Hpe Hch Hn1 Hn2 wr marker.
  assert (Hp : parent_of (dom w) i = Some p)
    by now apply parentElement_Some in Hpe.
  assert (Hi : i < length (dom w)).
  { unfold parent_of in Hp. destruct (dom w !! i) eqn:Hx; [|discriminate].
    eapply lookup_lt_Some, Hx. }
  assert (Hpl : p < length (dom w)).
  { unfold children_of in Hch. destruct (dom w !! p) eqn:Hx.
    - eapply lookup_lt_Some, Hx.
    - now destruct l1. }
  unfold createContentPlaceholder, draw. cbv beta iota; cbn [dom].
  rewrite Hpe.
  set (id := ("cookie-blocked-content-" ++ rand w (draws w))%string).
  pose proof (build_placeholder_kinds i p u id (dom w)) as Hkinds.
  pose proof (build_placeholder_parent_view i p u id (dom w)) as Hparents.
  pose proof (build_placeholder_children_view i p u id (dom w) Hi Hp)
    as Hchildren.
  pose proof (build_placeholder_style_view i p u id (dom w) Hi) as Hstyles.
  pose proof (build_placeholder_marker i p u id (dom w)) as Hmarker.
  assert (Hwr : fst (build_placeholder i p u id (dom w)) = wr).
  { open_build_placeholder. now rewrite !length_setAttribute. }
  destruct (build_placeholder i p u id (dom w)) as [wrapper d'].
  cbn [snd fst] in *. subst wrapper.
  fold wr in Hparents, Hchildren, Hstyles, Hmarker. fold marker in Hmarker.
  eexists. split; [reflexivity|]. cbn [dom draws with_dom].
  assert (Hlen : length d' = wr + 8).
  { rewrite <- (length_fmap kind d'), Hkinds, length_app, length_fmap.
    reflexivity. }
  assert (Hcs : (children <$> dom w) !! p = Some (l1 ++ i :: l2)).
  { rewrite children_of_lookup in Hch.
    destruct ((children <$> dom w) !! p) as [cs|] eqn:Hcs.
    - change (cs = l1 ++ i :: l2) in Hch. now subst cs.
    - apply lookup_ge_None in Hcs. rewrite length_fmap in Hcs. lia. }
  split; [reflexivity|]. split; [exact Hlen|].
  split.
  { rewrite children_of_lookup, Hchildren.
    rewrite !list_lookup_alter_ne by (unfold wr; lia).
    rewrite !list_lookup_alter_eq.
    rewrite lookup_app_l by (rewrite length_fmap; lia).
    rewrite Hcs. cbn [fmap option_fmap option_map default from_option id].
    rewrite insert_before_in_split by exact Hn1.
    apply filter_ne_split; auto. unfold wr. lia. }
  split.
  { rewrite parent_of_lookup, Hparents.
    rewrite !list_lookup_insert_ne by (unfold wr; lia).
    rewrite list_lookup_insert_eq
      by (rewrite length_app, length_fmap; cbn [length]; unfold wr; lia).
    reflexivity. }
  split.
  { rewrite children_of_lookup, Hchildren.
    rewrite !list_lookup_alter_eq.
    rewrite !list_lookup_alter_ne by (unfold wr; lia).
    rewrite lookup_app_r by (rewrite length_fmap; unfold wr; lia).
    rewrite length_fmap. unfold wr. rewrite Nat.sub_diag. reflexivity. }
  split.
  { rewrite parent_of_lookup, Hparents.
    rewrite list_lookup_insert_ne by (unfold wr; lia).
    rewrite list_lookup_insert_eq; [reflexivity|].
    rewrite length_insert, length_app, length_fmap. lia. }
  split.
  { rewrite parent_of_lookup, Hparents.
    rewrite list_lookup_insert_eq; [reflexivity|].
    rewrite !length_insert, length_app, length_fmap. cbn [length].
    unfold wr. lia. }
  assert (Hget : forall a, getAttribute d' marker a
                 = (<["data-blocked-src" := u]>
                      (<["data-cookie-consent-placeholder" := "true"]>
                         (<["class" := "cookie-consent-blocked-iframe"]>
                            (<["id" := id]> (∅ : gmap string string))))) !! a).
  { intros a. rewrite getAttribute_at. now rewrite Hmarker. }
  split.
  { unfold sel_placeholder, attr_is. rewrite Hget.
    rewrite lookup_insert_ne by discriminate. rewrite lookup_insert_eq.
    rewrite is_element_lookup, Hkinds.
    rewrite lookup_app_r by (rewrite length_fmap; unfold marker, wr; lia).
    rewrite length_fmap. unfold marker, wr.
    replace (length (dom w) + 7 - length (dom w)) with 7 by lia.
    reflexivity. }
  split; [rewrite Hget; apply lookup_insert_eq|].
  split.
  { rewrite Hget. rewrite !lookup_insert_ne by discriminate.
    apply lookup_insert_eq. }
  assert (Hsl : forall n k, style_of d' n k
                = match (style <$> d') !! n with
                  | Some m => default "" (m !! k)
                  | None => ""
                  end) by (intros; apply style_of_lookup).
  split.
  { rewrite Hsl, Hstyles.
    rewrite list_lookup_alter_ne by (unfold marker, wr; lia).
    unfold marker. rewrite list_lookup_alter_eq.
    rewrite lookup_app_r by (rewrite length_fmap; unfold wr; lia).
    rewrite length_fmap. unfold wr.
    replace (length (dom w) + 7 - length (dom w)) with 7 by lia.
    reflexivity. }
  assert (Hws : forall k, style_of d' wr k
                = default ""
                    (apply_styles
                       (wrapper_styles
                          (or_else (style_of (dom w) i "width") "100%")
                          (or_else (style_of (dom w) i "height") "315px"))
                       (∅ : gmap string string) !! k)).
  { intros k. rewrite Hsl, Hstyles.
    rewrite !list_lookup_alter_ne by (unfold wr; lia).
    rewrite lookup_app_r by (rewrite length_fmap; unfold wr; lia).
    rewrite length_fmap. unfold wr. rewrite Nat.sub_diag. reflexivity. }
  split.
  { rewrite Hws, lookup_apply_styles.
    generalize (or_else (style_of (dom w) i "width") "100%") as W.
    generalize (or_else (style_of (dom w) i "height") "315px") as H.
    intros H W. cbn. now destruct (String.eqb_spec W "") as [->|]. }
  split.
  { rewrite Hws, lookup_apply_styles.
    generalize (or_else (style_of (dom w) i "width") "100%") as W.
    generalize (or_else (style_of (dom w) i "height") "315px") as H.
    intros H W. cbn. now destruct (String.eqb_spec H "") as [->|]. }
  intros k v Hin. rewrite Hsl, Hstyles.
  rewrite list_lookup_alter_eq.
  rewrite list_lookup_alter_ne by (unfold wr; lia).
  rewrite lookup_app_l by (rewrite length_fmap; lia).
  destruct ((style <$> dom w) !! i) as [m|] eqn:Hm.
  2: { apply lookup_ge_None in Hm. rewrite length_fmap in Hm. lia. }
  cbn [fmap option_fmap option_map]. rewrite lookup_apply_styles.
  cbn [hidden_iframe_styles In] in Hin.
  repeat (destruct Hin as [[= <- <-]|Hin]; [reflexivity|]).
  destruct Hin.
Qed.

Lemma createContentPlaceholder_layout_witness :
  exists w',
    createContentPlaceholder 3 "https://youtube.com/embed/abc"
      (fresh_world sample_page) = Returned w' 5
    /\ children_of (dom w') 2 = [5; 4]
    /\ children_of (dom w') 5 = [6; 3; 12]
    /\ getAttribute (dom w') 12 "data-blocked-src"
       = Some "https://youtube.com/embed/abc"
    /\ style_of (dom w') 5 "height" = "315px".
Proof.
  destruct (createContentPlaceholder_layout (fresh_world sample_page) 3 2
              "https://youtube.com/embed/abc" [] [4])
    as (w' & Hr & _ & _ & Hp & _ & Hc & _ & _ & _ & Hm & _ & _ & _ & Hh & _).
  - reflexivity.
  - reflexivity.
  - intros [].
  - intros [H|[]]. discriminate H.
  - exists w'. repeat split; assumption.
Defined.

(** ** Reachability and the tree walk *)

Lemma subtree_within_reaches (d : store) (fuel : nat) (r x : nat) :
  In x (subtree_within fuel d (children_of d r)) <-> reaches d fuel r x.
Proof.
  revert r. induction fuel as [|fuel IH]; intros r;
    cbn [subtree_within reaches]; [tauto|].
  rewrite in_flat_map. split.
  - intros (n & Hn & [<-|Hx]); [now left|].
    right. exists n. split; [exact Hn|now apply IH].
  - intros [Hx|(n & Hn & Hx)].
    + exists x. split; [exact Hx|now left].
    + exists n. split; [exact Hn|]. right. now apply IH.
Qed.

Lemma descendants_reaches (d : store) (r x : nat) :
  In x (descendants d r) <-> reaches d (length d) r x.
Proof. apply subtree_within_reaches. Qed.

Lemma reaches_more (d : store) (k k' : nat) (r x : nat) :
  k <= k' -> reaches d k r x -> reaches d k' r x.
Proof.
  revert k' r. induction k as [|k IH]; intros k' r Hle; [intros []|].
  destruct k' as [|k']; [lia|]. cbn [reaches].
  intros [Hx|(n & Hn & Hx)]; [now left|].
  right. exists n. split; [exact Hn|]. apply IH; [lia|exact Hx].
Qed.

Lemma reaches_height (d : store) (h : nat -> nat) :
  (forall n q, parent_of d n = Some q -> h n < h q) ->
  (forall q c, In c (children_of d q) -> parent_of d c = Some q) ->
  forall k r x, reaches d k r x -> h x < h r.
Proof.
  intros Hh Hc k. induction k as [|k IH]; intros r x; [intros []|].
  cbn [reaches]. intros [Hx|(n & Hn & Hx)].
  - apply Hh, Hc, Hx.
  - specialize (IH n x Hx). pose proof (Hh n r (Hc r n Hn)). lia.
Qed.

(** ** The store after createContentPlaceholder *)

Lemma build_placeholder_new_attrs (i p : nat) (u id : string) (d : store)
    (n : nat) :
  length d <= n ->
  attrs_at (snd (build_placeholder i p u id d)) n
  = [ ∅; ∅; ∅; ∅; ∅; ∅;
      {[ "id" := ("cookie-settings-" ++ id)%string ]};
      <["data-blocked-src" := u]>
        (<["data-cookie-consent-placeholder" := "true"]>
           (<["class" := "cookie-consent-blocked-iframe"]>
              (<["id" := id]> ∅))) ] !! (n - length d).
Proof.
  intros Hn. unfold attrs_at. open_build_placeholder.
  remember (setAttribute i "src" "about:blank"
              (setAttribute i "data-original-src" u
                 (setAttribute i "data-cookie-blocked" "true" d)))
    as d3 eqn:Hd3.
  assert (Hlen : length d3 = length d)
    by (subst d3; now rewrite !length_setAttribute).
  clear Hd3. push_views. autorewrite with store_len. cbn [length].
  rewrite Hlen. replace (length d + 1 + 6) with (length d + 7) by lia.
  rewrite <- !app_assoc.
  cbn [createPlaceholderContent fmap list_fmap attrs markup_node new_element
       app list_to_map foldr].
  rewrite !alter_app_r_alt by (rewrite length_fmap; lia).
  rewrite !length_fmap, Hlen.
  replace (length d + 7 - length d) with 7 by lia.
  rewrite lookup_app_r by (rewrite length_fmap; lia).
  rewrite length_fmap, Hlen.
  reflexivity.
Qed.

Section BuiltTree.
Variables (i p : nat) (u pid : string) (d : store).
Hypothesis Hi : i < length d.
Hypothesis Hp : parent_of d i = Some p.

Local Abbreviation built := (snd (build_placeholder i p u pid d)).
Local Abbreviation len := (length d).

Lemma built_parent_iframe : parent_of built i = Some len.
Proof.
  rewrite parent_of_lookup, build_placeholder_parent_view.
  rewrite list_lookup_insert_ne by lia.
  rewrite list_lookup_insert_eq; [reflexivity|].
  rewrite length_insert, length_app, length_fmap. lia.
Qed.

Lemma built_parent_old (n : nat) :
  n < len -> n <> i -> parent_of built n = parent_of d n.
Proof.
  intros Hn Hne.
  rewrite !parent_of_lookup, build_placeholder_parent_view.
  rewrite !list_lookup_insert_ne by lia.
  now rewrite lookup_app_l by (rewrite length_fmap; lia).
Qed.

Lemma built_parent_new (k : nat) :
  parent_of built (len + k)
  = nth k [ Some p; Some len; Some (len + 1); Some (len + 1);
            Some (len + 1); Some (len + 1); Some (len + 1); Some len ] None.
Proof.
  rewrite parent_of_lookup, build_placeholder_parent_view.
  assert (Hlen : length ((parent <$> d)
                   ++ [ None; Some len; Some (len + 1); Some (len + 1);
                        Some (len + 1); Some (len + 1); Some (len + 1);
                        None ]) = len + 8)
    by (rewrite length_app, length_fmap; reflexivity).
  destruct (decide (k = 7)) as [->|H7].
  - rewrite list_lookup_insert_eq; [reflexivity|].
    rewrite !length_insert. lia.
  - rewrite list_lookup_insert_ne by lia.
    rewrite list_lookup_insert_ne by lia.
    destruct (decide (k = 0)) as [->|H0].
    + rewrite Nat.add_0_r, list_lookup_insert_eq by lia. reflexivity.
    + rewrite list_lookup_insert_ne by lia.
      rewrite lookup_app_r by (rewrite length_fmap; lia).
      rewrite length_fmap.
      replace (len + k - len) with k by lia.
      do 8 (destruct k as [|k]; [try reflexivity; lia|]).
      now destruct k.
Qed.

Lemma built_children_old (n : nat) :
  n < len -> n <> p -> children_of built n = children_of d n.
Proof.
  intros Hn Hne.
  rewrite !children_of_lookup, build_placeholder_children_view by assumption.
  rewrite !list_lookup_alter_ne by lia.
  now rewrite lookup_app_l by (rewrite length_fmap; lia).
Qed.

Lemma built_children_parent (l1 l2 : list nat) :
  p < len ->
  children_of d p = l1 ++ i :: l2 -> ~ In i l1 -> ~ In i l2 ->
  children_of built p = l1 ++ len :: l2.
Proof.
  intros Hpl Hch Hn1 Hn2.
  assert (Hcs : (children <$> d) !! p = Some (l1 ++ i :: l2)).
  { rewrite children_of_lookup in Hch.
    destruct ((children <$> d) !! p) as [cs|] eqn:Hcs.
    - change (cs = l1 ++ i :: l2) in Hch. now subst cs.
    - apply lookup_ge_None in Hcs. rewrite length_fmap in Hcs. lia. }
  rewrite children_of_lookup, build_placeholder_children_view by assumption.
  rewrite !list_lookup_alter_ne by lia.
  rewrite !list_lookup_alter_eq.
  rewrite lookup_app_l by (rewrite length_fmap; lia).
  rewrite Hcs. cbn [fmap option_fmap option_map default from_option id].
  rewrite insert_before_in_split by exact Hn1.
  apply filter_ne_split; auto. lia.
Qed.

Lemma built_children_new (k : nat) :
  p < len ->
  children_of built (len + k)
  = nth k [ [len + 1; i; len + 7];
            [len + 2; len + 3; len + 4; len + 5; len + 6] ] [].
Proof.
  intros Hpl.
  rewrite children_of_lookup, build_placeholder_children_view by assumption.
  destruct (decide (k = 0)) as [->|H0].
  - rewrite Nat.add_0_r, !list_lookup_alter_eq.
    rewrite !list_lookup_alter_ne by lia.
    rewrite lookup_app_r by (rewrite length_fmap; lia).
    rewrite length_fmap, Nat.sub_diag. reflexivity.
  - rewrite !list_lookup_alter_ne by lia.
    rewrite lookup_app_r by (rewrite length_fmap; lia).
    rewrite length_fmap.
    replace (len + k - len) with k by lia.
    do 8 (destruct k as [|k]; [try reflexivity; lia|]).
    now destruct k.
Qed.

Lemma built_kind_old (n : nat) :
  n < len -> kind_at built n = kind_at d n.
Proof.
  intros Hn. unfold kind_at. rewrite build_placeholder_kinds.
  now rewrite lookup_app_l by (rewrite length_fmap; lia).
Qed.

Lemma built_kind_new (k : nat) :
  kind_at built (len + k)
  = [ KElement "DIV"; KElement "DIV"; KElement "DIV"; KElement "H3";
      KElement "P"; KElement "P"; KElement "DIV"; KElement "DIV" ] !! k.
Proof.
  unfold kind_at. rewrite build_placeholder_kinds.
  rewrite lookup_app_r by (rewrite length_fmap; lia).
  rewrite length_fmap. now replace (len + k - len) with k by lia.
Qed.

Lemma built_attrs_old (n : nat) :
  n < len -> n <> i -> attrs_at built n = attrs_at d n.
Proof.
  intros Hn Hne. unfold attrs_at.
  rewrite build_placeholder_attrs by exact Hn.
  now rewrite !list_lookup_alter_ne by congruence.
Qed.

Lemma built_length : length built = len + 8.
Proof.
  rewrite <- (length_fmap kind), build_placeholder_kinds.
  now rewrite length_app, length_fmap.
Qed.

End BuiltTree.

Ltac height_cases :=
  unfold block_height;
  repeat match goal with
         | |- context [Nat.ltb ?a ?b] => destruct (Nat.ltb_spec a b)
         | |- context [Nat.eqb ?a ?b] => destruct (Nat.eqb_spec a b)
         end;
  lia.

Section BlockedLayout.
Variables (kws : list string) (i p : nat) (u pid : string) (d : store).
Hypothesis Htidy : tidy_page d.
Variable h : nat -> nat.
Hypothesis Hh : forall n q, parent_of d n = Some q -> h n < h q.
Hypothesis Htag : has_tag d "IFRAME" i = true.
Hypothesis Hdoc : In i (descendants d document).
Hypothesis Hpe : parentElement d i = Some p.

Local Abbreviation built := (snd (build_placeholder i p u pid d)).
Local Abbreviation len := (length d).

Lemma tidy_parent : parent_of d i = Some p /\ is_element d p = true.
Proof. now apply parentElement_Some. Qed.

Lemma tidy_bounds : i < len /\ p < len /\ h i < h p.
Proof.
  destruct tidy_parent as [Hp _]. split; [|split].
  - eapply has_tag_bound, Htag.
  - eapply (tp_parent_range d Htidy), Hp.
  - apply Hh, Hp.
Qed.

Lemma tidy_listed : In i (children_of d p).
Proof.
  destruct (descendants_from _ _ _ Hdoc) as (q & Hq & _).
  pose proof (tp_children d Htidy q i Hq) as Hpq.
  destruct tidy_parent as [Hp _]. congruence.
Qed.

Lemma tidy_split :
  exists l1 l2, children_of d p = l1 ++ i :: l2 /\ ~ In i l1 /\ ~ In i l2.
Proof.
  destruct (in_split _ _ tidy_listed) as (l1 & l2 & Hs).
  exists l1, l2. split; [exact Hs|].
  pose proof (tp_nodup d Htidy p) as Hnd. rewrite Hs in Hnd.
  apply NoDup_ListNoDup, List.NoDup_remove_2 in Hnd.
  rewrite in_app_iff in Hnd. tauto.
Qed.

Lemma built_blocked : blocked_as built i u.
Proof. apply build_placeholder_blocked. apply tidy_bounds. Qed.

Lemma built_get_old (n : nat) (a : string) :
  n < len -> n <> i -> getAttribute built n a = getAttribute d n a.
Proof.
  intros Hn Hne. apply getAttribute_same. now apply built_attrs_old.
Qed.

Lemma built_get_kept (a : string) :
  a <> "src" -> a <> "data-original-src" -> a <> "data-cookie-blocked" ->
  getAttribute built i a = getAttribute d i a.
Proof.
  intros H1 H2 H3. destruct tidy_bounds as (Hi & _).
  rewrite !getAttribute_at. unfold attrs_at.
  rewrite build_placeholder_attrs by exact Hi.
  rewrite !list_lookup_alter_eq.
  destruct ((attrs <$> d) !! i) as [m|]; [|reflexivity].
  cbn [fmap option_fmap option_map mbind option_bind].
  now rewrite !lookup_insert_ne by congruence.
Qed.

Lemma built_get_new (k : nat) (a : string) :
  getAttribute built (len + k) a
  = (([ ∅; ∅; ∅; ∅; ∅; ∅;
       {[ "id" := ("cookie-settings-" ++ pid)%string ]};
       <["data-blocked-src" := u]>
         (<["data-cookie-consent-placeholder" := "true"]>
            (<["class" := "cookie-consent-blocked-iframe"]>
               (<["id" := pid]> ∅))) ] : list (gmap string string)) !! k)
    ≫= (fun m => m !! a).
Proof.
  rewrite getAttribute_at, build_placeholder_new_attrs by lia.
  now replace (len + k - len) with k by lia.
Qed.

Lemma built_record (n : nat) (v : string) :
  getAttribute built n "data-original-src" = Some v -> n = i /\ v = u.
Proof.
  intros Hv. destruct (decide (n < len)) as [Hn|Hn].
  - destruct (decide (n = i)) as [->|Hne].
    + destruct built_blocked as (_ & _ & Hr). split; congruence.
    + rewrite built_get_old in Hv by assumption.
      now rewrite (tp_no_record d Htidy) in Hv.
  - exfalso. replace n with (len + (n - len)) in Hv by lia.
    rewrite built_get_new in Hv.
    destruct (n - len) as [|[|[|[|[|[|[|[|k]]]]]]]];
      cbn [lookup list_lookup mbind option_bind] in Hv;
      rewrite ?lookup_empty in Hv; discriminate Hv.
Qed.

Lemma built_marker (n : nat) :
  sel_placeholder built n = true -> n = len + 7.
Proof.
  unfold sel_placeholder, attr_is. intros Hs.
  apply andb_true_iff in Hs as [He Ha].
  pose proof (tp_no_marker d Htidy n) as Hnone.
  unfold sel_placeholder, attr_is in Hnone.
  destruct (decide (n < len)) as [Hn|Hn].
  - exfalso.
    rewrite is_element_lookup in He. fold (kind_at built n) in He.
    rewrite (built_kind_old i p u pid d (proj1 tidy_bounds)) in He by exact Hn.
    rewrite is_element_lookup in Hnone. fold (kind_at d n) in Hnone.
    rewrite He in Hnone. cbn [andb] in Hnone.
    destruct (decide (n = i)) as [->|Hne].
    + rewrite built_get_kept in Ha by discriminate. congruence.
    + rewrite built_get_old in Ha by assumption. congruence.
  - replace n with (len + (n - len)) in Ha by lia.
    rewrite built_get_new in Ha.
    destruct (n - len) as [|[|[|[|[|[|[|[|k]]]]]]]] eqn:Hk;
      cbn [lookup list_lookup mbind option_bind] in Ha;
      rewrite ?lookup_empty in Ha; try discriminate Ha.
    lia.
Qed.

Lemma built_tag_iframe : has_tag built "IFRAME" i = true.
Proof.
  rewrite (has_tag_same d); [exact Htag|].
  apply (built_kind_old i p u pid d); apply tidy_bounds.
Qed.

Lemma built_iframe_selected : sel_blocked_iframe built i = true.
Proof.
  destruct built_blocked as (_ & Hm & Hr).
  unfold sel_blocked_iframe, attr_is, hasAttribute.
  rewrite built_tag_iframe, Hm, Hr. cbn [andb].
  rewrite andb_true_r, is_element_lookup.
  pose proof built_tag_iframe as Ht. rewrite has_tag_lookup in Ht.
  destruct ((kind <$> built) !! i) as [[| | |t]|]; try discriminate Ht.
  reflexivity.
Qed.

Lemma built_reaches (k r : nat) :
  reaches d k r i -> reaches built (S k) r i.
Proof.
  destruct tidy_parent as [Hp _].
  destruct tidy_bounds as (Hi & Hpl & Hlt).
  destruct tidy_split as (l1 & l2 & Hs & Hn1 & Hn2).
  pose proof (built_children_parent i p u pid d Hi Hp l1 l2 Hpl Hs Hn1 Hn2)
    as Hcp.
  pose proof (built_children_new i p u pid d Hi Hp 0 Hpl) as Hcw.
  rewrite Nat.add_0_r in Hcw. cbn [nth] in Hcw.
  revert r. induction k as [|k IH]; intros r; [intros []|].
  cbn [reaches]. intros [Hx|(n & Hn & Hx)].
  - assert (r = p) by (pose proof (tp_children d Htidy r i Hx); congruence).
    subst r. right. exists len. split.
    + rewrite Hcp. apply in_elt.
    + destruct k; cbn [reaches]; left; rewrite Hcw; right; now left.
  - right. exists n. split; [|now apply IH].
    assert (Hni : n <> i).
    { intros ->.
      pose proof (reaches_height d h Hh (tp_children d Htidy) k i i Hx). lia. }
    destruct (decide (r = p)) as [->|Hrp].
    + rewrite Hcp. rewrite Hs in Hn.
      apply in_app_iff in Hn as [Hn|[Hn|Hn]];
        [apply in_app_iff; now left|congruence|].
      apply in_app_iff. right. now right.
    + rewrite built_children_old; [exact Hn|exact Hi|exact Hp| |exact Hrp].
      pose proof (tp_children d Htidy r n Hn) as Hpr.
      eapply (tp_parent_range d Htidy), Hpr.
Qed.

Lemma built_in_document : In i (descendants built document).
Proof.
  destruct tidy_parent as [Hp _]. destruct tidy_bounds as (Hi & _).
  apply descendants_reaches.
  apply (reaches_more built (S len)).
  - rewrite (built_length i p u pid d). lia.
  - apply built_reaches. now apply descendants_reaches.
Qed.

Lemma built_harmful (n : nat) :
  harmful kws (getAttribute built n "data-original-src") = true ->
  n = i /\ harmful kws (Some u) = true.
Proof.
  intros Hhf.
  destruct (getAttribute built n "data-original-src") as [v|] eqn:Hv;
    [|discriminate].
  destruct (built_record n v Hv) as [-> ->]. auto.
Qed.

Lemma built_restorable (n : nat) :
  restorable kws built n = true -> n = i.
Proof.
  unfold restorable. intros [_ Hhf]%andb_true_iff.
  now apply built_harmful in Hhf.
Qed.

Lemma built_layout : restorable_layout kws built.
Proof.
  destruct tidy_parent as [Hp Hep].
  destruct tidy_bounds as (Hi & Hpl & Hlt).
  destruct tidy_split as (l1 & l2 & Hs & Hn1 & Hn2).
  pose proof (built_parent_iframe i p u pid d Hi) as Hpi.
  pose proof (built_parent_old i p u pid d Hi) as Hpo.
  pose proof (built_parent_new i p u pid d Hi) as Hpn.
  pose proof (built_children_parent i p u pid d Hi Hp l1 l2 Hpl Hs Hn1 Hn2)
    as Hcp.
  pose proof (built_children_old i p u pid d Hi Hp) as Hco.
  pose proof (built_children_new i p u pid d Hi Hp) as Hcn.
  assert (Hpw : parent_of built len = Some p).
  { specialize (Hpn 0). now rewrite Nat.add_0_r in Hpn. }
  split.
  - rewrite is_element_lookup. fold (kind_at built document).
    rewrite (built_kind_old i p u pid d Hi) by (unfold document; lia).
    unfold kind_at. rewrite <- is_element_lookup.
    apply (tp_document d Htidy).
  - exists (block_height h len i). intros n q Hq.
    destruct (decide (n < len)) as [Hn|Hn].
    + destruct (decide (n = i)) as [->|Hne].
      * rewrite Hpi in Hq. injection Hq as <-. height_cases.
      * rewrite Hpo in Hq by assumption.
        pose proof (tp_parent_range d Htidy n q Hq) as Hql.
        specialize (Hh n q Hq). height_cases.
    + replace n with (len + (n - len)) in Hq by lia.
      rewrite Hpn in Hq.
      destruct (n - len) as [|[|[|[|[|[|[|[|k]]]]]]]] eqn:Hk;
        cbn [nth] in Hq; [..|destruct k; discriminate Hq];
        injection Hq as <-; height_cases.
  - intros q c Hc.
    destruct (decide (q < len)) as [Hq|Hq].
    + destruct (decide (q = p)) as [->|Hqp].
      * rewrite Hcp in Hc. apply in_app_iff in Hc as [Hc|[<-|Hc]];
          [|exact Hpw|].
        -- assert (Hin : In c (children_of d p))
             by (rewrite Hs; apply in_app_iff; now left).
           pose proof (tp_children d Htidy p c Hin) as Hpc.
           rewrite Hpo; [exact Hpc| |congruence].
           unfold parent_of in Hpc.
           destruct (d !! c) eqn:Hx; [|discriminate].
           eapply lookup_lt_Some, Hx.
        -- assert (Hin : In c (children_of d p))
             by (rewrite Hs; apply in_app_iff; right; now right).
           pose proof (tp_children d Htidy p c Hin) as Hpc.
           rewrite Hpo; [exact Hpc| |congruence].
           unfold parent_of in Hpc.
           destruct (d !! c) eqn:Hx; [|discriminate].
           eapply lookup_lt_Some, Hx.
      * rewrite Hco in Hc by assumption.
        pose proof (tp_children d Htidy q c Hc) as Hpc.
        rewrite Hpo; [exact Hpc| |congruence].
        unfold parent_of in Hpc.
        destruct (d !! c) eqn:Hx; [|discriminate].
        eapply lookup_lt_Some, Hx.
    + replace q with (len + (q - len)) in Hc by lia.
      rewrite Hcn in Hc by exact Hpl.
      destruct (q - len) as [|[|k]] eqn:Hk; cbn [nth] in Hc.
      * replace q with len by lia.
        destruct Hc as [<-|[<-|[<-|[]]]].
        -- now rewrite Hpn.
        -- exact Hpi.
        -- now rewrite Hpn.
      * replace q with (len + 1) by lia.
        destruct Hc as [<-|[<-|[<-|[<-|[<-|[]]]]]];
          rewrite Hpn; reflexivity.
      * now destruct k.
  - intros n Hhf. apply built_harmful in Hhf as [-> _].
    unfold querySelectorAll.
    apply list_elem_of_In, list_elem_of_filter. split.
    + apply built_iframe_selected.
    + apply list_elem_of_In, built_in_document.
  - intros n ->%built_restorable. exists len, p. split.
    + apply parentElement_Some. split; [exact Hpi|].
      rewrite is_element_lookup.
      fold (kind_at built len).
      pose proof (built_kind_new i p u pid d Hi 0) as Hk.
      rewrite Nat.add_0_r in Hk. now rewrite Hk.
    + apply parentElement_Some. split; [exact Hpw|].
      rewrite is_element_lookup. fold (kind_at built p).
      rewrite (built_kind_old i p u pid d Hi) by exact Hpl.
      unfold kind_at. now rewrite <- is_element_lookup.
  - now intros a b ->%built_restorable ->%built_restorable.
  - intros a b ->%built_restorable ->%built_restorable.
    rewrite Hpi. intros [= Heq]. lia.
  - intros a b wi ->%built_restorable ->%built_restorable.
    rewrite Hpi. intros [= <-]. rewrite Hpw. intros [= Heq]. lia.
  - intros m Hm Hhf. rewrite (built_marker m Hm) in *. split.
    + rewrite has_tag_at, (built_kind_new i p u pid d Hi). reflexivity.
    + exists i. split; [|now rewrite Hpn, Hpi].
      unfold restorable. rewrite built_iframe_selected. cbn [andb].
      destruct built_blocked as (_ & _ & ->).
      rewrite built_get_new in Hhf.
      cbn [lookup list_lookup mbind option_bind] in Hhf.
      now rewrite lookup_insert_eq in Hhf.
Qed.

End BlockedLayout.

(** ** Blocking and restoring, end to end *)

Lemma createContentPlaceholder_dom (w : world) (i p : nat) (u : string) :
  parentElement (dom w) i = Some p ->
  dom (world_of (createContentPlaceholder i u w))
  = snd (build_placeholder i p u
           ("cookie-blocked-content-" ++ rand w (draws w))%string (dom w)).
Proof.
  intros Hp. unfold createContentPlaceholder, draw.
  cbv beta iota; cbn [dom]. rewrite Hp.
  now destruct (build_placeholder _ _ _ _ _).
Qed.

Lemma lookup_middle_unique (l1 l2 : list nat) (x : nat) (idx : nat) :
  ~ In x l1 -> ~ In x l2 ->
  (l1 ++ x :: l2) !! idx = Some x -> idx = length l1.
Proof.
  intros H1 H2 Hl.
  destruct (Nat.lt_trichotomy idx (length l1)) as [Hlt|[Heq|Hgt]];
    [exfalso|exact Heq|exfalso].
  - rewrite lookup_app_l in Hl by exact Hlt.
    apply H1. eapply list_elem_of_In, list_elem_of_lookup_2, Hl.
  - rewrite lookup_app_r in Hl by lia.
    destruct (idx - length l1) as [|k] eqn:Hk; [lia|].
    cbn [lookup list_lookup] in Hl.
    apply H2. eapply list_elem_of_In, list_elem_of_lookup_2, Hl.
Qed.

Lemma sample_page_tidy : tidy_page sample_page.
Proof.
  split.
  - reflexivity.
  - exists (fun n => nth n [3; 2; 1; 0; 0] 0). intros n q H.
    by_index 5 n H; try discriminate H; injection H as <-; vm_compute; lia.
  - intros n q H.
    by_index 5 n H; try discriminate H; injection H as <-; vm_compute; lia.
  - intros q c H.
    by_index 5 q H;
      repeat (destruct H as [<-|H]; [reflexivity|]); destruct H.
  - intros q. apply NoDup_ListNoDup.
    do 5 (destruct q as [|q];
          [vm_compute; repeat constructor; cbn; intuition lia|]).
    vm_compute. constructor.
  - intros n. do 5 (destruct n as [|n]; [reflexivity|]). reflexivity.
  - intros n. do 5 (destruct n as [|n]; [reflexivity|]). reflexivity.
Qed.

(** Blocking an iframe of a tidy page leaves the layout on which the
    restorer's guarantees rest. *)
Theorem blocking_establishes_layout (kws : list string) (w : world)
    (i p : nat) (u : string) :
  tidy_page (dom w) ->
  has_tag (dom w) "IFRAME" i = true ->
  In i (descendants (dom w) document) ->
  parentElement (dom w) i = Some p ->
  restorable_layout kws (dom (world_of (createContentPlaceholder i u w))).
Proof.
  intros Htidy Htag Hdoc Hpe.
  rewrite (createContentPlaceholder_dom w i p u Hpe).
  destruct (tp_height _ Htidy) as [h Hh].
  exact (built_layout kws i p u _ (dom w) Htidy h Hh Htag Hdoc Hpe).
Qed.

Lemma blocking_establishes_layout_witness :
  restorable_layout []
    (dom (world_of (createContentPlaceholder 3 "https://youtube.com/embed/abc"
                      (fresh_world sample_page)))).
Proof.
  refine (blocking_establishes_layout [] (fresh_world sample_page) 3 2
            "https://youtube.com/embed/abc" sample_page_tidy _ _ _).
  - reflexivity.
  - vm_compute. tauto.
  - reflexivity.
Defined.

(** Blocking an iframe of a tidy page and then restoring with keywords that
    do not match the recorded URL is a round trip on the tree and on the
    URL: the iframe is again the child of its parent at the index it had,
    its [src] is the recorded URL, the blocking attributes are gone and the
    wrapper is out of the document.  The nine positioning styles come back
    empty, whatever they were before blocking. *)
Theorem unblock_undoes_block (kws : list string) (w : world)
    (i p idx : nat) (u : string) :
  tidy_page (dom w) ->
  has_tag (dom w) "IFRAME" i = true ->
  In i (descendants (dom w) document) ->
  parentElement (dom w) i = Some p ->
  children_of (dom w) p !! idx = Some i ->
  truthy u = true ->
  some_includes kws u = false ->
  let w1 := world_of (createContentPlaceholder i u w) in
  let d2 := dom (unblockPreviouslyBlockedContent kws w1) in
  getAttribute d2 i "src" = Some u
  /\ getAttribute d2 i "data-cookie-blocked" = None
  /\ getAttribute d2 i "data-original-src" = None
  /\ parent_of d2 i = Some p
  /\ children_of d2 p !! idx = Some i
  /\ (forall k, In k (map fst hidden_iframe_styles) -> style_of d2 i k = "")
  /\ parent_of d2 (length (dom w)) = None
  /\ ~ In (length (dom w)) (descendants d2 document).
Proof.
  intros Htidy Htag Hdoc Hpe Hidx Htr Hkw w1 d2.
  subst d2 w1. rewrite dom_unblock.
  rewrite (createContentPlaceholder_dom w i p u Hpe).
  set (pid := ("cookie-blocked-content-" ++ rand w (draws w))%string).
  set (d := dom w) in *.
  destruct (tp_height _ Htidy) as [h Hh].
  pose proof (built_layout kws i p u pid d Htidy h Hh Htag Hdoc Hpe) as Hlay.
  destruct (tidy_parent i p d Hpe) as [Hp Hep].
  destruct (tidy_bounds i p d Htidy h Hh Htag Hpe) as (Hi & Hpl & Hlt).
  destruct (tidy_split i p d Htidy Hdoc Hpe) as (l1 & l2 & Hs & Hn1 & Hn2).
  pose proof (built_blocked i p u pid d Htidy h Hh Htag Hpe)
    as (_ & _ & Hrec).
  pose proof (built_parent_iframe i p u pid d Hi) as Hpi.
  pose proof (built_parent_new i p u pid d Hi 0) as Hpw.
  rewrite Nat.add_0_r in Hpw. cbn [nth] in Hpw.
  pose proof (built_children_parent i p u pid d Hi Hp l1 l2 Hpl Hs Hn1 Hn2)
    as Hcp.
  pose proof (built_iframe_selected i p u pid d Htidy h Hh Htag Hpe) as Hsel.
  set (d1 := snd (build_placeholder i p u pid d)) in *.
  destruct (unblock_store_layout kws d1 Hlay) as (done & Inv & Hall & _).
  assert (Hr : restorable kws d1 i = true).
  { unfold restorable. rewrite Hsel, Hrec. cbn [harmful andb].
    now rewrite Htr, Hkw. }
  pose proof (Hall i Hr) as Hin.
  destruct (rs_attrs_done _ _ _ _ Inv i u Hin Hrec) as (Hsrc & Hm & Hno).
  assert (Hix : idx = length l1).
  { rewrite Hs in Hidx. now apply lookup_middle_unique in Hidx. }
  split; [exact Hsrc|]. split; [exact Hm|]. split; [exact Hno|].
  split.
  { rewrite (rs_parent_done _ _ _ _ Inv i (length d) Hin Hpi). exact Hpw. }
  split.
  { apply (rs_position_done _ _ _ _ Inv i (length d) p idx Hin Hpi Hpw).
    rewrite Hcp, Hix, lookup_app_r by lia.
    now rewrite Nat.sub_diag. }
  split.
  { intros k Hk. now apply (rs_styles_done _ _ _ _ Inv). }
  split.
  { now apply (rs_parent_wrapper _ _ _ _ Inv i). }
  intros Hw. destruct (descendants_from _ _ _ Hw) as (q & Hq & _).
  exact (rs_wrapper_gone _ _ _ _ Inv i (length d) q Hin Hpi Hq).
Qed.

Lemma unblock_undoes_block_witness :
  let w1 := world_of (createContentPlaceholder 3
                        "https://youtube.com/embed/abc"
                        (fresh_world sample_page)) in
  let d2 := dom (unblockPreviouslyBlockedContent [] w1) in
  getAttribute d2 3 "src" = Some "https://youtube.com/embed/abc"
  /\ getAttribute d2 3 "data-cookie-blocked" = None
  /\ getAttribute d2 3 "data-original-src" = None
  /\ parent_of d2 3 = Some 2
  /\ children_of d2 2 !! 0 = Some 3
  /\ (forall k, In k (map fst hidden_iframe_styles) -> style_of d2 3 k = "")
  /\ parent_of d2 5 = None
  /\ ~ In 5 (descendants d2 document).
Proof.
  refine (unblock_undoes_block [] (fresh_world sample_page) 3 2 0
            "https://youtube.com/embed/abc" sample_page_tidy _ _ _ _ _ _).
  - reflexivity.
  - vm_compute. tauto.
  - reflexivity.
  - reflexivity.
  - reflexivity.
  - reflexivity.
Defined.

(** ** The panel and the visibility pass *)

Lemma build_placeholder_text (i p : nat) (u pid : string) (d : store) :
  (text <$> snd (build_placeholder i p u pid d)) !! (length d + 3)
  = Some "Content Blocked".
Proof.
  open_build_placeholder.
  remember (setAttribute i "src" "about:blank"
              (setAttribute i "data-original-src" u
                 (setAttribute i "data-cookie-blocked" "true" d)))
    as d3 eqn:Hd3.
  assert (Hlen : length d3 = length d)
    by (subst d3; now rewrite !length_setAttribute).
  clear Hd3. push_views. autorewrite with store_len. cbn [length].
  rewrite <- !app_assoc.
  rewrite lookup_app_r by (rewrite length_fmap; lia).
  rewrite length_fmap, Hlen.
  replace (length d + 3 - length d) with 3 by lia.
  reflexivity.
Qed.

Lemma built_title_below (i p : nat) (u pid : string) (d : store) :
  i < length d -> parent_of d i = Some p -> p < length d ->
  In (length d + 3)
    (descendants (snd (build_placeholder i p u pid d)) (length d)).
Proof.
  intros Hi Hp Hpl.
  pose proof (built_children_new i p u pid d Hi Hp 0 Hpl) as H0.
  pose proof (built_children_new i p u pid d Hi Hp 1 Hpl) as H1.
  rewrite Nat.add_0_r in H0. cbn [nth] in H0, H1.
  apply descendants_reaches.
  apply (reaches_more _ 2); [rewrite built_length; lia|].
  cbn [reaches]. right. exists (length d + 1). split.
  - rewrite H0. now left.
  - left. rewrite H1. right. now left.
Qed.

(** The panel that [createContentPlaceholder] builds is the content that
    [ensurePlaceholdersVisible] looks for: run on the result of blocking an
    iframe of a tidy page, the visibility pass finds the title under the
    wrapper, rebuilds nothing and draws no random id; it only writes inline
    styles and the [src] attribute. *)
Theorem ensure_after_block (w : world) (i p : nat) (u : string) :
  tidy_page (dom w) ->
  has_tag (dom w) "IFRAME" i = true ->
  parentElement (dom w) i = Some p ->
  let w1 := world_of (createContentPlaceholder i u w) in
  innerHTML_includes (dom w1) (length (dom w)) "Content Blocked" = true
  /\ markup_in_place (dom w1)
  /\ same_shape (dom (ensurePlaceholdersVisible w1)) (dom w1)
  /\ draws (ensurePlaceholdersVisible w1) = draws w1.
Proof.
  intros Htidy Htag Hpe w1.
  destruct (tp_height _ Htidy) as [h Hh].
  destruct (tidy_parent i p (dom w) Hpe) as [Hp Hep].
  destruct (tidy_bounds i p (dom w) Htidy h Hh Htag Hpe) as (Hi & Hpl & _).
  set (pid := ("cookie-blocked-content-" ++ rand w (draws w))%string).
  assert (Hd1 : dom w1 = snd (build_placeholder i p u pid (dom w)))
    by apply (createContentPlaceholder_dom w i p u Hpe).
  pose proof (built_title_below i p u pid (dom w) Hi Hp Hpl) as Hbelow.
  pose proof (build_placeholder_text i p u pid (dom w)) as Htext.
  pose proof (built_marker i p u pid (dom w) Htidy h Hh Htag Hpe) as Hmk.
  pose proof (built_parent_new i p u pid (dom w) Hi 7) as Hpm.
  rewrite <- Hd1 in Hbelow, Htext, Hmk, Hpm. cbn [nth] in Hpm.
  rewrite list_lookup_fmap in Htext.
  destruct (dom w1 !! (length (dom w) + 3)) as [x|] eqn:Hx;
    [|discriminate Htext].
  cbn [fmap option_fmap option_map] in Htext. apply (inj Some) in Htext.
  assert (Hstable : stable_content (dom w1) (length (dom w)) = true).
  { unfold stable_content. apply orb_true_iff. right.
    apply existsb_exists. exists (length (dom w) + 3).
    split; [exact Hbelow|]. rewrite Hx, Htext. reflexivity. }
  assert (Hm : markup_in_place (dom w1)).
  { intros q wr Hq Hwr. apply In_querySelectorAll in Hq.
    rewrite (Hmk q Hq) in Hwr.
    apply parentElement_Some in Hwr as [Hwr _].
    rewrite Hpm in Hwr. injection Hwr as <-. exact Hstable. }
  split.
  { unfold innerHTML_includes. apply existsb_exists.
    exists (length (dom w) + 3). split; [exact Hbelow|].
    rewrite Hx. unfold node_mentions. rewrite Htext. reflexivity. }
  split; [exact Hm|].
  rewrite (ensure_as_writes w1 Hm).
  split; [apply same_shape_apply_writes|reflexivity].
Qed.

Lemma ensure_after_block_witness :
  let w1 := world_of (createContentPlaceholder 3
                        "https://youtube.com/embed/abc"
                        (fresh_world sample_page)) in
  innerHTML_includes (dom w1) 5 "Content Blocked" = true
  /\ markup_in_place (dom w1)
  /\ same_shape (dom (ensurePlaceholdersVisible w1)) (dom w1)
  /\ draws (ensurePlaceholdersVisible w1) = draws w1.
Proof.
  refine (ensure_after_block (fresh_world sample_page) 3 2
            "https://youtube.com/embed/abc" sample_page_tidy _ _);
    reflexivity.
Defined.

(** ** The settings button *)

Lemma subtree_within_children (d d' : store) (fuel : nat) (ns : list nat) :
  (forall n, children_of d' n = children_of d n) ->
  subtree_within fuel d' ns = subtree_within fuel d ns.
Proof.
  intros Hc. revert ns. induction fuel as [|fuel IH]; intros ns;
    [reflexivity|].
  cbn [subtree_within]. apply flat_map_ext. intros n.
  now rewrite Hc, IH.
Qed.

Lemma queries_by_views (d d' : store) (root : nat) (a v : string) :
  children <$> d' = children <$> d -> kind <$> d' = kind <$> d ->
  attrs <$> d' = attrs <$> d ->
  querySelectorAll d' root (attr_is a v)
  = querySelectorAll d root (attr_is a v).
Proof.
  intros Hc Hk Ha. unfold querySelectorAll, descendants.
  assert (Hch : forall n, children_of d' n = children_of d n)
    by (intros n; apply children_of_same; now rewrite Hc).
  rewrite (length_by_kinds _ _ Hk), Hch.
  rewrite (subtree_within_children d d' _ _ Hch).
  apply list_filter_iff. intros n. unfold attr_is.
  rewrite (is_element_same d d' n Hk).
  now rewrite !getAttribute_lookup, Ha.
Qed.

Lemma reaches_step (d : store) (k : nat) (r n c : nat) :
  reaches d k r n -> In c (children_of d n) -> reaches d (S k) r c.
Proof.
  revert r. induction k as [|k IH]; intros r; [intros []|].
  intros [Hn|(m & Hm & Hn)] Hc.
  - right. exists n. split; [exact Hn|]. now left.
  - right. exists m. split; [exact Hm|]. now apply IH.
Qed.

Lemma head_only {A} (l : list A) (x : A) :
  In x l -> (forall y, In y l -> y = x) -> head l = Some x.
Proof.
  destruct l as [|y rest]; [intros []|]. intros _ Hall. cbn.
  f_equal. apply Hall. now left.
Qed.

Lemma build_placeholder_wiring (i p : nat) (u pid : string) (d : store) :
  exists before,
    snd (build_placeholder i p u pid d)
    = addSettingsButtonListeners pid before
    /\ listeners <$> before = (listeners <$> d) ++ [[]; []; []; []; []; []; []; []].
Proof.
  open_build_placeholder. eexists. split; [reflexivity|].
  remember (setAttribute i "src" "about:blank"
              (setAttribute i "data-original-src" u
                 (setAttribute i "data-cookie-blocked" "true" d)))
    as d3 eqn:Hd3.
  assert (Hl : listeners <$> d3 = listeners <$> d)
    by (subst d3; now rewrite !view_setAttribute by view_side).
  clear Hd3. push_views. rewrite Hl, <- !app_assoc. reflexivity.
Qed.

Section ButtonWiring.
Variables (i p : nat) (u pid : string) (d : store).
Hypothesis Htidy : tidy_page d.
Variable h : nat -> nat.
Hypothesis Hh : forall n q, parent_of d n = Some q -> h n < h q.
Hypothesis Htag : has_tag d "IFRAME" i = true.
Hypothesis Hdoc : In i (descendants d document).
Hypothesis Hpe : parentElement d i = Some p.

Local Abbreviation built := (snd (build_placeholder i p u pid d)).
Local Abbreviation len := (length d).

Lemma built_reaches_wrapper (k r : nat) :
  reaches d k r i -> reaches built k r len.
Proof.
  destruct (tidy_parent i p d Hpe) as [Hp _].
  destruct (tidy_bounds i p d Htidy h Hh Htag Hpe) as (Hi & Hpl & Hlt).
  destruct (tidy_split i p d Htidy Hdoc Hpe) as (l1 & l2 & Hs & Hn1 & Hn2).
  pose proof (built_children_parent i p u pid d Hi Hp l1 l2 Hpl Hs Hn1 Hn2)
    as Hcp.
  revert r. induction k as [|k IH]; intros r; [intros []|].
  cbn [reaches]. intros [Hx|(n & Hn & Hx)].
  - assert (r = p) by (pose proof (tp_children d Htidy r i Hx); congruence).
    subst r. left. rewrite Hcp. apply in_elt.
  - right. exists n. split; [|now apply IH].
    assert (Hni : n <> i).
    { intros ->.
      pose proof (reaches_height d h Hh (tp_children d Htidy) k i i Hx). lia. }
    destruct (decide (r = p)) as [->|Hrp].
    + rewrite Hcp. rewrite Hs in Hn.
      apply in_app_iff in Hn as [Hn|[Hn|Hn]];
        [apply in_app_iff; now left|congruence|].
      apply in_app_iff. right. now right.
    + rewrite built_children_old; [exact Hn|exact Hi|exact Hp| |exact Hrp].
      pose proof (tp_children d Htidy r n Hn) as Hpr.
      eapply (tp_parent_range d Htidy), Hpr.
Qed.

Lemma built_button_in_document : In (len + 6) (descendants built document).
Proof.
  destruct (tidy_parent i p d Hpe) as [Hp _].
  destruct (tidy_bounds i p d Htidy h Hh Htag Hpe) as (Hi & Hpl & Hlt).
  pose proof (built_children_new i p u pid d Hi Hp 0 Hpl) as H0.
  pose proof (built_children_new i p u pid d Hi Hp 1 Hpl) as H1.
  rewrite Nat.add_0_r in H0. cbn [nth] in H0, H1.
  apply descendants_reaches.
  apply (reaches_more built (S (S len)));
    [rewrite (built_length i p u pid d); lia|].
  apply (reaches_step built _ _ (len + 1)).
  - apply (reaches_step built _ _ len).
    + apply built_reaches_wrapper. now apply descendants_reaches.
    + rewrite H0. now left.
  - rewrite H1. do 4 right. now left.
Qed.

End ButtonWiring.

(** On a tidy page where no element already carries the id of the new
    settings button, blocking an iframe of the document attaches the three
    handlers of [addSettingsButtonListeners] to that button, and to nothing
    else: every other new node has no listener and the listeners of the
    former nodes are unchanged. *)
Theorem settings_button_wired (w : world) (i p : nat) (u : string) :
  tidy_page (dom w) ->
  has_tag (dom w) "IFRAME" i = true ->
  In i (descendants (dom w) document) ->
  parentElement (dom w) i = Some p ->
  (forall n, getAttribute (dom w) n "id"
             <> Some ("cookie-settings-cookie-blocked-content-"
                      ++ rand w (draws w))%string) ->
  let d1 := dom (world_of (createContentPlaceholder i u w)) in
  getAttribute d1 (length (dom w) + 6) "id"
  = Some ("cookie-settings-cookie-blocked-content-"
          ++ rand w (draws w))%string
  /\ listeners <$> d1
     = (listeners <$> dom w)
       ++ [[]; []; []; []; []; []; settings_listeners; []].
Proof.
  intros Htidy Htag Hdoc Hpe Hfree d1. subst d1.
  rewrite (createContentPlaceholder_dom w i p u Hpe).
  set (pid := ("cookie-blocked-content-" ++ rand w (draws w))%string).
  set (d := dom w) in *.
  change ("cookie-settings-cookie-blocked-content-" ++ rand w (draws w))%string
    with ("cookie-settings-" ++ pid)%string in *.
  set (X := ("cookie-settings-" ++ pid)%string) in *.
  destruct (tp_height _ Htidy) as [h Hh].
  destruct (tidy_parent i p d Hpe) as [Hp Hep].
  destruct (tidy_bounds i p d Htidy h Hh Htag Hpe) as (Hi & Hpl & Hlt).
  pose proof (built_get_new i p u pid d) as Hnew.
  pose proof (built_get_old i p u pid d) as Hold.
  pose proof (built_get_kept i p u pid d Htidy h Hh Htag Hpe "id") as Hkept.
  pose proof (built_button_in_document i p u pid d Htidy h Hh Htag Hdoc Hpe)
    as Hin.
  pose proof (built_kind_new i p u pid d Hi 6) as Hkind.
  destruct (build_placeholder_wiring i p u pid d) as (F & HF & Hl).
  remember (snd (build_placeholder i p u pid d)) as G eqn:HG. clear HG.
  assert (Hid : getAttribute G (length d + 6) "id" = Some X).
  { rewrite Hnew. cbn [lookup list_lookup mbind option_bind].
    apply lookup_singleton_eq. }
  split; [exact Hid|].
  assert (Hfound : getElementById F X = Some (length d + 6)).
  { unfold getElementById, querySelector.
    rewrite (queries_by_views G F);
      [|rewrite HF; symmetry; apply view_addSettingsButtonListeners;
        view_side..].
    apply head_only.
    - unfold querySelectorAll.
      apply list_elem_of_In, list_elem_of_filter. split.
      + unfold attr_is. rewrite Hid, String.eqb_refl, andb_true_r.
        rewrite is_element_lookup. fold (kind_at G (length d + 6)).
        now rewrite Hkind.
      + now apply list_elem_of_In.
    - intros n Hn. apply In_querySelectorAll in Hn.
      unfold attr_is in Hn. apply andb_true_iff in Hn as [_ Hn].
      destruct (getAttribute G n "id") as [v|] eqn:Hv; [|discriminate Hn].
      apply String.eqb_eq in Hn. subst v.
      destruct (decide (n < length d)) as [Hlt'|Hge].
      + exfalso. apply (Hfree n). rewrite <- Hv.
        destruct (decide (n = i)) as [->|Hne].
        * symmetry. apply Hkept; discriminate.
        * symmetry. now apply Hold.
      + replace n with (length d + (n - length d)) in Hv by lia.
        rewrite Hnew in Hv.
        destruct (n - length d) as [|[|[|[|[|[|[|[|k]]]]]]]] eqn:Hk;
          cbn [lookup list_lookup mbind option_bind] in Hv;
          rewrite ?lookup_empty in Hv; try discriminate Hv.
        lia. }
  rewrite HF. unfold addSettingsButtonListeners. fold X. rewrite Hfound.
  rewrite (view_alter listeners _ (fun l => l ++ settings_listeners))
    by reflexivity.
  rewrite Hl.
  rewrite alter_app_r_alt by (rewrite length_fmap; lia).
  rewrite length_fmap.
  replace (length d + 6 - length d) with 6 by lia.
  reflexivity.
Qed.

Lemma settings_button_wired_witness :
  let d1 := dom (world_of (createContentPlaceholder 3
                             "https://youtube.com/embed/abc"
                             (fresh_world sample_page))) in
  getAttribute d1 11 "id"
  = Some "cookie-settings-cookie-blocked-content-k3x9q2m1z"
  /\ listeners <$> d1
     = [[]; []; []; []; []; []; []; []; []; []; []; settings_listeners; []].
Proof.
  refine (settings_button_wired (fresh_world sample_page) 3 2
            "https://youtube.com/embed/abc" sample_page_tidy _ _ _ _).
  - reflexivity.
  - vm_compute. tauto.
  - reflexivity.
  - intros n. do 5 (destruct n as [|n]; [discriminate|]). discriminate.
Defined.
